(** * G-kicks: the automatic delivery sweep, its statistics and the
      database health check

    Shallow embedding of
      - [src/lib/auto-delivery-service.ts]
          ([AutoDeliveryService.checkAndMarkDeliveredOrders],
           [logAutoDelivery], [getStats], [setupAutoDeliveryLogsTable]);
      - the route handler [GET] of the health-check endpoint.

    The service talks to the database only through [executeQuery]; an
    [await] of it is a call that either yields a reply or throws.  The
    embedding threads a world through those calls and keeps thrown values
    apart from replies, so [try]/[catch] is a function on outcomes.
    Console output is not part of the model. *)

From Stdlib Require Import ZArith NArith List String Ascii Bool Lia.
From Stdlib Require Import Sorting.Sorted Sorting.Permutation.
Import ListNotations.

Local Open Scope string_scope.
Local Open Scope list_scope.
Local Open Scope Z_scope.

(** ** Thrown values *)

(** What a [catch] clause can receive: an instance of [Error], which
    carries a [message], or any other value, which may or may not have a
    [message] property. *)
Inductive Thrown : Type :=
| ErrorObject (message : string)
| ThrownValue (message : option string).

(** [error instanceof Error ? error.message : 'Unknown error'] *)
Definition error_message (error : Thrown) : string :=
  match error with
  | ErrorObject message => message
  | ThrownValue _ => "Unknown error"
  end.

(** [err?.message ?? "Unknown error"] *)
Definition message_or_unknown (err : Thrown) : string :=
  match err with
  | ErrorObject message => message
  | ThrownValue (Some message) => message
  | ThrownValue None => "Unknown error"
  end.

(** ** Computations that call the outside world and may throw *)

Definition M (S A : Type) : Type := S -> (Thrown + A) * S.

Definition ret {S A : Type} (a : A) : M S A := fun s => (inr a, s).

Definition bind {S A B : Type} (m : M S A) (k : A -> M S B) : M S B :=
  fun s =>
    match m s with
    | (inl error, s') => (inl error, s')
    | (inr a, s') => k a s'
    end.

(** [try { body } catch (error) { handler }]: whatever [body] did to the
    state before throwing stays done. *)
Definition try_catch {S A : Type} (body : M S A) (handler : Thrown -> M S A)
  : M S A :=
  fun s =>
    match body s with
    | (inl error, s') => handler error s'
    | (inr a, s') => (inr a, s')
    end.

(** [for (const x of xs) { body }] *)
Fixpoint for_of {S A : Type} (xs : list A) (body : A -> M S unit) : M S unit :=
  match xs with
  | [] => ret tt
  | x :: rest => bind (body x) (fun _ => for_of rest body)
  end.

(** A computation on the world alone, run where local variables are live. *)
Definition lift {W L A : Type} (m : M W A) : M (W * L) A :=
  fun s =>
    let '(w, l) := s in
    let '(r, w') := m w in (r, (w', l)).

Definition modify {W L : Type} (f : L -> L) : M (W * L) unit :=
  fun s => let '(w, l) := s in (inr tt, (w, f l)).

(** Declares locals [init], runs [m], and hands back their final value.
    When [m] throws the locals go out of scope with it. *)
Definition with_locals {W L A : Type} (init : L) (m : M (W * L) A)
  : M W (A * L) :=
  fun w =>
    match m (w, init) with
    | (inl error, (w', _)) => (inl error, w')
    | (inr a, (w', l)) => (inr (a, l), w')
    end.

Declare Scope js_scope.
Delimit Scope js_scope with js.
Notation "x <- m ;; k" := (bind m (fun x => k))
  (at level 61, m at next level, right associativity) : js_scope.
Notation "m ;;; k" := (bind m (fun _ => k))
  (at level 61, right associativity) : js_scope.

(** ** The statements the service sends and what comes back *)

(** A row of the selection query: the five selected columns. *)
Record OrderRow : Type := {
  id : Z;
  order_number : string;
  shipped_at : option Z;
  status : string;
  customer_email : option string
}.

(** The header a write statement returns. *)
Record ResultSetHeader : Type := { affectedRows : Z }.

Record TableCheckRow : Type := { cnt : Z }.

Record StatsRow : Type := {
  total_processed : Z;
  last_processed : option Z
}.

(** The SQL texts of the source, one constructor each, with their bound
    parameters. *)
Inductive Query : Type :=
| SelectEligibleOrders
| UpdateDelivered (order_id : Z)
| InsertAutoDeliveryLog (order_id : Z) (orderNumber : string)
                        (customerEmail : option string)
| TableCheck
| StatsQuery
| CreateAutoDeliveryLogsTable.

(** The shape of the reply to each statement: rows for a [SELECT], a
    header for a write, as the source takes them to be ([as any[]],
    [result.affectedRows]).  The selection may also come back falsy
    ([None]), which the source tests with [!orders]; [tableCheck] and
    [stats] may come back without a first row, which it reads with
    [?.]. *)
Definition Reply (q : Query) : Type :=
  match q with
  | SelectEligibleOrders => option (list OrderRow)
  | UpdateDelivered _ => ResultSetHeader
  | InsertAutoDeliveryLog _ _ _ => ResultSetHeader
  | TableCheck => list TableCheckRow
  | StatsQuery => list StatsRow
  | CreateAutoDeliveryLogsTable => ResultSetHeader
  end.

(** [executeQuery] of [@/lib/database/mysql], seen from the service: any
    function of the statement and the world. *)
Definition Collaborator (World : Type) : Type :=
  forall q : Query, M World (Reply q).

(** One call as an observer sees it: the statement and its outcome. *)
Inductive Event : Type :=
| Called (q : Query) (outcome : Thrown + Reply q).

(** The same collaborator with every call written to a journal. *)
Definition recorded {World : Type} (executeQuery : Collaborator World)
  : Collaborator (World * list Event) :=
  fun q s =>
    let '(w, journal) := s in
    let '(outcome, w') := executeQuery q w in
    (outcome, (w', journal ++ [Called q outcome])).

(** ** [AutoDeliveryService] *)

Record SweepResult : Type := {
  processedCount : Z;
  processedOrders : list string;
  errors : list string
}.

Record Stats : Type := {
  totalProcessed : Z;
  lastProcessed : option Z;
  errorCount : Z
}.

(** The two arrays [checkAndMarkDeliveredOrders] declares before its loop. *)
Record Locals : Type := {
  l_processedOrders : list string;
  l_errors : list string
}.

Definition push_processedOrders (x : string) (l : Locals) : Locals :=
  {| l_processedOrders := l_processedOrders l ++ [x];
     l_errors := l_errors l |}.

Definition push_errors (x : string) (l : Locals) : Locals :=
  {| l_processedOrders := l_processedOrders l;
     l_errors := l_errors l ++ [x] |}.

(** [x || 0] on a number that may be [undefined]. *)
Definition or_zero (x : option Z) : Z :=
  match x with
  | Some v => v
  | None => 0
  end.

(** [`Failed to process order ${order.order_number}: ${...}`] *)
Definition errorMsg (order : OrderRow) (error : Thrown) : string :=
  ("Failed to process order " ++ order_number order ++ ": "
     ++ error_message error)%string.

Section Service.

Context {World : Type}.
Variable executeQuery : Collaborator World.

Local Open Scope js_scope.

Definition logAutoDelivery (orderId : Z) (orderNumber : string)
           (customerEmail : option string) : M World unit :=
  try_catch
    (_ <- executeQuery (InsertAutoDeliveryLog orderId orderNumber customerEmail) ;;
     ret tt)
    (fun _ => ret tt).

(** The body of the [for] loop, for one [order]. *)
Definition process_order (order : OrderRow) : M (World * Locals) unit :=
  try_catch
    (result <- lift (executeQuery (UpdateDelivered (id order))) ;;
     if affectedRows result =? 1 then
       modify (push_processedOrders (order_number order)) ;;;
       lift (logAutoDelivery (id order) (order_number order)
                             (customer_email order))
     else
       ret tt)
    (fun error => modify (push_errors (errorMsg order error))).

Definition checkAndMarkDeliveredOrders : M World SweepResult :=
  try_catch
    (orders <- executeQuery SelectEligibleOrders ;;
     match orders with
     | None | Some [] =>
         ret {| processedCount := 0; processedOrders := []; errors := [] |}
     | Some orders =>
         done <- with_locals
                   {| l_processedOrders := []; l_errors := [] |}
                   (for_of orders process_order) ;;
         ret {| processedCount :=
                  Z.of_nat (List.length (l_processedOrders (snd done)));
                processedOrders := l_processedOrders (snd done);
                errors := l_errors (snd done) |}
     end)
    (fun error =>
       ret {| processedCount := 0;
              processedOrders := [];
              errors := [error_message error] |}).

Definition no_stats : Stats :=
  {| totalProcessed := 0; lastProcessed := None; errorCount := 0 |}.

Definition getStats : M World Stats :=
  try_catch
    (tableCheck <- executeQuery TableCheck ;;
     if or_zero (option_map cnt (hd_error tableCheck)) =? 0 then
       ret no_stats
     else
       stats <- executeQuery StatsQuery ;;
       ret {| totalProcessed :=
                or_zero (option_map total_processed (hd_error stats));
              lastProcessed :=
                match hd_error stats with
                | Some row => last_processed row
                | None => None
                end;
              errorCount := 0 |})
    (fun _ => ret no_stats).

Definition setupAutoDeliveryLogsTable : M World unit :=
  try_catch
    (_ <- executeQuery CreateAutoDeliveryLogsTable ;; ret tt)
    (fun _ => ret tt).

End Service.

(** ** The health-check route *)

Module Health.

(** What [getDatabaseConfig] hands out; the handler reads [host] and
    [database] only.  The fields are those the import script resolves
    from the environment. *)
Record DatabaseConfig : Type := {
  host : string;
  port : Z;
  user : string;
  password : string;
  database : string
}.

Inductive Json : Type :=
| JBool (b : bool)
| JString (s : string).

Record Response : Type := {
  status : Z;
  body : list (string * Json)
}.

(** [NextResponse.json(body)] answers 200 unless told otherwise. *)
Definition json (fields : list (string * Json)) (code : option Z) : Response :=
  {| status := match code with Some c => c | None => 200 end;
     body := fields |}.

Section Handler.

Context {World : Type}.
Variable testConnection : M World bool.
Variable getDatabaseConfig : World -> DatabaseConfig.

Local Open Scope js_scope.

Definition GET : M World Response :=
  try_catch
    (ok <- testConnection ;;
     cfg <- (fun w => (inr (getDatabaseConfig w), w)) ;;
     if ok : bool then
       ret (json [("success", JBool true);
                  ("mysqlConnected", JBool true);
                  ("host", JString (host cfg));
                  ("database", JString (database cfg))] None)
     else
       ret (json [("success", JBool false);
                  ("mysqlConnected", JBool false)] (Some 500)))
    (fun err =>
       ret (json [("success", JBool false);
                  ("mysqlConnected", JBool false);
                  ("error", JString (message_or_unknown err))]
                 (Some 500))).

End Handler.

(** Reading a field of a JSON body. *)
Fixpoint field (name : string) (fields : list (string * Json)) : option Json :=
  match fields with
  | [] => None
  | (k, v) :: rest => if (k =? name)%string then Some v else field name rest
  end.

(** A failure status together with an error message in the body. *)
Definition failure_with_message (r : Response) : Prop :=
  status r <> 200 /\ exists m, field "error" (body r) = Some (JString m).

End Health.

(** ** The database behind [executeQuery] *)

Module MySQL.

(** A row of [orders]: the columns the selection returns, and the two
    the update also writes. *)
Record Order : Type := {
  row : OrderRow;
  delivered_at : option Z;
  updated_at : option Z
}.

(** A row of [auto_delivery_logs], as [CREATE TABLE] lays it out. *)
Record LogEntry : Type := {
  log_id : Z;
  log_order_id : Z;
  log_order_number : string;
  log_customer_email : option string;
  processed_at : Z
}.

(** [now] is the clock [NOW()] reads, in seconds; [auto_delivery_logs]
    is [None] while the table does not exist; [online] is whether a
    statement can reach the server at all. *)
Record Database : Type := {
  online : bool;
  now : Z;
  orders : list Order;
  auto_delivery_logs : option (list LogEntry)
}.

(** [INTERVAL 7 DAY] *)
Definition seven_days : Z := 7 * 86400.

(** The [WHERE] clause of the selection, conjunct by conjunct; a
    comparison with [NULL] is not true. *)
Definition eligible (now : Z) (o : Order) : bool :=
  (status (row o) =? "shipped")%string
  && match shipped_at (row o) with Some _ => true | None => false end
  && match shipped_at (row o) with
     | Some t => t <=? now - seven_days
     | None => false
     end
  && (match delivered_at o with None => true | Some _ => false end
      || negb (status (row o) =? "delivered")%string).

(** [ORDER BY shipped_at ASC]; [NULL] sorts first. *)
Definition shipped_leb (a b : OrderRow) : bool :=
  match shipped_at a, shipped_at b with
  | None, _ => true
  | Some _, None => false
  | Some x, Some y => x <=? y
  end.

Fixpoint insert_row (r : OrderRow) (rows : list OrderRow) : list OrderRow :=
  match rows with
  | [] => [r]
  | r' :: rest =>
      if shipped_leb r r' then r :: rows else r' :: insert_row r rest
  end.

Definition order_by_shipped_at (rows : list OrderRow) : list OrderRow :=
  fold_right insert_row [] rows.

Definition select_eligible (db : Database) : list OrderRow :=
  order_by_shipped_at (map row (filter (eligible (now db)) (orders db))).

(** [WHERE id = ? AND status = 'shipped'] *)
Definition update_matches (order_id : Z) (o : Order) : bool :=
  (id (row o) =? order_id) && (status (row o) =? "shipped")%string.

(** [SET status = 'delivered', delivered_at = NOW(), updated_at = NOW()] *)
Definition set_delivered (now : Z) (o : Order) : Order :=
  {| row := {| id := id (row o);
               order_number := order_number (row o);
               shipped_at := shipped_at (row o);
               status := "delivered";
               customer_email := customer_email (row o) |};
     delivered_at := Some now;
     updated_at := Some now |}.

Definition update_delivered (order_id : Z) (db : Database) : Database :=
  {| online := online db;
     now := now db;
     orders := map (fun o => if update_matches order_id o
                             then set_delivered (now db) o else o)
                   (orders db);
     auto_delivery_logs := auto_delivery_logs db |}.

Definition insert_log (order_id : Z) (orderNumber : string)
           (customerEmail : option string) (logs : list LogEntry)
           (db : Database) : Database :=
  {| online := online db;
     now := now db;
     orders := orders db;
     auto_delivery_logs :=
       Some (logs ++ [{| log_id := Z.of_nat (List.length logs) + 1;
                         log_order_id := order_id;
                         log_order_number := orderNumber;
                         log_customer_email := customerEmail;
                         processed_at := now db |}]) |}.

Definition create_logs_table (db : Database) : Database :=
  {| online := online db;
     now := now db;
     orders := orders db;
     auto_delivery_logs :=
       match auto_delivery_logs db with
       | Some logs => Some logs
       | None => Some []
       end |}.

(** [MAX(processed_at)], [NULL] over no rows. *)
Definition max_processed_at (logs : list LogEntry) : option Z :=
  fold_right (fun e acc => match acc with
                           | None => Some (processed_at e)
                           | Some m => Some (Z.max (processed_at e) m)
                           end) None logs.

Definition no_such_table : Thrown :=
  ErrorObject "Table 'auto_delivery_logs' doesn't exist".

Definition unreachable : Thrown :=
  ErrorObject "connect ECONNREFUSED".

(** Modelled from the spec: [executeQuery] of [@/lib/database/mysql]
    and the server behind it are not among the sources.  Each statement
    of the service is given the meaning of its SQL text; a statement
    against a missing table, or sent while the server is unreachable,
    throws an [Error]. *)
Definition executeQuery : Collaborator Database :=
  fun q db =>
    if online db then
      match q return (Thrown + Reply q) * Database with
      | SelectEligibleOrders => (inr (Some (select_eligible db)), db)
      | UpdateDelivered order_id =>
          (inr {| affectedRows :=
                    Z.of_nat (List.length
                                (filter (update_matches order_id) (orders db))) |},
           update_delivered order_id db)
      | InsertAutoDeliveryLog order_id orderNumber customerEmail =>
          match auto_delivery_logs db with
          | Some logs =>
              (inr {| affectedRows := 1 |},
               insert_log order_id orderNumber customerEmail logs db)
          | None => (inl no_such_table, db)
          end
      | TableCheck =>
          (inr [{| cnt := match auto_delivery_logs db with
                          | Some _ => 1
                          | None => 0
                          end |}], db)
      | StatsQuery =>
          match auto_delivery_logs db with
          | Some logs =>
              (inr [{| total_processed := Z.of_nat (List.length logs);
                       last_processed := max_processed_at logs |}], db)
          | None => (inl no_such_table, db)
          end
      | CreateAutoDeliveryLogsTable =>
          (inr {| affectedRows := 0 |}, create_logs_table db)
      end
    else (inl unreachable, db).

(** Other clients of the same database: [actor q] is what they did to
    it since the previous statement, just before [q] runs. *)
Definition interleaved (actor : Query -> Database -> Database)
  : Collaborator Database :=
  fun q db => executeQuery q (actor q db).

(** An order row may stay as it is or go from [shipped] to [delivered],
    keeping its identity and gaining a [delivered_at]. *)
Definition advanced (o o' : Order) : Prop :=
  o' = o
  \/ (status (row o) = "shipped"
      /\ status (row o') = "delivered"
      /\ id (row o') = id (row o)
      /\ order_number (row o') = order_number (row o)
      /\ delivered_at o' <> None).

(** From [db] to [db'] every row of [orders] stayed or was delivered. *)
Definition only_delivers (db db' : Database) : Prop :=
  Forall2 advanced (orders db) (orders db').

(** [a] was shipped no later than [b]. *)
Definition ascending (a b : OrderRow) : Prop := shipped_leb a b = true.

(** What the conditional updates for [ids], sent in that order at time
    [now], make of one row. *)
Definition deliver_all (now : Z) (ids : list Z) (o : Order) : Order :=
  fold_left (fun o order_id => if update_matches order_id o
                               then set_delivered now o else o) ids o.

End MySQL.

(** ** Reading a journal *)

(** The outcomes of the conditional updates of a journal, oldest first,
    each with the [id] it was bound to. *)
Definition update_outcome (ev : Event) : list (Z * (Thrown + ResultSetHeader)) :=
  match ev with
  | Called q outcome =>
      match q return Thrown + Reply q -> list (Z * (Thrown + ResultSetHeader)) with
      | UpdateDelivered order_id => fun outcome => [(order_id, outcome)]
      | _ => fun _ => []
      end outcome
  end.

Definition update_outcomes (journal : list Event)
  : list (Z * (Thrown + ResultSetHeader)) :=
  flat_map update_outcome journal.

(** The outcome of the selection, when the call is one. *)
Definition selection_outcome (ev : Event)
  : option (Thrown + option (list OrderRow)) :=
  match ev with
  | Called q outcome =>
      match q return Thrown + Reply q -> option (Thrown + option (list OrderRow)) with
      | SelectEligibleOrders => fun outcome => Some outcome
      | _ => fun _ => None
      end outcome
  end.

(** The statements of a journal, without their outcomes. *)
Definition statement (ev : Event) : Query :=
  match ev with Called q _ => q end.

(** A statement the sweep may send: the selection, a conditional update
    to [delivered], an audit insertion.  Nothing else writes [orders]. *)
Definition sweep_statement (q : Query) : bool :=
  match q with
  | SelectEligibleOrders | UpdateDelivered _ | InsertAutoDeliveryLog _ _ _ => true
  | _ => false
  end.

(** What happened to one order of the batch. *)
Inductive Step : Type :=
| Failed (error : Thrown)
| Skipped (result : ResultSetHeader)
| Delivered (result : ResultSetHeader) (audit : Thrown + ResultSetHeader).

(** The calls one iteration of the loop makes, by what happened. *)
Definition step_events (order : OrderRow) (s : Step) : list Event :=
  match s with
  | Failed error => [Called (UpdateDelivered (id order)) (inl error)]
  | Skipped result => [Called (UpdateDelivered (id order)) (inr result)]
  | Delivered result audit =>
      [Called (UpdateDelivered (id order)) (inr result);
       Called (InsertAutoDeliveryLog (id order) (order_number order)
                                     (customer_email order)) audit]
  end.

Definition step_consistent (s : Step) : Prop :=
  match s with
  | Failed _ => True
  | Skipped result => affectedRows result <> 1
  | Delivered result _ => affectedRows result = 1
  end.

Definition step_processed (order : OrderRow) (s : Step) : list string :=
  match s with
  | Delivered _ _ => [order_number order]
  | _ => []
  end.

Definition step_errors (order : OrderRow) (s : Step) : list string :=
  match s with
  | Failed error => [errorMsg order error]
  | _ => []
  end.

Definition batch_events (orders : list OrderRow) (steps : list Step) : list Event :=
  flat_map (fun os => step_events (fst os) (snd os)) (combine orders steps).

Definition batch_processed (orders : list OrderRow) (steps : list Step) : list string :=
  flat_map (fun os => step_processed (fst os) (snd os)) (combine orders steps).

Definition batch_errors (orders : list OrderRow) (steps : list Step) : list string :=
  flat_map (fun os => step_errors (fst os) (snd os)) (combine orders steps).

(** What the update of [order] contributes to [processedOrders], given
    how it came out. *)
Definition reported (order : OrderRow) (outcome : Thrown + ResultSetHeader)
  : list string :=
  match outcome with
  | inr result => if affectedRows result =? 1 then [order_number order] else []
  | inl _ => []
  end.

(** What it contributes to [errors]. *)
Definition complaint (order : OrderRow) (outcome : Thrown + ResultSetHeader)
  : list string :=
  match outcome with
  | inl error => [errorMsg order error]
  | inr _ => []
  end.

Definition account (f : OrderRow -> Thrown + ResultSetHeader -> list string)
           (orders : list OrderRow)
           (outcomes : list (Z * (Thrown + ResultSetHeader))) : list string :=
  flat_map (fun oo => f (fst oo) (snd (snd oo))) (combine orders outcomes).

(** The journals a sweep can leave, with the result it returns for each:
    the selection threw; the selection came back empty or falsy; or a
    batch was worked through, one step per order. *)
Inductive sweep_run : list Event -> SweepResult -> Prop :=
| run_selection_failed (error : Thrown) :
    sweep_run [Called SelectEligibleOrders (inl error)]
              {| processedCount := 0; processedOrders := [];
                 errors := [error_message error] |}
| run_nothing_to_do (orders : option (list OrderRow)) :
    orders = None \/ orders = Some [] ->
    sweep_run [Called SelectEligibleOrders (inr orders)]
              {| processedCount := 0; processedOrders := []; errors := [] |}
| run_batch (orders : list OrderRow) (steps : list Step) :
    orders <> [] ->
    List.length steps = List.length orders ->
    Forall step_consistent steps ->
    sweep_run (Called SelectEligibleOrders (inr (Some orders))
                 :: batch_events orders steps)
              {| processedCount :=
                   Z.of_nat (List.length (batch_processed orders steps));
                 processedOrders := batch_processed orders steps;
                 errors := batch_errors orders steps |}.

(** ** Scenarios *)

Module Scenario.
Import MySQL.

Definition day : Z := 86400.

Definition order (i : Z) (number : string) (st : string) (shipped : option Z)
  : Order :=
  {| row := {| id := i; order_number := number; shipped_at := shipped;
               status := st; customer_email := Some "kim@example.com" |};
     delivered_at := None;
     updated_at := None |}.

(** The clock stands at day 100.  Order 42 was shipped ten days ago,
    order 7 exactly seven days ago, order 9 three days ago, order 3
    twenty days ago; order 5 is still pending. *)
Definition shop : Database :=
  {| online := true;
     now := 100 * day;
     orders := [order 42 "ORD-0042" "shipped" (Some (90 * day));
                order 7 "ORD-0007" "shipped" (Some (93 * day));
                order 9 "ORD-0009" "shipped" (Some (97 * day));
                order 3 "ORD-0003" "shipped" (Some (80 * day));
                order 5 "ORD-0005" "pending" None];
     auto_delivery_logs := Some [] |}.

Definition shop_without_logs : Database :=
  {| online := true; now := now shop; orders := orders shop;
     auto_delivery_logs := None |}.

(** Nothing has been in transit for a week yet. *)
Definition quiet_shop : Database :=
  {| online := true;
     now := 100 * day;
     orders := [order 9 "ORD-0009" "shipped" (Some (97 * day));
                order 5 "ORD-0005" "pending" None];
     auto_delivery_logs := Some [] |}.

Definition shop_offline : Database :=
  {| online := false; now := now shop; orders := orders shop;
     auto_delivery_logs := Some [] |}.

Definition set_online (b : bool) (db : Database) : Database :=
  {| online := b; now := now db; orders := orders db;
     auto_delivery_logs := auto_delivery_logs db |}.

(** The connection drops for the update of order 3 and is back for
    every other statement. *)
Definition flaky (q : Query) (db : Database) : Database :=
  match q with
  | UpdateDelivered 3 => set_online false db
  | _ => set_online true db
  end.

(** Somebody marks order 3 delivered by hand between the selection and
    its update. *)
Definition racing (q : Query) (db : Database) : Database :=
  match q with
  | UpdateDelivered 3 => update_delivered 3 db
  | _ => db
  end.

Definition config : Health.DatabaseConfig :=
  {| Health.host := "db.example.com"; Health.port := 3306;
     Health.user := "root"; Health.password := "secret";
     Health.database := "gkicks" |}.

End Scenario.

(** ** The address book hook *)

(** [useAddresses]: its callbacks are computations over the browser
    (local storage and the network) and the hook's own state cells and
    toasts.  A cell holds the last value set; the callbacks never read a
    cell.  The effect that calls [fetchAddresses] when the hook mounts
    is React's to run and is not modelled. *)

(** [throw e] *)
Definition throw {S A : Type} (e : Thrown) : M S A := fun s => (inl e, s).

(** [try { body } finally { cleanup }]: [cleanup] runs however [body]
    ended; when it throws itself, that is what propagates. *)
Definition try_finally {S A : Type} (body : M S A) (cleanup : M S unit)
  : M S A :=
  fun s =>
    let '(outcome, s1) := body s in
    match cleanup s1 with
    | (inl error, s2) => (inl error, s2)
    | (inr _, s2) => (outcome, s2)
    end.

(** [err instanceof Error ? err.message : fallback] *)
Definition message_or (fallback : string) (err : Thrown) : string :=
  match err with
  | ErrorObject message => message
  | ThrownValue _ => fallback
  end.

Module Addresses.

Record Address : Type := {
  id : string;
  address_line_1 : string;
  city : string;
  state : string;
  postal_code : string;
  country : string;
  barangay : option string;
  shipping_region : option string;
  is_default : bool;
  created_at : option string;
  updated_at : option string
}.

(** [Omit<Address, 'id' | 'created_at' | 'updated_at'>] *)
Record AddressData : Type := {
  new_address_line_1 : string;
  new_city : string;
  new_state : string;
  new_postal_code : string;
  new_country : string;
  new_barangay : option string;
  new_shipping_region : option string;
  new_is_default : bool
}.

(** [Partial<Address>] *)
Record AddressPatch : Type := {
  set_id : option string;
  set_address_line_1 : option string;
  set_city : option string;
  set_state : option string;
  set_postal_code : option string;
  set_country : option string;
  set_barangay : option string;
  set_shipping_region : option string;
  set_is_default : option bool;
  set_created_at : option string;
  set_updated_at : option string
}.

(** [addresses.find(addr => addr.is_default) || addresses[0] || null] *)
Definition getDefaultAddress (addresses : list Address) : option Address :=
  match find is_default addresses with
  | Some addr => Some addr
  | None =>
      match addresses with
      | first :: _ => Some first
      | [] => None
      end
  end.

(** [addresses.length > 0] *)
Definition hasAddresses (addresses : list Address) : bool :=
  (0 <? List.length addresses)%nat.

(** What the three [useState] cells hold. *)
Record HookState : Type := {
  addresses : list Address;
  loading : bool;
  error : option string
}.

Record Toast : Type := {
  title : string;
  description : string;
  variant : string
}.

(** The requests the hook sends to [/api/addresses], each with the
    bearer token it carries. *)
Inductive Request : Type :=
| GetAddresses (token : string)
| PostAddress (token : string) (addressData : AddressData)
| PutAddress (token : string) (id : string) (addressData : AddressPatch)
| DeleteAddress (token : string) (id : string).

(** What [response.json()] yields after a success, by request: the list
    (or a falsy value), the address written, or nothing the hook reads. *)
Definition OkBody (req : Request) : Type :=
  match req with
  | GetAddresses _ => option (list Address)
  | PostAddress _ _ => Address
  | PutAddress _ _ _ => Address
  | DeleteAddress _ _ => unit
  end.

(** The body of a failed request: [errorData.error] may be missing. *)
Record ErrorBody : Type := { error_text : option string }.

(** A response: [ok] or not, with what [json()] would yield or throw. *)
Inductive Response (req : Request) : Type :=
| Ok (json : Thrown + OkBody req)
| NotOk (json : Thrown + ErrorBody).

Arguments Ok {req} json.
Arguments NotOk {req} json.

(** The browser around the hook ([W]), the state cells and the toasts
    shown so far. *)
Record Hook (W : Type) : Type := {
  browser : W;
  cells : HookState;
  toasts : list Toast
}.

Arguments browser {W} h.
Arguments cells {W} h.
Arguments toasts {W} h.

(** [x || fallback] on a string that may be missing. *)
Definition or_default (x : option string) (fallback : string) : string :=
  match x with
  | Some s => if (s =? "")%string then fallback else s
  | None => fallback
  end.

(** [`${token}`] *)
Definition interpolate (token : option string) : string :=
  match token with
  | Some s => s
  | None => "null"
  end.

(** [!token] *)
Definition no_token (token : option string) : bool :=
  match token with
  | Some s => (s =? "")%string
  | None => true
  end.

Section UseAddresses.

Context {W : Type}.

(** [useAuth()] as the callbacks closed over it. *)
Variable user : bool.
Variable tokenReady : bool.
(** [localStorage.getItem('auth_token')] *)
Variable getItem : M W (option string).
Variable fetch : forall req : Request, M W (Response req).

Local Open Scope js_scope.

Definition in_browser {A : Type} (m : M W A) : M (Hook W) A :=
  fun h =>
    let '(outcome, w) := m (browser h) in
    (outcome, {| browser := w; cells := cells h; toasts := toasts h |}).

Definition setAddresses (value : list Address) : M (Hook W) unit :=
  fun h =>
    (inr tt,
     {| browser := browser h;
        cells := {| addresses := value;
                    loading := loading (cells h);
                    error := error (cells h) |};
        toasts := toasts h |}).

Definition setLoading (value : bool) : M (Hook W) unit :=
  fun h =>
    (inr tt,
     {| browser := browser h;
        cells := {| addresses := addresses (cells h);
                    loading := value;
                    error := error (cells h) |};
        toasts := toasts h |}).

Definition setError (value : option string) : M (Hook W) unit :=
  fun h =>
    (inr tt,
     {| browser := browser h;
        cells := {| addresses := addresses (cells h);
                    loading := loading (cells h);
                    error := value |};
        toasts := toasts h |}).

Definition toast (t : Toast) : M (Hook W) unit :=
  fun h =>
    (inr tt,
     {| browser := browser h; cells := cells h; toasts := toasts h ++ [t] |}).

(** [await promise] of an outcome already settled. *)
Definition settled {A : Type} (outcome : Thrown + A) : M (Hook W) A :=
  fun h => (outcome, h).

Definition error_toast (errorMessage : string) : Toast :=
  {| title := "Error"; description := errorMessage; variant := "destructive" |}.

Definition success_toast (text : string) : Toast :=
  {| title := "Success"; description := text; variant := "default" |}.

Definition fetchAddresses : M (Hook W) unit :=
  if negb user || negb tokenReady then
    setAddresses []
  else
    setLoading true ;;;
    setError None ;;;
    try_finally
      (try_catch
         (token <- in_browser getItem ;;
          if no_token token then
            setAddresses [] ;;;
            setLoading false
          else
            response <- in_browser (fetch (GetAddresses (interpolate token))) ;;
            match response with
            | NotOk _ => throw (ErrorObject "Failed to load addresses")
            | Ok json =>
                data <- settled json ;;
                setAddresses (match data with Some list => list | None => [] end)
            end)
         (fun err =>
            let errorMessage := message_or "Failed to load addresses" err in
            setError (Some errorMessage) ;;;
            toast (error_toast errorMessage)))
      (setLoading false).

Definition createAddress (addressData : AddressData) : M (Hook W) Address :=
  if negb user || negb tokenReady then
    throw (ErrorObject "User not authenticated")
  else
    setLoading true ;;;
    setError None ;;;
    try_finally
      (try_catch
         (token <- in_browser getItem ;;
          if no_token token then
            throw (ErrorObject "Authentication token not found")
          else
            response <- in_browser
                          (fetch (PostAddress (interpolate token) addressData)) ;;
            match response with
            | NotOk json =>
                errorData <- settled json ;;
                throw (ErrorObject (or_default (error_text errorData)
                                               "Failed to create address"))
            | Ok json =>
                newAddress <- settled json ;;
                fetchAddresses ;;;
                toast (success_toast "Address created successfully") ;;;
                ret newAddress
            end)
         (fun err =>
            let errorMessage := message_or "Failed to create address" err in
            setError (Some errorMessage) ;;;
            toast (error_toast errorMessage) ;;;
            throw err))
      (setLoading false).

Definition updateAddress (id : string) (addressData : AddressPatch)
  : M (Hook W) Address :=
  if negb user || negb tokenReady then
    throw (ErrorObject "User not authenticated")
  else
    setLoading true ;;;
    setError None ;;;
    try_finally
      (try_catch
         (token <- in_browser getItem ;;
          if no_token token then
            throw (ErrorObject "Authentication token not found")
          else
            response <- in_browser
                          (fetch (PutAddress (interpolate token) id addressData)) ;;
            match response with
            | NotOk json =>
                errorData <- settled json ;;
                throw (ErrorObject (or_default (error_text errorData)
                                               "Failed to update address"))
            | Ok json =>
                updatedAddress <- settled json ;;
                fetchAddresses ;;;
                toast (success_toast "Address updated successfully") ;;;
                ret updatedAddress
            end)
         (fun err =>
            let errorMessage := message_or "Failed to update address" err in
            setError (Some errorMessage) ;;;
            toast (error_toast errorMessage) ;;;
            throw err))
      (setLoading false).

Definition deleteAddress (id : string) : M (Hook W) unit :=
  if negb user || negb tokenReady then
    throw (ErrorObject "User not authenticated")
  else
    setLoading true ;;;
    setError None ;;;
    try_finally
      (try_catch
         (token <- in_browser getItem ;;
          if no_token token then
            throw (ErrorObject "Authentication token not found")
          else
            response <- in_browser
                          (fetch (DeleteAddress (interpolate token) id)) ;;
            match response with
            | NotOk json =>
                errorData <- settled json ;;
                throw (ErrorObject (or_default (error_text errorData)
                                               "Failed to delete address"))
            | Ok _ =>
                fetchAddresses ;;;
                toast (success_toast "Address deleted successfully")
            end)
         (fun err =>
            let errorMessage := message_or "Failed to delete address" err in
            setError (Some errorMessage) ;;;
            toast (error_toast errorMessage) ;;;
            throw err))
      (setLoading false).

End UseAddresses.

(** How a load that went wrong leaves the hook: the cells keep their
    addresses, [error] holds the message and one more toast shows it. *)
Definition load_failed {W : Type} (h : Hook W) (w : W) (err : Thrown) : Hook W :=
  {| browser := w;
     cells := {| addresses := addresses (cells h);
                 loading := false;
                 error := Some (message_or "Failed to load addresses" err) |};
     toasts := toasts h
                 ++ [error_toast (message_or "Failed to load addresses" err)] |}.

(** How a load that went through leaves it. *)
Definition loaded {W : Type} (h : Hook W) (w : W) (list : list Address) : Hook W :=
  {| browser := w;
     cells := {| addresses := list; loading := false; error := None |};
     toasts := toasts h |}.

(** How a change that went wrong leaves it. *)
Definition change_failed {W : Type} (fallback : string) (h : Hook W) (w : W)
           (err : Thrown) : Hook W :=
  {| browser := w;
     cells := {| addresses := addresses (cells h);
                 loading := false;
                 error := Some (message_or fallback err) |};
     toasts := toasts h ++ [error_toast (message_or fallback err)] |}.

(** The hook as a change finds it once the request has gone through:
    loading, no error, the browser as the request left it. *)
Definition in_flight {W : Type} (h : Hook W) (w : W) : Hook W :=
  {| browser := w;
     cells := {| addresses := addresses (cells h);
                 loading := true;
                 error := None |};
     toasts := toasts h |}.

(** How a change that went through leaves it, [h'] being the hook after
    the list was loaded again. *)
Definition changed {W : Type} (text : string) (h' : Hook W) : Hook W :=
  {| browser := browser h';
     cells := {| addresses := addresses (cells h');
                 loading := false;
                 error := error (cells h') |};
     toasts := toasts h' ++ [success_toast text] |}.

(** How a change can end, [h] being the hook before it.  If it throws,
    the hook is [change_failed] with the thrown value.  If it returns,
    [loading] is false and the success toast is the last one shown,
    after nothing (and then [error] is null) or after the one error
    toast of a reload that failed (and then [error] holds its message
    and the list is as it was). *)
Definition change_settled {W A : Type} (fallback text : string) (h : Hook W)
           (run : (Thrown + A) * Hook W) : Prop :=
  match fst run with
  | inl err => snd run = change_failed fallback h (browser (snd run)) err
  | inr _ =>
      loading (cells (snd run)) = false
      /\ ((error (cells (snd run)) = None
           /\ toasts (snd run) = toasts h ++ [success_toast text])
          \/ (exists msg : string,
                 error (cells (snd run)) = Some msg
                 /\ toasts (snd run)
                    = toasts h ++ [error_toast msg; success_toast text]
                 /\ addresses (cells (snd run)) = addresses (cells h)))
  end.

End Addresses.

(** ** The schema import script *)

(** [scripts/import-aiven-schema.js]: the configuration read from the
    environment (as it is once [.env.local] has been loaded), the cutting
    of the schema text into statements, and the run itself against the
    file system and the driver.  Console output is not modelled. *)

Module ImportScript.

(** *** Configuration *)

(** [a || b] on environment values: a missing or empty one gives way. *)
Definition or_env (a : option string) (b : string) : string :=
  match a with
  | Some s => if (s =? "")%string then b else s
  | None => b
  end.

(** [x === 'true'] *)
Definition is_true (x : option string) : bool :=
  match x with
  | Some s => (s =? "true")%string
  | None => false
  end.

Record Config (Port : Type) : Type := {
  host : string;
  port : Port;
  user : string;
  password : string;
  database : string;
  sslEnabled : bool
}.

Arguments host {Port} c.
Arguments port {Port} c.
Arguments user {Port} c.
Arguments password {Port} c.
Arguments database {Port} c.
Arguments sslEnabled {Port} c.

(** The argument [parseInt] is given for the port. *)
Definition port_text (env : string -> option string) : string :=
  or_env (env "MYSQL_PORT") (or_env (env "DB_PORT") "3306").

(** [cfg], from [process.env]; [parseInt] is the built-in, whatever
    number type it returns. *)
Definition cfg {Port : Type} (parseInt : string -> Port)
           (env : string -> option string) : Config Port :=
  {| host := or_env (env "MYSQL_HOST") (or_env (env "DB_HOST") "localhost");
     port := parseInt (port_text env);
     user := or_env (env "MYSQL_USER") (or_env (env "DB_USER") "root");
     password := or_env (env "MYSQL_PASSWORD") (or_env (env "DB_PASSWORD") "");
     database := or_env (env "MYSQL_DATABASE") (or_env (env "DB_NAME") "gkicks");
     sslEnabled := is_true (env "MYSQL_SSL") || is_true (env "DB_SSL") |}.

(** [value] is what [primary || secondary || fallback] resolves to: the
    primary variable when set and not empty, else the secondary one when
    set and not empty, else the fallback. *)
Definition resolved (primary secondary : option string) (fallback value : string)
  : Prop :=
  (forall v, primary = Some v -> v <> "" -> value = v)
  /\ (primary = None \/ primary = Some "" ->
      forall v, secondary = Some v -> v <> "" -> value = v)
  /\ (primary = None \/ primary = Some "" ->
      secondary = None \/ secondary = Some "" ->
      value = fallback).

(** *** Cutting the schema text into statements *)

(** A string of the script is its UTF-16 code units. *)
Definition Text : Type := list N.

Definition SEMICOLON : N := 59.
Definition HYPHEN : N := 45.
Definition CR : N := 13.
Definition LF : N := 10.

(** ECMAScript's LineTerminator: LF, CR, LS, PS. *)
Definition is_line_terminator (c : N) : bool :=
  ((c =? 10) || (c =? 13) || (c =? 0x2028) || (c =? 0x2029))%N.

(** ECMAScript's WhiteSpace: TAB, VT, FF, SP, NBSP, ZWNBSP and the
    space separators. *)
Definition is_white_space (c : N) : bool :=
  ((c =? 9) || (c =? 11) || (c =? 12) || (c =? 32) || (c =? 160)
   || (c =? 0xFEFF) || (c =? 0x1680)
   || ((0x2000 <=? c) && (c <=? 0x200A))
   || (c =? 0x202F) || (c =? 0x205F) || (c =? 0x3000))%N.

(** What [trim] removes. *)
Definition is_blank (c : N) : bool :=
  is_white_space c || is_line_terminator c.

(** [raw.replace(/\r\n/g, '\n')] *)
Fixpoint replace_crlf (s : Text) : Text :=
  match s with
  | [] => []
  | c :: rest =>
      match rest with
      | c' :: rest' =>
          if ((c =? 13) && (c' =? 10))%N then 10%N :: replace_crlf rest'
          else c :: replace_crlf rest
      | [] => [c]
      end
  end.

(** [.split(';')] *)
Fixpoint split (s : Text) : list Text :=
  match s with
  | [] => [[]]
  | c :: rest =>
      if (c =? 59)%N then [] :: split rest
      else
        match split rest with
        | piece :: pieces => (c :: piece) :: pieces
        | [] => [[c]]
        end
  end.

(** [s.replace(/--.*$/gm, '')]: from each [--] to the end of its line.
    [in_comment] is whether the scan is inside a match. *)
Fixpoint strip_line_comments (in_comment : bool) (s : Text) : Text :=
  match s with
  | [] => []
  | c :: rest =>
      if in_comment then
        if is_line_terminator c then c :: strip_line_comments false rest
        else strip_line_comments true rest
      else
        match rest with
        | c' :: rest' =>
            if ((c =? 45) && (c' =? 45))%N then strip_line_comments true rest'
            else c :: strip_line_comments false rest
        | [] => [c]
        end
  end.

Fixpoint trim_start (s : Text) : Text :=
  match s with
  | [] => []
  | c :: rest => if is_blank c then trim_start rest else s
  end.

(** [.trim()] *)
Definition trim (s : Text) : Text :=
  rev (trim_start (rev (trim_start s))).

(** [Boolean(s)] on a string *)
Definition non_empty (s : Text) : bool :=
  match s with
  | [] => false
  | _ :: _ => true
  end.

(** [statements], from [raw]. *)
Definition statements (raw : Text) : list Text :=
  filter non_empty
         (map (fun s => trim (strip_line_comments false s))
              (split (replace_crlf raw))).

(** [s] holds two hyphens in a row. *)
Fixpoint has_double_hyphen (s : Text) : bool :=
  match s with
  | [] => false
  | c :: rest =>
      match rest with
      | c' :: _ => ((c =? 45) && (c' =? 45))%N || has_double_hyphen rest
      | [] => false
      end
  end.

(** An ASCII text as code units. *)
Definition text (s : string) : Text :=
  map N_of_ascii (list_ascii_of_string s).

(** *** Running the import *)

Record SslOptions : Type := { rejectUnauthorized : bool }.

(** The options [mysql.createConnection] is given. *)
Record ConnectionOptions (Port : Type) : Type := {
  to_host : string;
  to_port : Port;
  as_user : string;
  with_password : string;
  to_database : string;
  ssl : option SslOptions;
  multipleStatements : bool
}.

Arguments to_host {Port} _.
Arguments to_port {Port} _.
Arguments as_user {Port} _.
Arguments with_password {Port} _.
Arguments to_database {Port} _.
Arguments ssl {Port} _.
Arguments multipleStatements {Port} _.

Definition connection_options {Port : Type} (c : Config Port)
  : ConnectionOptions Port :=
  {| to_host := host c;
     to_port := port c;
     as_user := user c;
     with_password := password c;
     to_database := database c;
     ssl := if sslEnabled c then Some {| rejectUnauthorized := false |} else None;
     multipleStatements := true |}.

(** What the script asks of the file system and of the driver. *)
Inductive Op (Port : Type) : Type :=
| SchemaFileExists
| CreateConnection (options : ConnectionOptions Port)
| ReadSchemaFile
| ConnectionQuery (stmt : Text)
| ConnectionEnd.

Arguments SchemaFileExists {Port}.
Arguments CreateConnection {Port} options.
Arguments ReadSchemaFile {Port}.
Arguments ConnectionQuery {Port} stmt.
Arguments ConnectionEnd {Port}.

Definition Result {Port : Type} (op : Op Port) : Type :=
  match op with
  | SchemaFileExists => bool
  | ReadSchemaFile => Text
  | CreateConnection _ => unit
  | ConnectionQuery _ => unit
  | ConnectionEnd => unit
  end.

(** The file system and the driver, seen from the script. *)
Definition Io (Port W : Type) : Type := forall op : Op Port, M W (Result op).

Inductive IoEvent (Port : Type) : Type :=
| Did (op : Op Port) (outcome : Thrown + Result op).

Arguments Did {Port} op outcome.

(** The same with every call written to a journal. *)
Definition recorded_io {Port W : Type} (io : Io Port W)
  : Io Port (W * list (IoEvent Port)) :=
  fun op s =>
    let '(w, journal) := s in
    let '(outcome, w') := io op w in
    (outcome, (w', journal ++ [Did op outcome])).

(** [connection] and [process.exitCode]. *)
Record ScriptLocals : Type := {
  connection : bool;
  exitCode : option Z
}.

Section Main.

Context {Port W : Type}.
Variable c : Config Port.
Variable io : Io Port W.

Local Open Scope js_scope.

(** The body of the loop: the [catch] logs and throws again. *)
Definition run_statement (stmt : Text) : M (W * ScriptLocals) unit :=
  try_catch
    (_ <- lift (io (ConnectionQuery stmt)) ;; ret tt)
    (fun err => throw err).

Definition import_schema : M (W * ScriptLocals) unit :=
  try_finally
    (try_catch
       (_ <- lift (io (CreateConnection (connection_options c))) ;;
        modify (fun l => {| connection := true; exitCode := exitCode l |}) ;;;
        raw <- lift (io ReadSchemaFile) ;;
        for_of (statements raw) run_statement)
       (fun err =>
          modify (fun l => {| connection := connection l; exitCode := Some 1 |})))
    (fun s =>
       if connection (snd s)
       then (_ <- lift (io ConnectionEnd) ;; ret tt) s
       else ret tt s).

(** The script's body; its value is the exit code of the process:
    [process.exit(1)] when the file is missing, else [process.exitCode],
    0 when never set. *)
Definition main : M W Z :=
  found <- io SchemaFileExists ;;
  if found : bool then
    done <- with_locals {| connection := false; exitCode := None |}
                        import_schema ;;
    ret (match exitCode (snd done) with Some code => code | None => 0 end)
  else
    ret 1.

End Main.

(** The statements of a journal's queries, with how each came out. *)
Definition query_of {Port : Type} (ev : IoEvent Port)
  : list (Text * (Thrown + unit)) :=
  match ev with
  | Did op outcome =>
      match op return Thrown + Result op -> list (Text * (Thrown + unit)) with
      | ConnectionQuery stmt => fun outcome => [(stmt, outcome)]
      | _ => fun _ => []
      end outcome
  end.

Definition queries {Port : Type} (journal : list (IoEvent Port))
  : list (Text * (Thrown + unit)) :=
  flat_map query_of journal.

(** The schema text a journal's read returned. *)
Definition text_read {Port : Type} (ev : IoEvent Port) : list Text :=
  match ev with
  | Did op outcome =>
      match op return Thrown + Result op -> list Text with
      | ReadSchemaFile => fun outcome =>
                            match outcome with inr raw => [raw] | inl _ => [] end
      | _ => fun _ => []
      end outcome
  end.

Definition schema_text {Port : Type} (journal : list (IoEvent Port))
  : option Text :=
  hd_error (flat_map text_read journal).

Definition succeeded {Port : Type} (ev : IoEvent Port) : bool :=
  match ev with
  | Did _ (inr _) => true
  | Did _ (inl _) => false
  end.

Definition is_connect {Port : Type} (ev : IoEvent Port) : bool :=
  match ev with
  | Did (CreateConnection _) _ => true
  | _ => false
  end.

Definition is_end {Port : Type} (ev : IoEvent Port) : bool :=
  match ev with
  | Did ConnectionEnd _ => true
  | _ => false
  end.

(** A connection was opened. *)
Definition connected {Port : Type} (journal : list (IoEvent Port)) : bool :=
  existsb (fun ev => is_connect ev && succeeded ev) journal.

Definition sent {Port : Type} (stmt : Text) : IoEvent Port :=
  Did (ConnectionQuery stmt) (inr tt).

(** How the script ends once the connection is closed, [r] being how
    closing went. *)
Definition after_end (r : Thrown + unit) (code : Z) : Thrown + Z :=
  match r with
  | inl err => inl err
  | inr _ => inr code
  end.

(** The journals a run of the script can leave, with how it ends. *)
Inductive import_run {Port : Type} (c : Config Port)
  : list (IoEvent Port) -> Thrown + Z -> Prop :=
| run_check_threw (err : Thrown) :
    import_run c [Did SchemaFileExists (inl err)] (inl err)
| run_file_missing :
    import_run c [Did SchemaFileExists (inr false)] (inr 1)
| run_connect_failed (err : Thrown) :
    import_run c [Did SchemaFileExists (inr true);
                  Did (CreateConnection (connection_options c)) (inl err)]
               (inr 1)
| run_read_failed (err : Thrown) (r : Thrown + unit) :
    import_run c [Did SchemaFileExists (inr true);
                  Did (CreateConnection (connection_options c)) (inr tt);
                  Did ReadSchemaFile (inl err);
                  Did ConnectionEnd r]
               (after_end r 1)
| run_imported (raw : Text) (r : Thrown + unit) :
    import_run c ([Did SchemaFileExists (inr true);
                   Did (CreateConnection (connection_options c)) (inr tt);
                   Did ReadSchemaFile (inr raw)]
                    ++ map sent (statements raw)
                    ++ [Did ConnectionEnd r])
               (after_end r 0)
| run_stopped (raw : Text) (done : list Text) (stmt : Text) (rest : list Text)
              (err : Thrown) (r : Thrown + unit) :
    statements raw = done ++ stmt :: rest ->
    import_run c ([Did SchemaFileExists (inr true);
                   Did (CreateConnection (connection_options c)) (inr tt);
                   Did ReadSchemaFile (inr raw)]
                    ++ map sent done
                    ++ [Did (ConnectionQuery stmt) (inl err);
                        Did ConnectionEnd r])
               (after_end r 1).

End ImportScript.

(** ** More scenarios *)

Module Cases.

(** Two shipped rows under one id, both two weeks in transit. *)
Definition twins : MySQL.Database :=
  {| MySQL.online := true;
     MySQL.now := 100 * Scenario.day;
     MySQL.orders := [Scenario.order 8 "ORD-0008" "shipped"
                                     (Some (86 * Scenario.day));
                      Scenario.order 8 "ORD-0008-B" "shipped"
                                     (Some (86 * Scenario.day))];
     MySQL.auto_delivery_logs := Some [] |}.

Definition address (i street : string) (flagged : bool) : Addresses.Address :=
  {| Addresses.id := i;
     Addresses.address_line_1 := street;
     Addresses.city := "Quezon City";
     Addresses.state := "Metro Manila";
     Addresses.postal_code := "1100";
     Addresses.country := "Philippines";
     Addresses.barangay := None;
     Addresses.shipping_region := None;
     Addresses.is_default := flagged;
     Addresses.created_at := None;
     Addresses.updated_at := None |}.

Definition office : Addresses.Address := address "a1" "1 Office Road" false.
Definition home : Addresses.Address := address "a2" "2 Home Street" true.

Definition new_home : Addresses.AddressData :=
  {| Addresses.new_address_line_1 := "2 Home Street";
     Addresses.new_city := "Quezon City";
     Addresses.new_state := "Metro Manila";
     Addresses.new_postal_code := "1100";
     Addresses.new_country := "Philippines";
     Addresses.new_barangay := None;
     Addresses.new_shipping_region := None;
     Addresses.new_is_default := true |}.

Definition nothing_changed : Addresses.AddressPatch :=
  {| Addresses.set_id := None;
     Addresses.set_address_line_1 := None;
     Addresses.set_city := None;
     Addresses.set_state := None;
     Addresses.set_postal_code := None;
     Addresses.set_country := None;
     Addresses.set_barangay := None;
     Addresses.set_shipping_region := None;
     Addresses.set_is_default := None;
     Addresses.set_created_at := None;
     Addresses.set_updated_at := None |}.

(** The browser is the number of requests sent so far. *)
Definition signed_in : M nat (option string) :=
  fun n => (inr (Some "t0k3n"), n).

Definition signed_out : M nat (option string) :=
  fun n => (inr None, n).

(** A server that accepts everything. *)
Definition accepting : forall req : Addresses.Request, M nat (Addresses.Response req) :=
  fun req n =>
    (inr match req as r return Addresses.Response r with
         | Addresses.GetAddresses t =>
             @Addresses.Ok (Addresses.GetAddresses t) (inr (Some [office; home]))
         | Addresses.PostAddress t d =>
             @Addresses.Ok (Addresses.PostAddress t d) (inr home)
         | Addresses.PutAddress t i d =>
             @Addresses.Ok (Addresses.PutAddress t i d) (inr home)
         | Addresses.DeleteAddress t i =>
             @Addresses.Ok (Addresses.DeleteAddress t i) (inr tt)
         end, S n).

(** A server that turns everything down, with a reason. *)
Definition rejecting : forall req : Addresses.Request, M nat (Addresses.Response req) :=
  fun req n =>
    (inr (Addresses.NotOk
            (inr {| Addresses.error_text := Some "Postal code is required" |})),
     S n).

(** A server that accepts changes and turns the list down. *)
Definition list_down : forall req : Addresses.Request, M nat (Addresses.Response req) :=
  fun req n =>
    (inr match req as r return Addresses.Response r with
         | Addresses.GetAddresses t =>
             Addresses.NotOk (inr {| Addresses.error_text := None |})
         | Addresses.PostAddress t d =>
             @Addresses.Ok (Addresses.PostAddress t d) (inr home)
         | Addresses.PutAddress t i d =>
             @Addresses.Ok (Addresses.PutAddress t i d) (inr home)
         | Addresses.DeleteAddress t i =>
             @Addresses.Ok (Addresses.DeleteAddress t i) (inr tt)
         end, S n).

(** A hook showing the office only. *)
Definition showing_office : Addresses.Hook nat :=
  {| Addresses.browser := 0%nat;
     Addresses.cells := {| Addresses.addresses := [office];
                           Addresses.loading := false;
                           Addresses.error := None |};
     Addresses.toasts := [] |}.

Fixpoint text_eqb (a b : ImportScript.Text) : bool :=
  match a, b with
  | [], [] => true
  | x :: a', y :: b' => (x =? y)%N && text_eqb a' b'
  | _, _ => false
  end.

Definition schema : ImportScript.Text :=
  ImportScript.text "CREATE TABLE a (x INT); -- first
INSERT INTO a VALUES (1);
BAD;
DROP TABLE b".

(** A disk that has the schema or not, a server that accepts every
    statement but [bad], and a connection that closes cleanly or not. *)
Definition disk (found : bool) (bad : ImportScript.Text) (closes : bool)
  : ImportScript.Io Z unit :=
  fun op w =>
    (match op as o return Thrown + ImportScript.Result o with
     | ImportScript.SchemaFileExists => inr found
     | ImportScript.CreateConnection _ => inr tt
     | ImportScript.ReadSchemaFile => inr schema
     | ImportScript.ConnectionQuery stmt =>
         if text_eqb stmt bad
         then inl (ErrorObject "You have an error in your SQL syntax")
         else inr tt
     | ImportScript.ConnectionEnd =>
         if closes then inr tt else inl (ErrorObject "read ECONNRESET")
     end, w).


Definition local_config : ImportScript.Config Z :=
  ImportScript.cfg (fun _ => 3306) (fun _ => None).

End Cases.

(** ** How the service runs against any collaborator *)

Section ServiceFacts.

Context {World : Type}.
Variable executeQuery : Collaborator World.

Lemma logAutoDelivery_run (orderId : Z) (orderNumber : string)
      (customerEmail : option string) (w : World) :
  logAutoDelivery executeQuery orderId orderNumber customerEmail w
  = (inr tt,
     snd (executeQuery
            (InsertAutoDeliveryLog orderId orderNumber customerEmail) w)).
Proof.
  unfold logAutoDelivery, try_catch, bind, ret.
  destruct (executeQuery _ w) as [[error | result] w']; reflexivity.
Qed.

(** One iteration, outcome by outcome of its update. *)
Lemma process_order_run (order : OrderRow) (w : World) (l : Locals) :
  process_order executeQuery order (w, l)
  = match executeQuery (UpdateDelivered (id order)) w with
    | (inl error, w1) => (inr tt, (w1, push_errors (errorMsg order error) l))
    | (inr result, w1) =>
        if affectedRows result =? 1 then
          (inr tt,
           (snd (executeQuery
                   (InsertAutoDeliveryLog (id order) (order_number order)
                                          (customer_email order)) w1),
            push_processedOrders (order_number order) l))
        else (inr tt, (w1, l))
    end.
Proof.
  unfold process_order, try_catch, bind, lift, modify, ret.
  destruct (executeQuery (UpdateDelivered (id order)) w) as [[error | result] w1];
    [reflexivity |].
  destruct (affectedRows result =? 1); [| reflexivity].
  rewrite logAutoDelivery_run. reflexivity.
Qed.

Lemma process_order_returns (order : OrderRow) (s : World * Locals) :
  exists s', process_order executeQuery order s = (inr tt, s').
Proof.
  destruct s as [w l]. rewrite process_order_run.
  destruct (executeQuery (UpdateDelivered (id order)) w) as [[error | result] w1].
  - eexists; reflexivity.
  - destruct (affectedRows result =? 1); eexists; reflexivity.
Qed.

Lemma for_of_process_order_returns (orders : list OrderRow) :
  forall s, exists s',
    for_of orders (process_order executeQuery) s = (inr tt, s').
Proof.
  induction orders as [| order rest IH]; intros s; simpl.
  - eexists; reflexivity.
  - unfold bind.
    destruct (process_order_returns order s) as [s1 ->].
    apply IH.
Qed.

(** Any relation between worlds that every single call respects, and
    that is reflexive and transitive, relates the world before a sweep
    to the world after it. *)
Section Frame.

Variable R : World -> World -> Prop.
Hypothesis R_refl : forall w, R w w.
Hypothesis R_trans : forall a b c, R a b -> R b c -> R a c.
Hypothesis R_call : forall q w, R w (snd (executeQuery q w)).

Lemma process_order_frame (order : OrderRow) (w : World) (l : Locals) :
  R w (fst (snd (process_order executeQuery order (w, l)))).
Proof.
  rewrite process_order_run.
  pose proof (R_call (UpdateDelivered (id order)) w) as H1.
  destruct (executeQuery (UpdateDelivered (id order)) w) as [[error | result] w1];
    simpl in *; [assumption |].
  destruct (affectedRows result =? 1); simpl; [| assumption].
  eapply R_trans; [exact H1 |].
  exact (R_call (InsertAutoDeliveryLog (id order) (order_number order)
                                       (customer_email order)) w1).
Qed.

Lemma for_of_frame (orders : list OrderRow) :
  forall w l,
    R w (fst (snd (for_of orders (process_order executeQuery) (w, l)))).
Proof.
  induction orders as [| order rest IH]; intros w l; simpl.
  - apply R_refl.
  - unfold bind.
    pose proof (process_order_frame order w l) as H1.
    destruct (process_order_returns order (w, l)) as [[w1 l1] E].
    rewrite E in *. simpl in H1.
    eapply R_trans; [exact H1 | apply IH].
Qed.

Lemma checkAndMarkDeliveredOrders_frame (w : World) :
  R w (snd (checkAndMarkDeliveredOrders executeQuery w)).
Proof.
  unfold checkAndMarkDeliveredOrders, try_catch, bind, with_locals, ret.
  pose proof (R_call SelectEligibleOrders w) as H1.
  destruct (executeQuery SelectEligibleOrders w) as [[error | orders] w1];
    simpl in *; [assumption |].
  destruct orders as [[| order rest] |]; simpl; try assumption.
  pose proof (for_of_frame (order :: rest) w1
                {| l_processedOrders := []; l_errors := [] |}) as H2.
  destruct (for_of_process_order_returns (order :: rest)
              (w1, {| l_processedOrders := []; l_errors := [] |}))
    as [[w2 l2] E].
  simpl in E, H2. rewrite E in *. simpl in *.
  eapply R_trans; eassumption.
Qed.

End Frame.

End ServiceFacts.

(** ** The journal of a sweep *)

Section Journal.

Context {World : Type}.
Variable executeQuery : Collaborator World.

Lemma recorded_call (q : Query) (w : World) (journal : list Event) :
  recorded executeQuery q (w, journal)
  = (fst (executeQuery q w),
     (snd (executeQuery q w),
      journal ++ [Called q (fst (executeQuery q w))])).
Proof.
  unfold recorded. destruct (executeQuery q w); reflexivity.
Qed.

(** The loop, seen through the journal; the run without a journal goes
    through the same worlds and ends with the same arrays. *)
Lemma for_of_journal (orders : list OrderRow) :
  forall (w : World) (journal : list Event) (l : Locals),
  exists (steps : list Step) (w' : World),
    List.length steps = List.length orders
    /\ Forall step_consistent steps
    /\ for_of orders (process_order (recorded executeQuery)) ((w, journal), l)
       = (inr tt,
          ((w', journal ++ batch_events orders steps),
           {| l_processedOrders :=
                l_processedOrders l ++ batch_processed orders steps;
              l_errors := l_errors l ++ batch_errors orders steps |}))
    /\ for_of orders (process_order executeQuery) (w, l)
       = (inr tt,
          (w',
           {| l_processedOrders :=
                l_processedOrders l ++ batch_processed orders steps;
              l_errors := l_errors l ++ batch_errors orders steps |})).
Proof.
  induction orders as [| order rest IH]; intros w journal l.
  - exists [], w. simpl. unfold ret.
    rewrite !app_nil_r. destruct l; auto.
  - simpl for_of. unfold bind.
    rewrite !process_order_run, !recorded_call.
    destruct (executeQuery (UpdateDelivered (id order)) w)
      as [[error | result] w1] eqn:Eupdate; simpl fst; simpl snd;
      cbn [Reply] in *.
    + destruct (IH w1 (journal ++ [Called (UpdateDelivered (id order)) (inl error)])
                  (push_errors (errorMsg order error) l))
        as (steps & w' & Hlen & Hok & Hrec & Hplain).
      exists (Failed error :: steps), w'.
      split; [simpl; congruence |].
      split; [constructor; simpl; auto |].
      split; [etransitivity; [exact Hrec |] | etransitivity; [exact Hplain |]];
        unfold batch_events, batch_processed, batch_errors; simpl;
        rewrite <- ?app_assoc; reflexivity.
    + destruct (affectedRows result =? 1) eqn:Eone.
      * rewrite ?recorded_call. simpl fst; simpl snd.
        set (insertion := InsertAutoDeliveryLog (id order) (order_number order)
                                                (customer_email order)).
        destruct (IH (snd (executeQuery insertion w1))
                    ((journal ++ [Called (UpdateDelivered (id order)) (inr result)])
                       ++ [Called insertion (fst (executeQuery insertion w1))])
                    (push_processedOrders (order_number order) l))
          as (steps & w' & Hlen & Hok & Hrec & Hplain).
        exists (Delivered result (fst (executeQuery insertion w1)) :: steps), w'.
        split; [simpl; congruence |].
        split; [constructor; simpl; auto; apply Z.eqb_eq; assumption |].
        split; [etransitivity; [exact Hrec |] | etransitivity; [exact Hplain |]];
          unfold batch_events, batch_processed, batch_errors; simpl;
          rewrite <- ?app_assoc; reflexivity.
      * destruct (IH w1 (journal ++ [Called (UpdateDelivered (id order)) (inr result)]) l)
          as (steps & w' & Hlen & Hok & Hrec & Hplain).
        exists (Skipped result :: steps), w'.
        split; [simpl; congruence |].
        split; [constructor; simpl; auto; apply Z.eqb_neq; assumption |].
        split; [etransitivity; [exact Hrec |] | etransitivity; [exact Hplain |]];
          unfold batch_events, batch_processed, batch_errors; simpl;
          rewrite <- ?app_assoc; reflexivity.
Qed.

(** Every sweep returns, and its journal and result are one of the
    three shapes of [sweep_run]. *)
Lemma checkAndMarkDeliveredOrders_journal (w : World) :
  exists (r : SweepResult) (w' : World) (journal : list Event),
    checkAndMarkDeliveredOrders (recorded executeQuery) (w, [])
    = (inr r, (w', journal))
    /\ checkAndMarkDeliveredOrders executeQuery w = (inr r, w')
    /\ sweep_run journal r
    /\ exists outcome,
         executeQuery SelectEligibleOrders w
         = (outcome, snd (executeQuery SelectEligibleOrders w))
         /\ hd_error journal = Some (Called SelectEligibleOrders outcome).
Proof.
  unfold checkAndMarkDeliveredOrders, try_catch, bind, with_locals, ret.
  rewrite recorded_call.
  destruct (executeQuery SelectEligibleOrders w) as [[error | orders] w1];
    simpl fst; simpl snd.
  - do 3 eexists. repeat split; [constructor | eexists; split; reflexivity].
  - destruct orders as [[| order rest] |].
    + do 3 eexists. repeat split; [constructor; auto | eexists; split; reflexivity].
    + destruct (for_of_journal (order :: rest) w1
                  ([] ++ [Called SelectEligibleOrders (inr (Some (order :: rest)))])
                  {| l_processedOrders := []; l_errors := [] |})
        as (steps & w' & Hlen & Hok & Hrec & Hplain).
      rewrite Hrec, Hplain. simpl.
      do 3 eexists.
      repeat split; [| eexists; split; reflexivity].
      apply run_batch; auto; discriminate.
    + do 3 eexists. repeat split; [constructor; auto | eexists; split; reflexivity].
Qed.

End Journal.

(** ** Facts about the database model *)

Module MySQLFacts.
Import MySQL.

(** What the [WHERE] clause of the selection amounts to. *)
Lemma eligible_iff (now : Z) (o : Order) :
  eligible now o = true
  <-> status (row o) = "shipped"
      /\ exists t, shipped_at (row o) = Some t /\ t <= now - seven_days.
Proof.
  unfold eligible. split.
  - intros H.
    apply andb_prop in H as [H Hdelivered].
    apply andb_prop in H as [H Hle].
    apply andb_prop in H as [Hstatus Hnotnull].
    apply String.eqb_eq in Hstatus. split; [assumption |].
    destruct (shipped_at (row o)) as [t |]; [| discriminate].
    exists t. split; [reflexivity | apply Z.leb_le; assumption].
  - intros [Hstatus (t & Hshipped & Hle)].
    rewrite Hstatus, Hshipped. simpl.
    apply Z.leb_le in Hle. rewrite Hle. simpl.
    apply orb_true_r.
Qed.

Lemma insert_row_permutation (r : OrderRow) (rows : list OrderRow) :
  Permutation (r :: rows) (insert_row r rows).
Proof.
  induction rows as [| r' rest IH]; simpl.
  - apply Permutation_refl.
  - destruct (shipped_leb r r').
    + apply Permutation_refl.
    + eapply Permutation_trans; [apply perm_swap |].
      apply perm_skip. exact IH.
Qed.

Lemma order_by_shipped_at_permutation (rows : list OrderRow) :
  Permutation rows (order_by_shipped_at rows).
Proof.
  induction rows as [| r rest IH]; simpl.
  - apply perm_nil.
  - eapply Permutation_trans; [apply perm_skip; exact IH |].
    apply insert_row_permutation.
Qed.

Lemma shipped_leb_total (a b : OrderRow) :
  shipped_leb a b = false -> shipped_leb b a = true.
Proof.
  unfold shipped_leb.
  destruct (shipped_at a) as [x |], (shipped_at b) as [y |];
    try reflexivity; try discriminate.
  intros H. apply Z.leb_gt in H. apply Z.leb_le. lia.
Qed.

Lemma shipped_leb_trans (a b c : OrderRow) :
  shipped_leb a b = true -> shipped_leb b c = true -> shipped_leb a c = true.
Proof.
  unfold shipped_leb.
  destruct (shipped_at a) as [x |], (shipped_at b) as [y |],
           (shipped_at c) as [z |];
    try reflexivity; try discriminate.
  intros H1 H2. apply Z.leb_le in H1, H2. apply Z.leb_le. lia.
Qed.

Lemma insert_row_sorted (r : OrderRow) (rows : list OrderRow) :
  Sorted ascending rows -> Sorted ascending (insert_row r rows).
Proof.
  induction rows as [| r' rest IH]; intros Hsorted; simpl.
  - repeat constructor.
  - destruct (shipped_leb r r') eqn:E.
    + constructor; [assumption | constructor; exact E].
    + inversion Hsorted as [| ? ? Hrest Hhd]; subst.
      constructor; [apply IH; assumption |].
      destruct rest as [| r'' rest']; simpl.
      * constructor. apply shipped_leb_total. exact E.
      * destruct (shipped_leb r r'').
        -- constructor. apply shipped_leb_total. exact E.
        -- inversion Hhd; subst. constructor. assumption.
Qed.

Lemma order_by_shipped_at_sorted (rows : list OrderRow) :
  StronglySorted ascending (order_by_shipped_at rows).
Proof.
  apply Sorted_StronglySorted.
  - intros a b c. apply shipped_leb_trans.
  - induction rows as [| r rest IH]; simpl.
    + constructor.
    + apply insert_row_sorted. exact IH.
Qed.

(** The selection returns exactly the rows of the eligible orders. *)
Lemma select_eligible_In (db : Database) (r : OrderRow) :
  In r (select_eligible db)
  <-> exists o, In o (orders db) /\ eligible (now db) o = true /\ row o = r.
Proof.
  unfold select_eligible. split.
  - intros H.
    apply (Permutation_in _ (Permutation_sym
                               (order_by_shipped_at_permutation _))) in H.
    apply in_map_iff in H as (o & Hrow & Hin).
    apply filter_In in Hin as [Hin Hel].
    exists o. auto.
  - intros (o & Hin & Hel & Hrow).
    apply (Permutation_in _ (order_by_shipped_at_permutation _)).
    apply in_map_iff. exists o. split; [assumption |].
    apply filter_In. auto.
Qed.

Lemma advanced_refl (o : Order) : advanced o o.
Proof. left. reflexivity. Qed.

Lemma advanced_trans (a b c : Order) :
  advanced a b -> advanced b c -> advanced a c.
Proof.
  intros [-> | (Hs & Hd & Hid & Hnum & Hat)] Hbc; [assumption |].
  destruct Hbc as [-> | (Hs' & _)].
  - right. auto.
  - rewrite Hd in Hs'. discriminate.
Qed.

Lemma only_delivers_same_orders (db db' : Database) :
  orders db' = orders db -> only_delivers db db'.
Proof.
  unfold only_delivers. intros ->.
  induction (orders db); constructor; auto using advanced_refl.
Qed.

Lemma only_delivers_refl (db : Database) : only_delivers db db.
Proof. apply only_delivers_same_orders. reflexivity. Qed.

Lemma only_delivers_trans (a b c : Database) :
  only_delivers a b -> only_delivers b c -> only_delivers a c.
Proof.
  unfold only_delivers.
  generalize (orders a) (orders b) (orders c).
  intros la lb lc Hab. revert lc.
  induction Hab as [| x y la' lb' Hxy Hab IH]; intros lc Hbc;
    inversion Hbc; subst; constructor; eauto using advanced_trans.
Qed.

Lemma update_delivered_advances (order_id : Z) (db : Database) :
  only_delivers db (update_delivered order_id db).
Proof.
  unfold only_delivers, update_delivered. simpl.
  induction (orders db) as [| o rest IH]; simpl; constructor; [| exact IH].
  unfold update_matches.
  destruct (id (row o) =? order_id); simpl; [| left; reflexivity].
  destruct (status (row o) =? "shipped")%string eqn:E; [| left; reflexivity].
  apply String.eqb_eq in E.
  right. simpl. repeat split; auto. discriminate.
Qed.

(** No statement of the service does anything to [orders] but deliver
    shipped rows. *)
Lemma executeQuery_only_delivers (q : Query) (db : Database) :
  only_delivers db (snd (executeQuery q db)).
Proof.
  unfold executeQuery.
  destruct (online db); [| apply only_delivers_refl].
  destruct q; simpl; try (apply only_delivers_same_orders; reflexivity).
  - apply update_delivered_advances.
  - destruct (auto_delivery_logs db);
      apply only_delivers_same_orders; reflexivity.
  - destruct (auto_delivery_logs db);
      apply only_delivers_same_orders; reflexivity.
Qed.

Lemma checkAndMarkDeliveredOrders_only_delivers (db : Database) :
  only_delivers db (snd (checkAndMarkDeliveredOrders executeQuery db)).
Proof.
  apply checkAndMarkDeliveredOrders_frame.
  - apply only_delivers_refl.
  - apply only_delivers_trans.
  - apply executeQuery_only_delivers.
Qed.

(** An update that matches no row changes nothing. *)
Lemma update_delivered_no_match (order_id : Z) (db : Database) :
  (forall o, In o (orders db) -> update_matches order_id o = false) ->
  update_delivered order_id db = db
  /\ filter (update_matches order_id) (orders db) = [].
Proof.
  intros H. unfold update_delivered.
  destruct db as [on nw os logs]. simpl in *.
  assert (map (fun o => if update_matches order_id o
                        then set_delivered nw o else o) os = os
          /\ filter (update_matches order_id) os = []) as [-> ->].
  { induction os as [| o rest IH]; simpl; [auto |].
    rewrite (H o (or_introl eq_refl)).
    destruct IH as [-> ->]; [intros; apply H; right; assumption | auto]. }
  auto.
Qed.

(** A row that is not shipped is out of reach of the updates. *)
Lemma deliver_all_not_shipped (now : Z) (ids : list Z) (o : Order) :
  status (row o) <> "shipped" -> deliver_all now ids o = o.
Proof.
  intros Hst. unfold deliver_all.
  induction ids as [| i rest IH]; simpl; [reflexivity |].
  unfold update_matches at 2.
  apply String.eqb_neq in Hst. rewrite Hst, andb_false_r. exact IH.
Qed.

Lemma deliver_all_delivers (now : Z) (ids : list Z) :
  forall o : Order,
    (deliver_all now ids o = o
     \/ status (row (deliver_all now ids o)) = "delivered")
    /\ (In (id (row o)) ids -> status (row (deliver_all now ids o)) <> "shipped").
Proof.
  induction ids as [| i rest IH]; intros o.
  - split; [left; reflexivity | intros []].
  - change (deliver_all now (i :: rest) o)
      with (deliver_all now rest (if update_matches i o
                                  then set_delivered now o else o)).
    destruct (update_matches i o) eqn:Ematch.
    + rewrite (deliver_all_not_shipped now rest (set_delivered now o));
        [| simpl; discriminate].
      split; [right; reflexivity | intros _; simpl; discriminate].
    + destruct (IH o) as [Hsame Hin]. split; [exact Hsame |].
      intros [Heq | Hrest]; [| auto].
      unfold update_matches in Ematch.
      rewrite <- Heq, Z.eqb_refl in Ematch.
      simpl in Ematch. apply String.eqb_neq in Ematch.
      rewrite deliver_all_not_shipped; assumption.
Qed.

(** The loop against a reachable database: every update goes through,
    and the table ends as the updates leave it. *)
Lemma for_of_process_order_online (rows : list OrderRow) :
  forall (db : Database) (l : Locals),
    online db = true ->
    exists (db' : Database) (l' : Locals),
      for_of rows (process_order executeQuery) (db, l) = (inr tt, (db', l'))
      /\ online db' = true
      /\ now db' = now db
      /\ orders db' = map (deliver_all (now db) (map id rows)) (orders db).
Proof.
  induction rows as [| r rest IH]; intros db l Honline.
  - exists db, l. simpl. unfold ret.
    repeat split; auto. symmetry. apply map_id.
  - simpl for_of. unfold bind. rewrite process_order_run.
    assert (forall (db1 : Database) (l1 : Locals),
               online db1 = true -> now db1 = now db ->
               orders db1 = orders (update_delivered (id r) db) ->
               exists (db' : Database) (l' : Locals),
                 for_of rest (process_order executeQuery) (db1, l1)
                 = (inr tt, (db', l'))
                 /\ online db' = true
                 /\ now db' = now db
                 /\ orders db'
                    = map (deliver_all (now db) (map id (r :: rest))) (orders db))
      as Hrest.
    { intros db1 l1 Hon1 Hnow1 Horders1.
      destruct (IH db1 l1 Hon1) as (db' & l' & Hrun & Hon & Hnow & Horders).
      exists db', l'. repeat split; auto; [congruence |].
      rewrite Horders, Horders1, Hnow1. simpl orders. rewrite map_map.
      reflexivity. }
    unfold executeQuery at 1. rewrite Honline.
    destruct (_ =? 1).
    + unfold executeQuery. simpl online. rewrite Honline. simpl auto_delivery_logs.
      destruct (auto_delivery_logs db); simpl snd; apply Hrest; auto.
    + apply Hrest; auto.
Qed.

Lemma eligible_after_updates (now : Z) (ids : list Z) (o : Order) :
  (eligible now o = true -> In (id (row o)) ids) ->
  eligible now (deliver_all now ids o) = false.
Proof.
  intros Hids.
  assert (forall o', status (row o') <> "shipped" -> eligible now o' = false)
    as Hout.
  { intros o' Hst. unfold eligible.
    apply String.eqb_neq in Hst. rewrite Hst. reflexivity. }
  destruct (deliver_all_delivers now ids o) as [Hsame Hin].
  destruct (eligible now o) eqn:E.
  - apply Hout, Hin, Hids. reflexivity.
  - destruct Hsame as [-> | Hdelivered]; [exact E |].
    apply Hout. rewrite Hdelivered. discriminate.
Qed.

(** Right after a sweep against a reachable database nothing is
    eligible any more, so a second sweep at the same clock time finds
    nothing to do. *)
Lemma second_sweep_processes_nothing (db : Database) :
  online db = true ->
  checkAndMarkDeliveredOrders
    executeQuery (snd (checkAndMarkDeliveredOrders executeQuery db))
  = (inr {| processedCount := 0; processedOrders := []; errors := [] |},
     snd (checkAndMarkDeliveredOrders executeQuery db)).
Proof.
  intros Honline.
  assert (online (snd (checkAndMarkDeliveredOrders executeQuery db)) = true
          /\ select_eligible (snd (checkAndMarkDeliveredOrders executeQuery db))
             = []) as [Hon Hnone].
  { unfold checkAndMarkDeliveredOrders, try_catch, bind, with_locals, ret.
    unfold executeQuery at 1 3. rewrite Honline.
    destruct (select_eligible db) as [| r rest] eqn:Erows; [auto |].
    destruct (for_of_process_order_online
                (r :: rest) db {| l_processedOrders := []; l_errors := [] |}
                Honline) as (db' & l' & Hrun & Hon & Hnow & Horders).
    rewrite Hrun. simpl snd. split; [exact Hon |].
    unfold select_eligible. rewrite Horders, Hnow.
    replace (filter (eligible (now db))
                    (map (deliver_all (now db) (map id (r :: rest))) (orders db)))
      with (@nil Order); [reflexivity |].
    symmetry.
    assert (forall o, In o (orders db) -> eligible (now db) o = true ->
                      In (id (row o)) (map id (r :: rest))) as Hids.
    { intros o Hin Hel. apply in_map. rewrite <- Erows.
      apply select_eligible_In. exists o. auto. }
    revert Hids. generalize (map id (r :: rest)) as ids.
    generalize (orders db) as os.
    induction os as [| o os IHos]; intros ids Hids; [reflexivity |].
    simpl. rewrite eligible_after_updates.
    - apply IHos. intros o' Hin'. apply Hids. right. exact Hin'.
    - apply Hids. left. reflexivity. }
  unfold checkAndMarkDeliveredOrders at 1.
  unfold try_catch, bind, ret.
  unfold executeQuery at 1. rewrite Hon, Hnone. reflexivity.
Qed.

End MySQLFacts.

(** ** Accounting for a batch from its journal *)

Lemma update_outcomes_app (a b : list Event) :
  update_outcomes (a ++ b) = update_outcomes a ++ update_outcomes b.
Proof. unfold update_outcomes. apply flat_map_app. Qed.

Lemma batch_account (orders : list OrderRow) :
  forall steps : list Step,
    List.length steps = List.length orders ->
    Forall step_consistent steps ->
    map fst (update_outcomes (batch_events orders steps)) = map id orders
    /\ batch_processed orders steps
       = account reported orders (update_outcomes (batch_events orders steps))
    /\ batch_errors orders steps
       = account complaint orders (update_outcomes (batch_events orders steps))
    /\ forallb (fun ev => sweep_statement (statement ev))
               (batch_events orders steps) = true.
Proof.
  induction orders as [| order rest IH]; intros [| s steps] Hlen Hok;
    try discriminate; [repeat split |].
  inversion Hok as [| ? ? Hs Hrest]; subst.
  injection Hlen as Hlen.
  destruct (IH steps Hlen Hrest) as (Hids & Hprocessed & Herrors & Hkinds).
  unfold batch_events, batch_processed, batch_errors, account in *.
  destruct s as [error | result | result audit]; simpl in *.
  - rewrite Hids, Hprocessed, Herrors, Hkinds. auto.
  - apply Z.eqb_neq in Hs. rewrite Hs.
    rewrite Hids, Hprocessed, Herrors, Hkinds. auto.
  - apply Z.eqb_eq in Hs. rewrite Hs.
    rewrite Hids, Hprocessed, Herrors, Hkinds. auto.
Qed.

Lemma account_nth (f : OrderRow -> Thrown + ResultSetHeader -> list string)
      (orders : list OrderRow) :
  forall (outcomes : list (Z * (Thrown + ResultSetHeader))) (k : nat)
         (order : OrderRow) (outcome : Z * (Thrown + ResultSetHeader)),
    nth_error orders k = Some order ->
    nth_error outcomes k = Some outcome ->
    incl (f order (snd outcome)) (account f orders outcomes).
Proof.
  unfold account.
  induction orders as [| o rest IH]; intros [| oc outcomes] [| k] order outcome Ho Hc;
    try discriminate; simpl in *.
  - injection Ho as ->. injection Hc as ->.
    apply incl_appl, incl_refl.
  - apply incl_appr. eapply IH; eassumption.
Qed.

Lemma account_In (f : OrderRow -> Thrown + ResultSetHeader -> list string)
      (orders : list OrderRow) :
  forall (outcomes : list (Z * (Thrown + ResultSetHeader))) (x : string),
    In x (account f orders outcomes) ->
    exists (k : nat) (order : OrderRow) (outcome : Z * (Thrown + ResultSetHeader)),
      nth_error orders k = Some order
      /\ nth_error outcomes k = Some outcome
      /\ In x (f order (snd outcome)).
Proof.
  unfold account.
  induction orders as [| o rest IH]; intros [| oc outcomes] x Hin;
    simpl in *; try contradiction.
  apply in_app_or in Hin as [Hin | Hin].
  - exists 0%nat, o, oc. auto.
  - destruct (IH outcomes x Hin) as (k & order & outcome & Ho & Hc & Hx).
    exists (S k), order, outcome. auto.
Qed.

Lemma update_outcome_In (journal : list Event) (order_id : Z)
      (outcome : Thrown + ResultSetHeader) :
  In (order_id, outcome) (update_outcomes journal)
  <-> In (Called (UpdateDelivered order_id) outcome) journal.
Proof.
  unfold update_outcomes. rewrite in_flat_map. split.
  - intros ([q out] & Hin & Hev).
    destruct q; simpl in Hev; try contradiction.
    destruct Hev as [E | []]. injection E as -> ->. assumption.
  - intros Hin. eexists. split; [eassumption |]. simpl. auto.
Qed.

(** The whole sweep, accounted for: it returns; without the journal it
    returns the same; and when the selection yielded [orders], the
    updates were those of [orders], in turn, and the two arrays of the
    result hold what each update contributed. *)
Lemma checkAndMarkDeliveredOrders_account
      {World : Type} (executeQuery : Collaborator World) (w : World) :
  exists (r : SweepResult) (w' : World) (journal : list Event),
    checkAndMarkDeliveredOrders (recorded executeQuery) (w, [])
    = (inr r, (w', journal))
    /\ checkAndMarkDeliveredOrders executeQuery w = (inr r, w')
    /\ processedCount r = Z.of_nat (List.length (processedOrders r))
    /\ forallb (fun ev => sweep_statement (statement ev)) journal = true
    /\ forall orders,
         hd_error journal = Some (Called SelectEligibleOrders (inr (Some orders))) ->
         map fst (update_outcomes journal) = map id orders
         /\ processedOrders r = account reported orders (update_outcomes journal)
         /\ errors r = account complaint orders (update_outcomes journal).
Proof.
  destruct (checkAndMarkDeliveredOrders_journal executeQuery w)
    as (r & w' & journal & Hrec & Hplain & Hrun & _).
  exists r, w', journal.
  split; [assumption |]. split; [assumption |].
  destruct Hrun as [error | orders0 Hnone | orders0 steps Hne Hlen Hok]; simpl.
  - split; [reflexivity |]. split; [reflexivity |].
    intros orders H. discriminate.
  - split; [reflexivity |]. split; [reflexivity |].
    intros orders H.
    apply (f_equal (fun ev => match ev with
                              | Some ev => selection_outcome ev
                              | None => None
                              end)) in H.
    simpl in H. injection H as ->.
    destruct Hnone as [E | E]; [discriminate |].
    injection E as E. subst orders. repeat split.
  - destruct (batch_account orders0 steps Hlen Hok)
      as (Hids & Hprocessed & Herrors & Hkinds).
    split; [reflexivity |]. split; [assumption |].
    intros orders H.
    apply (f_equal (fun ev => match ev with
                              | Some ev => selection_outcome ev
                              | None => None
                              end)) in H.
    simpl in H. injection H as <-. auto.
Qed.

(** ** The claims *)

(** C1.  Whatever the query collaborator does, [checkAndMarkDeliveredOrders]
    returns a result record and never throws; its [processedCount] is the
    length of its [processedOrders].  When the selection query throws, the
    result is zero processed orders, no processed order, and exactly one
    error entry: the thrown error's message (an [Error] instance reports
    its own [message]). *)
Theorem checkAndMarkDeliveredOrders_never_throws_C1
        {World : Type} (executeQuery : Collaborator World) (w : World) :
  (exists (r : SweepResult) (w' : World),
      checkAndMarkDeliveredOrders executeQuery w = (inr r, w')
      /\ processedCount r = Z.of_nat (List.length (processedOrders r)))
  /\ (forall (error : Thrown) (w1 : World),
         executeQuery SelectEligibleOrders w = (inl error, w1) ->
         checkAndMarkDeliveredOrders executeQuery w
         = (inr {| processedCount := 0; processedOrders := [];
                   errors := [error_message error] |}, w1))
  /\ (forall (message : string) (w1 : World),
         executeQuery SelectEligibleOrders w = (inl (ErrorObject message), w1) ->
         checkAndMarkDeliveredOrders executeQuery w
         = (inr {| processedCount := 0; processedOrders := [];
                   errors := [message] |}, w1)).
Proof.
  split; [| split].
  - destruct (checkAndMarkDeliveredOrders_account executeQuery w)
      as (r & w' & _ & _ & Hplain & Hcount & _).
    exists r, w'. auto.
  - intros error w1 H.
    unfold checkAndMarkDeliveredOrders, try_catch, bind, ret.
    rewrite H. reflexivity.
  - intros message w1 H.
    unfold checkAndMarkDeliveredOrders, try_catch, bind, ret.
    rewrite H. reflexivity.
Qed.

Lemma checkAndMarkDeliveredOrders_never_throws_C1_witness :
  MySQL.executeQuery SelectEligibleOrders Scenario.shop_offline
  = (inl (ErrorObject "connect ECONNREFUSED"), Scenario.shop_offline)
  /\ checkAndMarkDeliveredOrders MySQL.executeQuery Scenario.shop_offline
     = (inr {| processedCount := 0; processedOrders := [];
               errors := ["connect ECONNREFUSED"] |}, Scenario.shop_offline).
Proof.
  split; [reflexivity |].
  destruct (checkAndMarkDeliveredOrders_never_throws_C1
              MySQL.executeQuery Scenario.shop_offline) as (_ & _ & H).
  apply H. reflexivity.
Defined.

(** C8.  When the selection query yields no eligible order, as an empty
    array or as no array at all, [checkAndMarkDeliveredOrders] returns
    [{ processedCount: 0, processedOrders: [], errors: [] }] and sends
    nothing further. *)
Theorem no_eligible_orders_C8
        {World : Type} (executeQuery : Collaborator World) (w w1 : World)
        (orders : option (list OrderRow)) :
  executeQuery SelectEligibleOrders w = (inr orders, w1) ->
  orders = None \/ orders = Some [] ->
  checkAndMarkDeliveredOrders executeQuery w
  = (inr {| processedCount := 0; processedOrders := []; errors := [] |}, w1).
Proof.
  intros Hselect Hempty.
  unfold checkAndMarkDeliveredOrders, try_catch, bind, ret.
  rewrite Hselect.
  destruct Hempty as [-> | ->]; reflexivity.
Qed.

Lemma no_eligible_orders_C8_witness :
  MySQL.executeQuery SelectEligibleOrders Scenario.quiet_shop
  = (inr (Some []), Scenario.quiet_shop)
  /\ checkAndMarkDeliveredOrders MySQL.executeQuery Scenario.quiet_shop
     = (inr {| processedCount := 0; processedOrders := []; errors := [] |},
        Scenario.quiet_shop).
Proof.
  split; [reflexivity |].
  apply (no_eligible_orders_C8 MySQL.executeQuery Scenario.quiet_shop
                               Scenario.quiet_shop (Some []));
    [reflexivity | right; reflexivity].
Defined.

(** C7.  [getStats] returns a record [{ totalProcessed, lastProcessed,
    errorCount }] and never throws, whatever the collaborator does, and
    its [errorCount] is 0 in every result.  When the table check counts no
    table, the result is all zero and absent; in particular, in every
    database state where [auto_delivery_logs] does not exist. *)
Theorem getStats_without_logs_table_C7 :
  (forall (World : Type) (executeQuery : Collaborator World) (w : World),
      exists (s : Stats) (w' : World),
        getStats executeQuery w = (inr s, w') /\ errorCount s = 0)
  /\ (forall (World : Type) (executeQuery : Collaborator World) (w w1 : World)
             (tableCheck : list TableCheckRow),
         executeQuery TableCheck w = (inr tableCheck, w1) ->
         or_zero (option_map cnt (hd_error tableCheck)) = 0 ->
         getStats executeQuery w
         = (inr {| totalProcessed := 0; lastProcessed := None;
                   errorCount := 0 |}, w1))
  /\ (forall db : MySQL.Database,
         MySQL.auto_delivery_logs db = None ->
         getStats MySQL.executeQuery db
         = (inr {| totalProcessed := 0; lastProcessed := None;
                   errorCount := 0 |}, db)).
Proof.
  split; [| split].
  - intros World executeQuery w.
    unfold getStats, try_catch, bind, ret.
    destruct (executeQuery TableCheck w) as [[error | tableCheck] w1].
    + do 2 eexists. split; reflexivity.
    + destruct (or_zero (option_map cnt (hd_error tableCheck)) =? 0).
      * do 2 eexists. split; reflexivity.
      * destruct (executeQuery StatsQuery w1) as [[error | stats] w2];
          do 2 eexists; split; reflexivity.
  - intros World executeQuery w w1 tableCheck Hcheck Hzero.
    unfold getStats, try_catch, bind, ret.
    rewrite Hcheck, Hzero. reflexivity.
  - intros db Hlogs.
    unfold getStats, try_catch, bind, ret, MySQL.executeQuery.
    destruct (MySQL.online db); [| reflexivity].
    rewrite Hlogs. reflexivity.
Qed.

Lemma getStats_without_logs_table_C7_witness :
  MySQL.auto_delivery_logs Scenario.shop_without_logs = None
  /\ getStats MySQL.executeQuery Scenario.shop_without_logs
     = (inr {| totalProcessed := 0; lastProcessed := None; errorCount := 0 |},
        Scenario.shop_without_logs)
  /\ getStats MySQL.executeQuery Scenario.shop_without_logs
     = (inr {| totalProcessed := 0; lastProcessed := None; errorCount := 0 |},
        Scenario.shop_without_logs).
Proof.
  destruct getStats_without_logs_table_C7 as (_ & Hcheck & Hdb).
  split; [reflexivity |]. split.
  - apply Hdb. reflexivity.
  - apply (Hcheck _ MySQL.executeQuery _ _ [{| cnt := 0 |}]); reflexivity.
Defined.

(** C6, as the code has it.  The health check answers in each of the
    three ways its probe can end, and never throws.  When the probe
    reports a working connection it answers 200 with [success],
    [mysqlConnected] and the [host] and [database] of the configuration,
    and nothing else of it.  When the probe reports [false] it answers
    500 with [success] and [mysqlConnected] false and no error message.
    When the probe throws it answers 500 with, in addition, [error]: the
    thrown value's [message], or "Unknown error" when it has none. *)
Theorem GET_reports_connectivity_C6
        {World : Type} (testConnection : M World bool)
        (getDatabaseConfig : World -> Health.DatabaseConfig) (w : World) :
  (forall w1 : World,
      testConnection w = (inr true, w1) ->
      Health.GET testConnection getDatabaseConfig w
      = (inr {| Health.status := 200;
                Health.body :=
                  [("success", Health.JBool true);
                   ("mysqlConnected", Health.JBool true);
                   ("host", Health.JString (Health.host (getDatabaseConfig w1)));
                   ("database",
                    Health.JString (Health.database (getDatabaseConfig w1)))] |},
         w1))
  /\ (forall w1 : World,
         testConnection w = (inr false, w1) ->
         Health.GET testConnection getDatabaseConfig w
         = (inr {| Health.status := 500;
                   Health.body := [("success", Health.JBool false);
                                   ("mysqlConnected", Health.JBool false)] |},
            w1))
  /\ (forall (err : Thrown) (w1 : World),
         testConnection w = (inl err, w1) ->
         Health.GET testConnection getDatabaseConfig w
         = (inr {| Health.status := 500;
                   Health.body :=
                     [("success", Health.JBool false);
                      ("mysqlConnected", Health.JBool false);
                      ("error", Health.JString (message_or_unknown err))] |},
            w1)).
Proof.
  unfold Health.GET, try_catch, bind, ret, Health.json.
  repeat split; intros; rewrite H; reflexivity.
Qed.

Lemma GET_reports_connectivity_C6_witness :
  Health.GET (ret true) (fun _ : unit => Scenario.config) tt
  = (inr {| Health.status := 200;
            Health.body := [("success", Health.JBool true);
                            ("mysqlConnected", Health.JBool true);
                            ("host", Health.JString "db.example.com");
                            ("database", Health.JString "gkicks")] |}, tt)
  /\ Health.GET (ret false) (fun _ : unit => Scenario.config) tt
     = (inr {| Health.status := 500;
               Health.body := [("success", Health.JBool false);
                               ("mysqlConnected", Health.JBool false)] |}, tt)
  /\ Health.GET (fun w => (inl (ErrorObject "connect ETIMEDOUT"), w))
                (fun _ : unit => Scenario.config) tt
     = (inr {| Health.status := 500;
               Health.body := [("success", Health.JBool false);
                               ("mysqlConnected", Health.JBool false);
                               ("error", Health.JString "connect ETIMEDOUT")] |},
        tt).
Proof.
  split; [| split].
  - destruct (GET_reports_connectivity_C6
                (ret true) (fun _ : unit => Scenario.config) tt) as (H & _ & _).
    apply H. reflexivity.
  - destruct (GET_reports_connectivity_C6
                (ret false) (fun _ : unit => Scenario.config) tt) as (_ & H & _).
    apply H. reflexivity.
  - destruct (GET_reports_connectivity_C6
                (fun w => (inl (ErrorObject "connect ETIMEDOUT"), w))
                (fun _ : unit => Scenario.config) tt) as (_ & _ & H).
    exact (H (ErrorObject "connect ETIMEDOUT") tt eq_refl).
Defined.

(** C6 as the spec words it fails where the probe reports [false]
    instead of throwing: the answer is a failure status, but its body
    has no error message. *)
Lemma GET_probe_false_has_no_error_message_C6 :
  exists resp : Health.Response,
    Health.GET (ret false) (fun _ : unit => Scenario.config) tt = (inr resp, tt)
    /\ ~ Health.failure_with_message resp.
Proof.
  eexists. split; [reflexivity |].
  intros [_ [m Hm]]. discriminate Hm.
Qed.

(** C2, at the boundary.  Order 7 of the shop was shipped exactly seven
    days before the clock's time, to the second; the selection returns
    it and the sweep delivers it.  The [WHERE] clause compares with
    [<=]. *)
Theorem order_shipped_exactly_seven_days_ago_is_selected_C2 :
  let order7 := Scenario.order 7 "ORD-0007" "shipped"
                               (Some (MySQL.now Scenario.shop - 7 * 86400)) in
  In order7 (MySQL.orders Scenario.shop)
  /\ MySQL.executeQuery SelectEligibleOrders Scenario.shop
     = (inr (Some (MySQL.select_eligible Scenario.shop)), Scenario.shop)
  /\ In (MySQL.row order7) (MySQL.select_eligible Scenario.shop)
  /\ exists r db',
       checkAndMarkDeliveredOrders MySQL.executeQuery Scenario.shop = (inr r, db')
       /\ In "ORD-0007" (processedOrders r).
Proof.
  split; [right; left; reflexivity |].
  split; [reflexivity |].
  split; [right; right; left; reflexivity |].
  do 2 eexists. split; [reflexivity |].
  right; right; left; reflexivity.
Qed.

(** A sweep that returned [r] with [journal] is the one the accounting
    lemma speaks of. *)
Lemma checkAndMarkDeliveredOrders_accounted
      {World : Type} (executeQuery : Collaborator World) (w w' : World)
      (r : SweepResult) (journal : list Event) (orders : list OrderRow) :
  checkAndMarkDeliveredOrders (recorded executeQuery) (w, [])
  = (inr r, (w', journal)) ->
  hd_error journal = Some (Called SelectEligibleOrders (inr (Some orders))) ->
  checkAndMarkDeliveredOrders executeQuery w = (inr r, w')
  /\ processedCount r = Z.of_nat (List.length (processedOrders r))
  /\ forallb (fun ev => sweep_statement (statement ev)) journal = true
  /\ map fst (update_outcomes journal) = map id orders
  /\ processedOrders r = account reported orders (update_outcomes journal)
  /\ errors r = account complaint orders (update_outcomes journal).
Proof.
  intros Hrun Hselect.
  destruct (checkAndMarkDeliveredOrders_account executeQuery w)
    as (r0 & w0 & journal0 & Hrec & Hplain & Hcount & Hkinds & Hbatch).
  rewrite Hrun in Hrec. injection Hrec as <- <- <-.
  destruct (Hbatch orders Hselect) as (Hids & Hprocessed & Herrors).
  auto 10.
Qed.

(** C10.  In every result of [checkAndMarkDeliveredOrders],
    [processedCount] is the length of [processedOrders]; and every
    element of [processedOrders] is the [order_number] of an order the
    selection returned, at some position k, whose conditional update,
    the k-th of the sweep, affected exactly one row. *)
Theorem processedCount_matches_processedOrders_C10
        {World : Type} (executeQuery : Collaborator World) (w w' : World)
        (r : SweepResult) (journal : list Event) :
  checkAndMarkDeliveredOrders (recorded executeQuery) (w, [])
  = (inr r, (w', journal)) ->
  checkAndMarkDeliveredOrders executeQuery w = (inr r, w')
  /\ processedCount r = Z.of_nat (List.length (processedOrders r))
  /\ forall number : string,
       In number (processedOrders r) ->
       exists (orders : list OrderRow) (k : nat) (order : OrderRow)
              (result : ResultSetHeader),
         hd_error journal
         = Some (Called SelectEligibleOrders (inr (Some orders)))
         /\ nth_error orders k = Some order
         /\ order_number order = number
         /\ nth_error (update_outcomes journal) k = Some (id order, inr result)
         /\ affectedRows result = 1.
Proof.
  intros Hrun.
  destruct (checkAndMarkDeliveredOrders_journal executeQuery w)
    as (r0 & w0 & journal0 & Hrec & Hplain & Hshape & _).
  rewrite Hrun in Hrec. injection Hrec as <- <- <-.
  split; [assumption |].
  destruct Hshape as [error | orders0 Hnone | orders steps Hne Hlen Hok];
    simpl; (split; [reflexivity |]); try (intros number []).
  intros number Hin.
  destruct (batch_account orders steps Hlen Hok)
    as (Hids & Hprocessed & _ & _).
  rewrite Hprocessed in Hin.
  apply account_In in Hin as (k & order & [i outcome] & Horder & Houtcome & Hin).
  exists orders, k, order.
  assert (i = id order) as ->.
  { apply (f_equal (fun l => nth_error l k)) in Hids.
    rewrite !nth_error_map, Horder, Houtcome in Hids.
    simpl in Hids. congruence. }
  destruct outcome as [error | result]; simpl in Hin; [contradiction |].
  destruct (affectedRows result =? 1) eqn:Eone; [| contradiction].
  destruct Hin as [<- | []].
  exists result. apply Z.eqb_eq in Eone. auto.
Qed.

Lemma processedCount_matches_processedOrders_C10_witness :
  exists (r : SweepResult) (db' : MySQL.Database) (journal : list Event),
    checkAndMarkDeliveredOrders (recorded MySQL.executeQuery) (Scenario.shop, [])
    = (inr r, (db', journal))
    /\ processedCount r = 3
    /\ In "ORD-0042" (processedOrders r)
    /\ exists (orders : list OrderRow) (k : nat) (order : OrderRow)
              (result : ResultSetHeader),
         hd_error journal
         = Some (Called SelectEligibleOrders (inr (Some orders)))
         /\ nth_error orders k = Some order
         /\ order_number order = "ORD-0042"
         /\ nth_error (update_outcomes journal) k = Some (id order, inr result)
         /\ affectedRows result = 1.
Proof.
  do 3 eexists.
  split; [reflexivity |].
  split; [reflexivity |].
  split; [right; left; reflexivity |].
  apply (processedCount_matches_processedOrders_C10
           MySQL.executeQuery Scenario.shop _ _ _ eq_refl).
  right; left; reflexivity.
Defined.

(** C5.  In a sweep over a batch of selected orders, every order gets
    its conditional update, in turn, whatever happened to the orders
    before it.  An order whose update throws adds its message,
    "Failed to process order <number>: <message>", to [errors]; an order
    whose update affected one row is in [processedOrders] all the same.
    [errors] holds nothing but the messages of the updates that threw.
    The sweep sends no statement besides the selection, the updates to
    [delivered] and the audit insertions, and against the database no
    such statement moves an order that is delivered: the sweep, even
    interleaved with other clients that themselves only deliver, leaves
    every order as it was or delivered from shipped. *)
Theorem failing_update_does_not_abort_the_batch_C5 :
  (forall (World : Type) (executeQuery : Collaborator World) (w w' : World)
          (r : SweepResult) (journal : list Event) (orders : list OrderRow),
      checkAndMarkDeliveredOrders (recorded executeQuery) (w, [])
      = (inr r, (w', journal)) ->
      hd_error journal = Some (Called SelectEligibleOrders (inr (Some orders))) ->
      checkAndMarkDeliveredOrders executeQuery w = (inr r, w')
      /\ map fst (update_outcomes journal) = map id orders
      /\ (forall (k : nat) (order : OrderRow) (error : Thrown),
             nth_error orders k = Some order ->
             nth_error (update_outcomes journal) k = Some (id order, inl error) ->
             In (errorMsg order error) (errors r))
      /\ (forall (k : nat) (order : OrderRow) (result : ResultSetHeader),
             nth_error orders k = Some order ->
             nth_error (update_outcomes journal) k = Some (id order, inr result) ->
             affectedRows result = 1 ->
             In (order_number order) (processedOrders r))
      /\ errors r = account complaint orders (update_outcomes journal)
      /\ forallb (fun ev => sweep_statement (statement ev)) journal = true)
  /\ (forall (actor : Query -> MySQL.Database -> MySQL.Database),
         (forall q db, MySQL.only_delivers db (actor q db)) ->
         forall db : MySQL.Database,
           MySQL.only_delivers
             db (snd (checkAndMarkDeliveredOrders (MySQL.interleaved actor) db))).
Proof.
  split.
  - intros World executeQuery w w' r journal orders Hrun Hselect.
    destruct (checkAndMarkDeliveredOrders_accounted
                executeQuery w w' r journal orders Hrun Hselect)
      as (Hplain & _ & Hkinds & Hids & Hprocessed & Herrors).
    repeat (split; [assumption |]).
    split; [| split; [| split; assumption]].
    + intros k order error Horder Houtcome.
      rewrite Herrors.
      apply (account_nth complaint orders _ k order _ Horder Houtcome).
      left. reflexivity.
    + intros k order result Horder Houtcome Hone.
      rewrite Hprocessed.
      apply (account_nth reported orders _ k order _ Horder Houtcome).
      simpl. apply Z.eqb_eq in Hone. rewrite Hone. left. reflexivity.
  - intros actor Hactor db.
    apply checkAndMarkDeliveredOrders_frame.
    + apply MySQLFacts.only_delivers_refl.
    + apply MySQLFacts.only_delivers_trans.
    + intros q db0. unfold MySQL.interleaved.
      eapply MySQLFacts.only_delivers_trans; [apply Hactor |].
      apply MySQLFacts.executeQuery_only_delivers.
Qed.

Lemma failing_update_does_not_abort_the_batch_C5_witness :
  exists (r : SweepResult) (db' : MySQL.Database) (journal : list Event)
         (orders : list OrderRow) (order3 order42 : OrderRow),
    checkAndMarkDeliveredOrders
      (recorded (MySQL.interleaved Scenario.flaky)) (Scenario.shop, [])
    = (inr r, (db', journal))
    /\ hd_error journal = Some (Called SelectEligibleOrders (inr (Some orders)))
    /\ nth_error orders 0 = Some order3
    /\ nth_error (update_outcomes journal) 0
       = Some (id order3, inl (ErrorObject "connect ECONNREFUSED"))
    /\ nth_error orders 1 = Some order42
    /\ nth_error (update_outcomes journal) 1
       = Some (id order42, inr {| affectedRows := 1 |})
    /\ In "Failed to process order ORD-0003: connect ECONNREFUSED" (errors r)
    /\ In "ORD-0042" (processedOrders r)
    /\ MySQL.only_delivers
         Scenario.shop
         (snd (checkAndMarkDeliveredOrders (MySQL.interleaved Scenario.flaky)
                                           Scenario.shop)).
Proof.
  destruct failing_update_does_not_abort_the_batch_C5 as [Hbatch Hframe].
  do 6 eexists.
  split; [reflexivity |].
  split; [reflexivity |].
  split; [reflexivity |].
  split; [reflexivity |].
  split; [reflexivity |].
  split; [reflexivity |].
  destruct (Hbatch _ (MySQL.interleaved Scenario.flaky) Scenario.shop
                   _ _ _ _ eq_refl eq_refl)
    as (_ & _ & Hfailed & Hdone & _).
  split; [exact (Hfailed 0%nat _ _ eq_refl eq_refl) |].
  split; [exact (Hdone 1%nat _ _ eq_refl eq_refl eq_refl) |].
  apply Hframe.
  intros q db. apply MySQLFacts.only_delivers_same_orders.
  destruct q; try reflexivity.
  simpl. destruct order_id; try reflexivity.
  repeat (destruct p; try reflexivity).
Defined.

(** C4.  [logAutoDelivery] never throws.  In an iteration whose
    conditional update affected exactly one row and whose audit insertion
    then throws, the loop body completes normally: the order's number is
    pushed on [processedOrders], [errors] is left alone, and the world is
    the one the failed insertion left, with nothing sent after it.  Over a
    whole sweep such an order is in [processedOrders] and counted in
    [processedCount], and [errors] holds only messages of updates that
    threw.  Against the database a failed insertion changes no row, and
    a whole sweep, with or without the audit table, leaves every order
    as it was or delivered from shipped. *)
Theorem audit_failure_does_not_propagate_C4 :
  (forall (World : Type) (executeQuery : Collaborator World)
          (orderId : Z) (orderNumber : string) (customerEmail : option string)
          (w : World),
      exists w' : World,
        logAutoDelivery executeQuery orderId orderNumber customerEmail w
        = (inr tt, w'))
  /\ (forall (World : Type) (executeQuery : Collaborator World)
             (order : OrderRow) (w w1 w2 : World) (journal : list Event)
             (l : Locals) (result : ResultSetHeader) (error : Thrown),
         executeQuery (UpdateDelivered (id order)) w = (inr result, w1) ->
         affectedRows result = 1 ->
         executeQuery (InsertAutoDeliveryLog (id order) (order_number order)
                                             (customer_email order)) w1
         = (inl error, w2) ->
         process_order (recorded executeQuery) order ((w, journal), l)
         = (inr tt,
            ((w2,
              journal
                ++ [Called (UpdateDelivered (id order)) (inr result);
                    Called (InsertAutoDeliveryLog (id order) (order_number order)
                                                  (customer_email order))
                           (inl error)]),
             {| l_processedOrders := l_processedOrders l ++ [order_number order];
                l_errors := l_errors l |})))
  /\ (forall (World : Type) (executeQuery : Collaborator World) (w w' : World)
             (r : SweepResult) (journal : list Event) (orders : list OrderRow)
             (k : nat) (order : OrderRow) (result : ResultSetHeader)
             (error : Thrown),
         checkAndMarkDeliveredOrders (recorded executeQuery) (w, [])
         = (inr r, (w', journal)) ->
         hd_error journal
         = Some (Called SelectEligibleOrders (inr (Some orders))) ->
         nth_error orders k = Some order ->
         nth_error (update_outcomes journal) k = Some (id order, inr result) ->
         affectedRows result = 1 ->
         In (Called (InsertAutoDeliveryLog (id order) (order_number order)
                                           (customer_email order)) (inl error))
            journal ->
         In (order_number order) (processedOrders r)
         /\ processedCount r = Z.of_nat (List.length (processedOrders r))
         /\ errors r = account complaint orders (update_outcomes journal))
  /\ (forall (db db' : MySQL.Database) (orderId : Z) (orderNumber : string)
             (customerEmail : option string) (error : Thrown),
         MySQL.executeQuery
           (InsertAutoDeliveryLog orderId orderNumber customerEmail) db
         = (inl error, db') ->
         db' = db)
  /\ (forall db : MySQL.Database,
         MySQL.only_delivers
           db (snd (checkAndMarkDeliveredOrders MySQL.executeQuery db))).
Proof.
  split; [| split; [| split; [| split]]];
    [| | | | exact MySQLFacts.checkAndMarkDeliveredOrders_only_delivers].
  - intros. rewrite logAutoDelivery_run. eexists. reflexivity.
  - intros World executeQuery order w w1 w2 journal l result error
           Hupdate Hone Hinsert.
    rewrite process_order_run, !recorded_call.
    rewrite Hupdate. cbn [fst snd Reply].
    apply Z.eqb_eq in Hone. rewrite Hone.
    rewrite ?recorded_call, Hinsert. cbn [fst snd].
    rewrite <- app_assoc. reflexivity.
  - intros World executeQuery w w' r journal orders k order result error
           Hrun Hselect Horder Houtcome Hone _.
    destruct (checkAndMarkDeliveredOrders_accounted
                executeQuery w w' r journal orders Hrun Hselect)
      as (_ & Hcount & _ & _ & Hprocessed & Herrors).
    split; [| split; assumption].
    rewrite Hprocessed.
    apply (account_nth reported orders _ k order _ Horder Houtcome).
    simpl. apply Z.eqb_eq in Hone. rewrite Hone. left. reflexivity.
  - intros db db' orderId orderNumber customerEmail error.
    unfold MySQL.executeQuery.
    destruct (MySQL.online db); [| intros H; injection H; auto].
    destruct (MySQL.auto_delivery_logs db); [discriminate |].
    intros H. injection H. auto.
Qed.

Lemma audit_failure_does_not_propagate_C4_witness :
  let order3 := MySQL.row (Scenario.order 3 "ORD-0003" "shipped"
                                          (Some (80 * Scenario.day))) in
  let insertion := InsertAutoDeliveryLog 3 "ORD-0003" (Some "kim@example.com") in
  let db1 := MySQL.update_delivered 3 Scenario.shop_without_logs in
  (MySQL.executeQuery (UpdateDelivered 3) Scenario.shop_without_logs
   = (inr {| affectedRows := 1 |}, db1)
   /\ MySQL.executeQuery insertion db1 = (inl MySQL.no_such_table, db1)
   /\ process_order (recorded MySQL.executeQuery) order3
                    ((Scenario.shop_without_logs, []),
                     {| l_processedOrders := []; l_errors := [] |})
      = (inr tt,
         ((db1, [Called (UpdateDelivered 3) (inr {| affectedRows := 1 |});
                 Called insertion (inl MySQL.no_such_table)]),
          {| l_processedOrders := ["ORD-0003"]; l_errors := [] |})))
  /\ (exists (r : SweepResult) (db' : MySQL.Database) (journal : list Event),
         checkAndMarkDeliveredOrders
           (recorded MySQL.executeQuery) (Scenario.shop_without_logs, [])
         = (inr r, (db', journal))
         /\ In (Called insertion (inl MySQL.no_such_table)) journal
         /\ In "ORD-0003" (processedOrders r)
         /\ processedCount r = 3
         /\ errors r = [])
  /\ (exists db' : MySQL.Database,
         MySQL.executeQuery insertion db1 = (inl MySQL.no_such_table, db')
         /\ db' = db1).
Proof.
  intros order3 insertion db1.
  destruct audit_failure_does_not_propagate_C4 as (_ & Hstep & Hsweep & Hdb & _).
  split; [| split].
  - split; [reflexivity |]. split; [reflexivity |].
    exact (Hstep _ MySQL.executeQuery order3 Scenario.shop_without_logs db1 db1
                 [] {| l_processedOrders := []; l_errors := [] |}
                 {| affectedRows := 1 |} MySQL.no_such_table
                 eq_refl eq_refl eq_refl).
  - do 3 eexists.
    split; [reflexivity |].
    split; [right; right; left; reflexivity |].
    destruct (Hsweep _ MySQL.executeQuery Scenario.shop_without_logs
                     _ _ _ _ 0%nat order3 {| affectedRows := 1 |}
                     MySQL.no_such_table
                     eq_refl eq_refl eq_refl eq_refl eq_refl
                     (or_intror (or_intror (or_introl eq_refl))))
      as (Hin & _ & _).
    split; [exact Hin |]. split; reflexivity.
  - exists db1. split; [reflexivity |].
    exact (Hdb db1 db1 3 "ORD-0003" (Some "kim@example.com")
               MySQL.no_such_table eq_refl).
Defined.

(** C3.  Against the database, the conditional update changes a row
    only where its [id] is the bound one and its [status] is [shipped] at
    that moment, and such a row becomes [delivered] with [delivered_at]
    the clock's time; it reports how many rows it matched.  In an
    iteration whose update affected zero rows, the loop body completes
    having sent the update and nothing else: no push on
    [processedOrders], none on [errors], no audit insertion.  The update
    for an [id] whose rows are all delivered already affects zero rows
    and leaves the database as it was; a whole sweep leaves every
    delivered row untouched; and a second sweep, run right after a first
    one against a reachable database, finds nothing to do and changes
    nothing. *)
Theorem zero_affected_rows_is_a_benign_skip_C3 :
  (forall (order_id : Z) (db : MySQL.Database),
      MySQL.online db = true ->
      exists result : ResultSetHeader,
        MySQL.executeQuery (UpdateDelivered order_id) db
        = (inr result, MySQL.update_delivered order_id db)
        /\ affectedRows result
           = Z.of_nat (List.length
                         (filter (fun o => (id (MySQL.row o) =? order_id)
                                           && (status (MySQL.row o) =? "shipped")%string)
                                 (MySQL.orders db)))
        /\ Forall2
             (fun o o' =>
                o' = o
                \/ (id (MySQL.row o) = order_id
                    /\ status (MySQL.row o) = "shipped"
                    /\ status (MySQL.row o') = "delivered"
                    /\ MySQL.delivered_at o' = Some (MySQL.now db)))
             (MySQL.orders db)
             (MySQL.orders (MySQL.update_delivered order_id db)))
  /\ (forall (World : Type) (executeQuery : Collaborator World)
             (order : OrderRow) (w w1 : World) (journal : list Event)
             (l : Locals) (result : ResultSetHeader),
         executeQuery (UpdateDelivered (id order)) w = (inr result, w1) ->
         affectedRows result = 0 ->
         process_order (recorded executeQuery) order ((w, journal), l)
         = (inr tt,
            ((w1, journal ++ [Called (UpdateDelivered (id order)) (inr result)]),
             l)))
  /\ (forall (order_id : Z) (db : MySQL.Database),
         MySQL.online db = true ->
         (forall o, In o (MySQL.orders db) ->
                    id (MySQL.row o) = order_id ->
                    status (MySQL.row o) = "delivered") ->
         MySQL.executeQuery (UpdateDelivered order_id) db
         = (inr {| affectedRows := 0 |}, db))
  /\ (forall db : MySQL.Database,
         Forall2 (fun o o' => status (MySQL.row o) = "delivered" -> o' = o)
                 (MySQL.orders db)
                 (MySQL.orders
                    (snd (checkAndMarkDeliveredOrders MySQL.executeQuery db))))
  /\ (forall db : MySQL.Database,
         MySQL.online db = true ->
         checkAndMarkDeliveredOrders
           MySQL.executeQuery
           (snd (checkAndMarkDeliveredOrders MySQL.executeQuery db))
         = (inr {| processedCount := 0; processedOrders := []; errors := [] |},
            snd (checkAndMarkDeliveredOrders MySQL.executeQuery db))).
Proof.
  split; [| split; [| split; [| split]]];
    [| | | | exact MySQLFacts.second_sweep_processes_nothing].
  - intros order_id db Honline.
    unfold MySQL.executeQuery. rewrite Honline.
    eexists. split; [reflexivity |]. split; [reflexivity |].
    unfold MySQL.update_delivered. simpl.
    induction (MySQL.orders db) as [| o rest IH]; simpl; constructor;
      [| exact IH].
    unfold MySQL.update_matches.
    destruct (id (MySQL.row o) =? order_id) eqn:Eid; simpl; [| left; reflexivity].
    destruct (status (MySQL.row o) =? "shipped")%string eqn:Est;
      [| left; reflexivity].
    apply Z.eqb_eq in Eid. apply String.eqb_eq in Est.
    right. simpl. auto.
  - intros World executeQuery order w w1 journal l result Hupdate Hzero.
    rewrite process_order_run, !recorded_call.
    rewrite Hupdate. cbn [fst snd Reply].
    rewrite Hzero. reflexivity.
  - intros order_id db Honline Hdelivered.
    unfold MySQL.executeQuery. rewrite Honline.
    destruct (MySQLFacts.update_delivered_no_match order_id db) as [-> ->];
      [| reflexivity].
    intros o Hin. unfold MySQL.update_matches.
    destruct (id (MySQL.row o) =? order_id) eqn:Eid; [| reflexivity].
    apply Z.eqb_eq in Eid.
    rewrite (Hdelivered o Hin Eid). reflexivity.
  - intros db.
    pose proof (MySQLFacts.checkAndMarkDeliveredOrders_only_delivers db) as H.
    unfold MySQL.only_delivers in H.
    induction H as [| o o' rest rest' Hadv Hrest IH]; constructor; [| exact IH].
    intros Hst. destruct Hadv as [-> | (Hshipped & _)]; [reflexivity |].
    rewrite Hst in Hshipped. discriminate.
Qed.

Lemma zero_affected_rows_is_a_benign_skip_C3_witness :
  let order3 := MySQL.row (Scenario.order 3 "ORD-0003" "shipped"
                                          (Some (80 * Scenario.day))) in
  let raced := MySQL.update_delivered 3 Scenario.shop in
  let swept := snd (checkAndMarkDeliveredOrders MySQL.executeQuery Scenario.shop) in
  (exists result : ResultSetHeader,
      MySQL.executeQuery (UpdateDelivered 42) Scenario.shop
      = (inr result, MySQL.update_delivered 42 Scenario.shop)
      /\ affectedRows result = 1)
  /\ (MySQL.interleaved Scenario.racing (UpdateDelivered 3) Scenario.shop
      = (inr {| affectedRows := 0 |}, raced)
      /\ process_order (recorded (MySQL.interleaved Scenario.racing)) order3
                       ((Scenario.shop, []),
                        {| l_processedOrders := []; l_errors := [] |})
         = (inr tt,
            ((raced, [Called (UpdateDelivered 3) (inr {| affectedRows := 0 |})]),
             {| l_processedOrders := []; l_errors := [] |})))
  /\ MySQL.executeQuery (UpdateDelivered 42) swept
     = (inr {| affectedRows := 0 |}, swept)
  /\ checkAndMarkDeliveredOrders MySQL.executeQuery swept
     = (inr {| processedCount := 0; processedOrders := []; errors := [] |},
        swept).
Proof.
  intros order3 raced swept.
  destruct zero_affected_rows_is_a_benign_skip_C3
    as (Hwrite & Hskip & Hagain & _ & Htwice).
  split; [| split; [| split]]; [| | | exact (Htwice Scenario.shop eq_refl)].
  - destruct (Hwrite 42 Scenario.shop eq_refl) as (result & Hrun & Hcount & _).
    exists result. split; [exact Hrun | exact Hcount].
  - split; [reflexivity |].
    exact (Hskip _ (MySQL.interleaved Scenario.racing) order3 Scenario.shop raced
                 [] {| l_processedOrders := []; l_errors := [] |}
                 {| affectedRows := 0 |} eq_refl eq_refl).
  - apply (Hagain 42 swept eq_refl).
    intros o Hin Hid. simpl in Hin.
    repeat (destruct Hin as [<- | Hin]; [try reflexivity; discriminate Hid |]).
    contradiction.
Defined.

Lemma StronglySorted_strengthen {A : Type} (R R' : A -> A -> Prop)
      (P : A -> Prop) (l : list A) :
  (forall a b, R a b -> P a -> P b -> R' a b) ->
  StronglySorted R l -> Forall P l -> StronglySorted R' l.
Proof.
  intros Himp Hsorted. induction Hsorted as [| a l Hl IH Hall]; intros HP.
  - constructor.
  - inversion HP as [| ? ? Pa Pl]; subst.
    constructor; [apply IH; assumption |].
    rewrite Forall_forall in *. intros b Hb. auto.
Qed.

(** A sweep over [orders], step by step of its journal. *)
Lemma checkAndMarkDeliveredOrders_steps
      {World : Type} (executeQuery : Collaborator World) (w w' : World)
      (r : SweepResult) (journal : list Event) (orders : list OrderRow) :
  checkAndMarkDeliveredOrders (recorded executeQuery) (w, [])
  = (inr r, (w', journal)) ->
  hd_error journal = Some (Called SelectEligibleOrders (inr (Some orders))) ->
  exists steps : list Step,
    List.length steps = List.length orders
    /\ Forall step_consistent steps
    /\ journal = Called SelectEligibleOrders (inr (Some orders))
                   :: batch_events orders steps.
Proof.
  intros Hrun Hselect.
  destruct (checkAndMarkDeliveredOrders_journal executeQuery w)
    as (r0 & w0 & journal0 & Hrec & _ & Hshape & _).
  rewrite Hrun in Hrec. injection Hrec as <- <- <-.
  pose proof (f_equal (fun ev => match ev with
                                 | Some ev => selection_outcome ev
                                 | None => None
                                 end) Hselect) as Hsel.
  destruct Hshape as [error | orders0 Hnone | orders0 steps Hne Hlen Hok];
    simpl in Hsel.
  - discriminate.
  - injection Hsel as ->.
    destruct Hnone as [E | E]; [discriminate |]. injection E as E. subst orders.
    exists []. repeat split. constructor.
  - injection Hsel as <-. exists steps. auto.
Qed.

(** C9.  The selection returns the eligible orders oldest-shipped-first:
    its rows are those of the eligible orders, each with a [shipped_at],
    and any row's [shipped_at] is at most that of every row after it.  A
    sweep works through the rows it was given one at a time and in the
    order given: its journal is the selection followed by one block of
    calls per order, in turn, each block the order's update, followed,
    when that affected one row, by its audit insertion; so the updates
    are those of the selected orders in selection order.  Against the
    database that order is oldest-shipped-first. *)
Theorem orders_are_processed_oldest_first_in_sequence_C9 :
  (forall db : MySQL.Database,
      MySQL.online db = true ->
      MySQL.executeQuery SelectEligibleOrders db
      = (inr (Some (MySQL.select_eligible db)), db)
      /\ Permutation
           (map MySQL.row (filter (MySQL.eligible (MySQL.now db)) (MySQL.orders db)))
           (MySQL.select_eligible db)
      /\ StronglySorted
           (fun a b => exists x y,
                shipped_at a = Some x /\ shipped_at b = Some y /\ x <= y)
           (MySQL.select_eligible db))
  /\ (forall (World : Type) (executeQuery : Collaborator World) (w w' : World)
             (r : SweepResult) (journal : list Event) (orders : list OrderRow),
         checkAndMarkDeliveredOrders (recorded executeQuery) (w, [])
         = (inr r, (w', journal)) ->
         hd_error journal
         = Some (Called SelectEligibleOrders (inr (Some orders))) ->
         map fst (update_outcomes journal) = map id orders
         /\ exists steps : list Step,
              List.length steps = List.length orders
              /\ Forall step_consistent steps
              /\ journal = Called SelectEligibleOrders (inr (Some orders))
                             :: batch_events orders steps)
  /\ (forall (db db' : MySQL.Database) (r : SweepResult) (journal : list Event),
         MySQL.online db = true ->
         checkAndMarkDeliveredOrders (recorded MySQL.executeQuery) (db, [])
         = (inr r, (db', journal)) ->
         map fst (update_outcomes journal)
         = map id (MySQL.select_eligible db)).
Proof.
  assert (forall (World : Type) (executeQuery : Collaborator World) (w w' : World)
                 (r : SweepResult) (journal : list Event) (orders : list OrderRow),
             checkAndMarkDeliveredOrders (recorded executeQuery) (w, [])
             = (inr r, (w', journal)) ->
             hd_error journal
             = Some (Called SelectEligibleOrders (inr (Some orders))) ->
             map fst (update_outcomes journal) = map id orders
             /\ exists steps : list Step,
                  List.length steps = List.length orders
                  /\ Forall step_consistent steps
                  /\ journal = Called SelectEligibleOrders (inr (Some orders))
                                 :: batch_events orders steps) as Hsequence.
  { intros World executeQuery w w' r journal orders Hrun Hselect.
    split.
    - apply (checkAndMarkDeliveredOrders_accounted
               executeQuery w w' r journal orders Hrun Hselect).
    - apply (checkAndMarkDeliveredOrders_steps
               executeQuery w w' r journal orders Hrun Hselect). }
  split; [| split; [exact Hsequence |]].
  - intros db Honline.
    split; [unfold MySQL.executeQuery; rewrite Honline; reflexivity |].
    split; [apply MySQLFacts.order_by_shipped_at_permutation |].
    apply (StronglySorted_strengthen
             MySQL.ascending _
             (fun a => exists t, shipped_at a = Some t)).
    + intros a b Hab [x Hx] [y Hy].
      exists x, y. unfold MySQL.ascending, MySQL.shipped_leb in Hab.
      rewrite Hx, Hy in Hab. apply Z.leb_le in Hab. auto.
    + apply MySQLFacts.order_by_shipped_at_sorted.
    + apply Forall_forall. intros a Ha.
      apply MySQLFacts.select_eligible_In in Ha as (o & _ & Hel & <-).
      apply MySQLFacts.eligible_iff in Hel as (_ & t & Ht & _).
      exists t. exact Ht.
  - intros db db' r journal Honline Hrun.
    destruct (checkAndMarkDeliveredOrders_journal MySQL.executeQuery db)
      as (r0 & w0 & journal0 & Hrec & _ & _ & outcome & Hcall & Hhead).
    rewrite Hrun in Hrec. injection Hrec as <- <- <-.
    unfold MySQL.executeQuery in Hcall. rewrite Honline in Hcall.
    injection Hcall as <-.
    apply (Hsequence _ MySQL.executeQuery db db' r journal _ Hrun Hhead).
Qed.

Lemma orders_are_processed_oldest_first_in_sequence_C9_witness :
  (MySQL.executeQuery SelectEligibleOrders Scenario.shop
   = (inr (Some (MySQL.select_eligible Scenario.shop)), Scenario.shop)
   /\ map shipped_at (MySQL.select_eligible Scenario.shop)
      = [Some (80 * Scenario.day); Some (90 * Scenario.day);
         Some (93 * Scenario.day)]
   /\ StronglySorted
        (fun a b => exists x y,
             shipped_at a = Some x /\ shipped_at b = Some y /\ x <= y)
        (MySQL.select_eligible Scenario.shop))
  /\ (exists (r : SweepResult) (db' : MySQL.Database) (journal : list Event),
         checkAndMarkDeliveredOrders
           (recorded (MySQL.interleaved Scenario.flaky)) (Scenario.shop, [])
         = (inr r, (db', journal))
         /\ map fst (update_outcomes journal) = [3; 42; 7]
         /\ map statement journal
            = [SelectEligibleOrders;
               UpdateDelivered 3;
               UpdateDelivered 42;
               InsertAutoDeliveryLog 42 "ORD-0042" (Some "kim@example.com");
               UpdateDelivered 7;
               InsertAutoDeliveryLog 7 "ORD-0007" (Some "kim@example.com")]
         /\ exists steps : list Step,
              List.length steps = 3%nat
              /\ journal
                 = Called SelectEligibleOrders
                          (inr (Some (MySQL.select_eligible Scenario.shop)))
                     :: batch_events (MySQL.select_eligible Scenario.shop) steps)
  /\ (exists (r : SweepResult) (db' : MySQL.Database) (journal : list Event),
         checkAndMarkDeliveredOrders
           (recorded MySQL.executeQuery) (Scenario.shop, [])
         = (inr r, (db', journal))
         /\ map fst (update_outcomes journal)
            = map id (MySQL.select_eligible Scenario.shop)).
Proof.
  destruct orders_are_processed_oldest_first_in_sequence_C9
    as (Hselect & Hsequence & Hdb).
  split; [| split].
  - destruct (Hselect Scenario.shop eq_refl) as (Hcall & _ & Hsorted).
    split; [exact Hcall |]. split; [reflexivity | exact Hsorted].
  - do 3 eexists.
    split; [reflexivity |].
    split; [reflexivity |].
    split; [reflexivity |].
    destruct (Hsequence _ (MySQL.interleaved Scenario.flaky) Scenario.shop
                        _ _ _ _ eq_refl eq_refl)
      as (_ & steps & Hlen & _ & Hjournal).
    exists steps. split; [exact Hlen | exact Hjournal].
  - do 3 eexists.
    split; [reflexivity |].
    exact (Hdb Scenario.shop _ _ _ eq_refl eq_refl).
Defined.

(** ** The sweep against a reachable database *)

Module SweepFacts.
Import MySQL.

(** The loop with the audit table in place: nothing throws, and every
    push on [processedOrders] comes with one audit entry. *)
Lemma for_of_process_order_audited (rows : list OrderRow) :
  forall (db : Database) (l : Locals) (logs : list LogEntry),
    online db = true ->
    auto_delivery_logs db = Some logs ->
    exists (db' : Database) (l' : Locals) (entries : list LogEntry),
      for_of rows (process_order executeQuery) (db, l) = (inr tt, (db', l'))
      /\ online db' = true
      /\ auto_delivery_logs db' = Some (logs ++ entries)
      /\ l_processedOrders l'
         = l_processedOrders l ++ map log_order_number entries
      /\ l_errors l' = l_errors l
      /\ Forall (fun e => processed_at e = now db
                          /\ exists r, In r rows
                                       /\ log_order_id e = id r
                                       /\ log_order_number e = order_number r
                                       /\ log_customer_email e = customer_email r)
                entries.
Proof.
  induction rows as [| r rest IH]; intros db l logs Honline Hlogs.
  - exists db, l, []. simpl. unfold ret. rewrite !app_nil_r.
    repeat split; auto.
  - simpl for_of. unfold bind. rewrite process_order_run.
    unfold executeQuery at 1. rewrite Honline.
    destruct (_ =? 1).
    + unfold executeQuery. simpl online. rewrite Honline.
      simpl auto_delivery_logs. rewrite Hlogs. simpl snd.
      set (entry := {| log_id := Z.of_nat (List.length logs) + 1;
                       log_order_id := id r;
                       log_order_number := order_number r;
                       log_customer_email := customer_email r;
                       processed_at := now db |}).
      destruct (IH (insert_log (id r) (order_number r) (customer_email r) logs
                               (update_delivered (id r) db))
                   (push_processedOrders (order_number r) l)
                   (logs ++ [entry]) Honline eq_refl)
        as (db' & l' & entries & Hrun & Hon & Hlogs' & Hprocessed & Herrors & Hall).
      exists db', l', (entry :: entries).
      split; [exact Hrun |]. split; [exact Hon |].
      split; [rewrite Hlogs', <- app_assoc; reflexivity |].
      split; [rewrite Hprocessed; simpl; rewrite <- app_assoc; reflexivity |].
      split; [exact Herrors |].
      constructor.
      * split; [reflexivity |]. exists r. simpl. auto.
      * eapply Forall_impl; [| exact Hall].
        simpl. intros e (Hat & r' & Hin & Hrest). split; [exact Hat |].
        exists r'. auto.
    + destruct (IH (update_delivered (id r) db) l logs Honline Hlogs)
        as (db' & l' & entries & Hrun & Hon & Hlogs' & Hprocessed & Herrors & Hall).
      exists db', l', entries.
      repeat (split; [assumption |]).
      eapply Forall_impl; [| exact Hall].
      simpl. intros e (Hat & r' & Hin & Hrest). split; [exact Hat |].
      exists r'. auto.
Qed.

(** The updates of other orders do not change how many rows the update
    of this one matches. *)
Lemma update_delivered_other (i j : Z) (db : Database) :
  i <> j ->
  filter (update_matches j) (orders (update_delivered i db))
  = filter (update_matches j) (orders db).
Proof.
  intros Hij. unfold update_delivered. simpl.
  induction (orders db) as [| o os IH]; simpl; [reflexivity |].
  destruct (update_matches i o) eqn:Ei.
  - unfold update_matches in *. simpl.
    apply andb_prop in Ei as [Eid _]. apply Z.eqb_eq in Eid.
    replace (id (row o) =? j) with false
      by (symmetry; apply Z.eqb_neq; congruence).
    simpl. exact IH.
  - rewrite IH. reflexivity.
Qed.

(** The loop over rows with distinct ids, each matched by exactly one
    shipped order: every row is reported. *)
Lemma for_of_process_order_unique (rows : list OrderRow) :
  forall (db : Database) (l : Locals),
    online db = true ->
    NoDup (map id rows) ->
    (forall r, In r rows ->
               List.length (filter (update_matches (id r)) (orders db)) = 1%nat) ->
    exists (db' : Database) (l' : Locals),
      for_of rows (process_order executeQuery) (db, l) = (inr tt, (db', l'))
      /\ l_processedOrders l' = l_processedOrders l ++ map order_number rows
      /\ l_errors l' = l_errors l.
Proof.
  induction rows as [| r rest IH]; intros db l Honline Hnodup Hone.
  - exists db, l. simpl. unfold ret. rewrite app_nil_r. auto.
  - simpl for_of. unfold bind. rewrite process_order_run.
    unfold executeQuery at 1. rewrite Honline.
    rewrite (Hone r (or_introl eq_refl)). simpl Z.eqb. cbv iota.
    inversion Hnodup as [| ? ? Hnotin Hrest]; subst.
    assert (forall db1 : Database,
               online db1 = true ->
               orders db1 = orders (update_delivered (id r) db) ->
               exists (db' : Database) (l' : Locals),
                 for_of rest (process_order executeQuery)
                        (db1, push_processedOrders (order_number r) l)
                 = (inr tt, (db', l'))
                 /\ l_processedOrders l'
                    = l_processedOrders l ++ map order_number (r :: rest)
                 /\ l_errors l' = l_errors l) as Hnext.
    { intros db1 Hon1 Horders1.
      destruct (IH db1 (push_processedOrders (order_number r) l) Hon1 Hrest)
        as (db' & l' & Hrun & Hprocessed & Herrors).
      - intros r' Hin. rewrite Horders1, update_delivered_other.
        + apply Hone. right. exact Hin.
        + intros E. apply Hnotin. rewrite E. apply in_map. exact Hin.
      - exists db', l'. split; [exact Hrun |]. split; [| exact Herrors].
        rewrite Hprocessed. simpl. rewrite <- app_assoc. reflexivity. }
    unfold executeQuery. simpl online. rewrite Honline.
    simpl auto_delivery_logs.
    destruct (auto_delivery_logs db); simpl snd; apply Hnext; auto.
Qed.

(** Selecting among orders with distinct ids leaves ids distinct. *)
Lemma filter_keeps_ids_distinct (p : Order -> bool) (os : list Order) :
  NoDup (map (fun o => id (row o)) os) ->
  NoDup (map (fun o => id (row o)) (filter p os)).
Proof.
  induction os as [| o os IH]; simpl; intros Hdistinct; [constructor |].
  apply NoDup_cons_iff in Hdistinct as [Hfresh Hrest].
  destruct (p o); simpl; [| auto].
  apply NoDup_cons; [| auto].
  intros Hin. apply Hfresh.
  apply in_map_iff in Hin as (x & Hx & Hin).
  apply filter_In in Hin as [Hin _].
  rewrite <- Hx. apply (in_map (fun o => id (row o))). exact Hin.
Qed.

Lemma select_eligible_NoDup (db : Database) :
  NoDup (map (fun o => id (row o)) (orders db)) ->
  NoDup (map id (select_eligible db)).
Proof.
  intros H.
  apply (Permutation_NoDup
           (l := map id (map row (filter (eligible (now db)) (orders db))))).
  - apply Permutation_map. apply MySQLFacts.order_by_shipped_at_permutation.
  - rewrite map_map. apply filter_keeps_ids_distinct. exact H.
Qed.

Lemma unique_match (os : list Order) (o : Order) :
  NoDup (map (fun o => id (row o)) os) ->
  In o os ->
  status (row o) = "shipped" ->
  List.length (filter (update_matches (id (row o))) os) = 1%nat.
Proof.
  intros Hnodup Hin Hst.
  assert (forall os', ~ In (id (row o)) (map (fun o => id (row o)) os') ->
                      filter (update_matches (id (row o))) os' = []) as Hnone.
  { induction os' as [| x xs IHxs]; simpl; intros Hnot; [reflexivity |].
    unfold update_matches at 1.
    replace (id (row x) =? id (row o)) with false
      by (symmetry; apply Z.eqb_neq; intros E; apply Hnot; left; exact E).
    simpl. apply IHxs. intros H. apply Hnot. right. exact H. }
  induction os as [| x xs IH]; [contradiction |].
  simpl in Hnodup. inversion Hnodup as [| ? ? Hnotin Hrest]; subst.
  destruct Hin as [-> | Hin].
  - simpl. unfold update_matches at 1.
    rewrite Z.eqb_refl, Hst. simpl. rewrite Hnone; [reflexivity | exact Hnotin].
  - simpl. unfold update_matches at 1.
    replace (id (row x) =? id (row o)) with false.
    + simpl. apply IH; assumption.
    + symmetry. apply Z.eqb_neq. intros E. apply Hnotin. rewrite E.
      apply (in_map (fun o => id (row o))). exact Hin.
Qed.

Lemma deliver_all_eligible (now : Z) (ids : list Z) (o : Order) :
  status (row o) = "shipped" ->
  In (id (row o)) ids ->
  deliver_all now ids o = set_delivered now o.
Proof.
  intros Hst. unfold deliver_all.
  induction ids as [| i rest IH]; simpl; [intros [] |].
  unfold update_matches at 2. rewrite Hst. simpl. rewrite andb_true_r.
  destruct (id (row o) =? i) eqn:Eid.
  - intros _. apply (MySQLFacts.deliver_all_not_shipped now rest).
    simpl. discriminate.
  - intros [E | Hin]; [| exact (IH Hin)].
    apply Z.eqb_neq in Eid. congruence.
Qed.

Lemma deliver_all_untouched (now : Z) (ids : list Z) (o : Order) :
  ~ In (id (row o)) ids -> deliver_all now ids o = o.
Proof.
  unfold deliver_all.
  induction ids as [| i rest IH]; simpl; intros Hnot; [reflexivity |].
  unfold update_matches at 2.
  replace (id (row o) =? i) with false
    by (symmetry; apply Z.eqb_neq; intros E; apply Hnot; left; congruence).
  simpl. apply IH. intros H. apply Hnot. right. exact H.
Qed.

(** Among orders with distinct ids, the id tells the order. *)
Lemma same_id_same_order (os : list Order) (a b : Order) :
  NoDup (map (fun o => id (row o)) os) ->
  In a os -> In b os -> id (row a) = id (row b) -> a = b.
Proof.
  induction os as [| x xs IH]; simpl; intros Hdistinct Ha Hb Hid; [contradiction |].
  apply NoDup_cons_iff in Hdistinct as [Hfresh Hrest].
  destruct Ha as [-> | Ha], Hb as [-> | Hb]; auto.
  - exfalso. apply Hfresh. rewrite Hid.
    apply (in_map (fun o => id (row o))). exact Hb.
  - exfalso. apply Hfresh. rewrite <- Hid.
    apply (in_map (fun o => id (row o))). exact Ha.
Qed.

End SweepFacts.

(** With ids that identify orders, a sweep against a reachable database
    reports exactly the eligible orders, oldest-shipped first, and no
    error; afterwards each of them is [delivered] with [delivered_at]
    and [updated_at] the clock's time, and every other order is as it
    was. *)
Theorem sweep_delivers_exactly_the_eligible_orders (db : MySQL.Database) :
  MySQL.online db = true ->
  NoDup (map (fun o => id (MySQL.row o)) (MySQL.orders db)) ->
  exists (r : SweepResult) (db' : MySQL.Database),
    checkAndMarkDeliveredOrders MySQL.executeQuery db = (inr r, db')
    /\ processedOrders r = map order_number (MySQL.select_eligible db)
    /\ processedCount r = Z.of_nat (List.length (MySQL.select_eligible db))
    /\ errors r = []
    /\ MySQL.orders db'
       = map (fun o => if MySQL.eligible (MySQL.now db) o
                       then MySQL.set_delivered (MySQL.now db) o else o)
             (MySQL.orders db).
Proof.
  intros Honline Hnodup.
  assert (forall o, In o (MySQL.orders db) ->
            MySQL.deliver_all (MySQL.now db)
                              (map id (MySQL.select_eligible db)) o
            = if MySQL.eligible (MySQL.now db) o
              then MySQL.set_delivered (MySQL.now db) o else o) as Hrows.
  { intros o Hin. destruct (MySQL.eligible (MySQL.now db) o) eqn:Hel.
    - apply SweepFacts.deliver_all_eligible.
      + apply MySQLFacts.eligible_iff in Hel. tauto.
      + apply in_map_iff. exists (MySQL.row o). split; [reflexivity |].
        apply MySQLFacts.select_eligible_In. exists o. auto.
    - apply SweepFacts.deliver_all_untouched. intros Hid.
      apply in_map_iff in Hid as (r & Hr & Hsel).
      apply MySQLFacts.select_eligible_In in Hsel as (o2 & Hin2 & Hel2 & <-).
      assert (o2 = o) as ->
          by (apply (SweepFacts.same_id_same_order (MySQL.orders db)); auto).
      congruence. }
  unfold checkAndMarkDeliveredOrders, try_catch, bind, with_locals, ret.
  unfold MySQL.executeQuery at 1. rewrite Honline.
  destruct (MySQL.select_eligible db) as [| r0 rest] eqn:Erows.
  - do 2 eexists. repeat split.
    rewrite <- (map_id (MySQL.orders db)) at 1.
    apply map_ext_in. intros o Hin. rewrite <- Hrows by exact Hin. reflexivity.
  - destruct (SweepFacts.for_of_process_order_unique
                (r0 :: rest) db {| l_processedOrders := []; l_errors := [] |}
                Honline) as (db' & l' & Hrun & Hprocessed & Herrors).
    + rewrite <- Erows. apply SweepFacts.select_eligible_NoDup. exact Hnodup.
    + intros r Hin. rewrite <- Erows in Hin.
      apply MySQLFacts.select_eligible_In in Hin as (o & Hin & Hel & <-).
      apply SweepFacts.unique_match; auto.
      apply MySQLFacts.eligible_iff in Hel. tauto.
    + destruct (MySQLFacts.for_of_process_order_online
                  (r0 :: rest) db {| l_processedOrders := []; l_errors := [] |}
                  Honline) as (db2 & l2 & Hrun2 & _ & _ & Horders).
      rewrite Hrun in Hrun2. injection Hrun2 as <- <-.
      rewrite Hrun. simpl snd.
      cbn [l_processedOrders l_errors app] in Hprocessed, Herrors.
      do 2 eexists. split; [reflexivity |].
      cbn [processedCount processedOrders errors].
      rewrite Hprocessed, Herrors.
      split; [reflexivity |].
      split; [rewrite length_map; reflexivity |].
      split; [reflexivity |].
      rewrite Horders. apply map_ext_in. exact Hrows.
Qed.

(** With the audit table in place, a sweep against a reachable database
    reports no error and appends one audit entry per reported order, in
    the order reported, each stamped with the clock's time and carrying
    the id, number and e-mail of a selected row; [getStats] right after
    it counts the entries that were there plus [processedCount]. *)
Theorem sweep_leaves_one_audit_entry_per_processed_order
        (db : MySQL.Database) (logs : list MySQL.LogEntry) :
  MySQL.online db = true ->
  MySQL.auto_delivery_logs db = Some logs ->
  exists (r : SweepResult) (db' : MySQL.Database) (entries : list MySQL.LogEntry),
    checkAndMarkDeliveredOrders MySQL.executeQuery db = (inr r, db')
    /\ errors r = []
    /\ MySQL.auto_delivery_logs db' = Some (logs ++ entries)
    /\ map MySQL.log_order_number entries = processedOrders r
    /\ Forall (fun e =>
                 MySQL.processed_at e = MySQL.now db
                 /\ exists row, In row (MySQL.select_eligible db)
                                /\ MySQL.log_order_id e = id row
                                /\ MySQL.log_order_number e = order_number row
                                /\ MySQL.log_customer_email e = customer_email row)
              entries
    /\ getStats MySQL.executeQuery db'
       = (inr {| totalProcessed := Z.of_nat (List.length logs) + processedCount r;
                 lastProcessed := MySQL.max_processed_at (logs ++ entries);
                 errorCount := 0 |}, db').
Proof.
  intros Honline Hlogs.
  assert (forall (db' : MySQL.Database) (all : list MySQL.LogEntry),
             MySQL.online db' = true ->
             MySQL.auto_delivery_logs db' = Some all ->
             getStats MySQL.executeQuery db'
             = (inr {| totalProcessed := Z.of_nat (List.length all);
                       lastProcessed := MySQL.max_processed_at all;
                       errorCount := 0 |}, db')) as Hstats.
  { intros db' all Hon Hall.
    unfold getStats, try_catch, bind, ret, MySQL.executeQuery.
    rewrite Hon, Hall. simpl. rewrite Hon, Hall. reflexivity. }
  unfold checkAndMarkDeliveredOrders, try_catch, bind, with_locals, ret.
  unfold MySQL.executeQuery at 1. rewrite Honline.
  destruct (MySQL.select_eligible db) as [| r0 rest] eqn:Erows.
  - exists {| processedCount := 0; processedOrders := []; errors := [] |}, db, [].
    rewrite app_nil_r.
    repeat split; auto.
    rewrite (Hstats db logs Honline Hlogs). simpl. rewrite Z.add_0_r.
    reflexivity.
  - destruct (SweepFacts.for_of_process_order_audited
                (r0 :: rest) db {| l_processedOrders := []; l_errors := [] |}
                logs Honline Hlogs)
      as (db' & l' & entries & Hrun & Hon & Hlogs' & Hprocessed & Herrors & Hall).
    rewrite Hrun. simpl snd.
    cbn [l_processedOrders l_errors app] in Hprocessed, Herrors.
    do 3 eexists. split; [reflexivity |].
    cbn [processedCount processedOrders errors].
    split; [exact Herrors |].
    split; [exact Hlogs' |].
    split; [symmetry; exact Hprocessed |].
    split; [exact Hall |].
    rewrite (Hstats db' (logs ++ entries) Hon Hlogs').
    rewrite Hprocessed, length_app, length_map, Nat2Z.inj_add. reflexivity.
Qed.

(** [setupAutoDeliveryLogsTable] never throws, whatever the collaborator
    does.  Against a reachable database it leaves the audit table in
    place with the entries it had, if any, and the orders as they were;
    running it again changes nothing.  Against an unreachable one it
    changes nothing. *)
Theorem setupAutoDeliveryLogsTable_is_safe_to_repeat :
  (forall (World : Type) (executeQuery : Collaborator World) (w : World),
      exists w' : World,
        setupAutoDeliveryLogsTable executeQuery w = (inr tt, w'))
  /\ (forall db : MySQL.Database,
         MySQL.online db = true ->
         let db' := snd (setupAutoDeliveryLogsTable MySQL.executeQuery db) in
         MySQL.auto_delivery_logs db'
         = Some (match MySQL.auto_delivery_logs db with
                 | Some logs => logs
                 | None => []
                 end)
         /\ MySQL.orders db' = MySQL.orders db
         /\ snd (setupAutoDeliveryLogsTable MySQL.executeQuery db') = db')
  /\ (forall db : MySQL.Database,
         MySQL.online db = false ->
         snd (setupAutoDeliveryLogsTable MySQL.executeQuery db) = db).
Proof.
  split; [| split].
  - intros World executeQuery w.
    unfold setupAutoDeliveryLogsTable, try_catch, bind, ret.
    destruct (executeQuery CreateAutoDeliveryLogsTable w) as [[error | result] w'];
      eexists; reflexivity.
  - intros db Honline.
    unfold setupAutoDeliveryLogsTable, try_catch, bind, ret, MySQL.executeQuery.
    rewrite Honline. simpl. rewrite Honline. simpl.
    unfold MySQL.create_logs_table. simpl.
    destruct (MySQL.auto_delivery_logs db); repeat split.
  - intros db Hoffline.
    unfold setupAutoDeliveryLogsTable, try_catch, bind, ret, MySQL.executeQuery.
    rewrite Hoffline. reflexivity.
Qed.

(** [getStats] only reads: whatever the collaborator does, it sends the
    table check, then at most the statistics query, and nothing else;
    against the database it leaves every state as it found it. *)
Theorem getStats_only_reads :
  (forall (World : Type) (executeQuery : Collaborator World) (w : World),
      let journal := snd (snd (getStats (recorded executeQuery) (w, []))) in
      map statement journal = [TableCheck]
      \/ map statement journal = [TableCheck; StatsQuery])
  /\ (forall db : MySQL.Database,
         snd (getStats MySQL.executeQuery db) = db).
Proof.
  split.
  - intros World executeQuery w.
    unfold getStats, try_catch, bind, ret. rewrite recorded_call.
    destruct (executeQuery TableCheck w) as [[error | tableCheck] w1];
      simpl fst; simpl snd; [left; reflexivity |].
    destruct (or_zero (option_map cnt (hd_error tableCheck)) =? 0);
      [left; reflexivity |].
    rewrite recorded_call.
    destruct (executeQuery StatsQuery w1) as [[error | stats] w2];
      right; reflexivity.
  - intros db.
    unfold getStats, try_catch, bind, ret, MySQL.executeQuery.
    destruct (MySQL.online db) eqn:Hon; [| reflexivity].
    destruct (MySQL.auto_delivery_logs db) eqn:Hlogs; simpl;
      rewrite ?Hon, ?Hlogs; reflexivity.
Qed.

(** An update that reports any number of rows other than one is a skip,
    whatever the collaborator: nothing is pushed and no audit insertion
    is sent.  Against the database this is what happens when two or more
    shipped orders share the id: the update delivers them all, and the
    sweep neither reports nor audits them. *)
Theorem update_of_several_rows_is_not_reported :
  (forall (World : Type) (executeQuery : Collaborator World)
          (order : OrderRow) (w w1 : World) (journal : list Event)
          (l : Locals) (result : ResultSetHeader),
      executeQuery (UpdateDelivered (id order)) w = (inr result, w1) ->
      affectedRows result <> 1 ->
      process_order (recorded executeQuery) order ((w, journal), l)
      = (inr tt,
         ((w1, journal ++ [Called (UpdateDelivered (id order)) (inr result)]),
          l)))
  /\ (forall (db : MySQL.Database) (order : OrderRow) (l : Locals),
         MySQL.online db = true ->
         (2 <= List.length (filter (MySQL.update_matches (id order))
                                   (MySQL.orders db)))%nat ->
         process_order MySQL.executeQuery order (db, l)
         = (inr tt, (MySQL.update_delivered (id order) db, l))
         /\ forall o, In o (MySQL.orders db) ->
                      MySQL.update_matches (id order) o = true ->
                      In (MySQL.set_delivered (MySQL.now db) o)
                         (MySQL.orders (MySQL.update_delivered (id order) db))).
Proof.
  split.
  - intros World executeQuery order w w1 journal l result Hupdate Hother.
    rewrite process_order_run, !recorded_call.
    rewrite Hupdate. cbn [fst snd Reply].
    apply Z.eqb_neq in Hother. rewrite Hother. reflexivity.
  - intros db order l Honline Hmany. split.
    + rewrite process_order_run.
      unfold MySQL.executeQuery at 1. rewrite Honline.
      cbn [affectedRows].
      destruct (Z.of_nat _ =? 1) eqn:E; [| reflexivity].
      apply Z.eqb_eq in E. lia.
    + intros o Hin Hmatch. unfold MySQL.update_delivered. simpl.
      apply in_map_iff. exists o. rewrite Hmatch. auto.
Qed.

(** ** Facts about the address book hook *)

Module AddressesFacts.
Import Addresses.

Section Runs.

Context {W : Type}.
Variable getItem : M W (option string).
Variable fetch : forall req : Request, M W (Response req).

(** [fetchAddresses] for a signed-in user, outcome by outcome. *)
Lemma fetchAddresses_run (h : Hook W) :
  fetchAddresses true true getItem fetch h
  = match getItem (browser h) with
    | (inl err, w1) => (inr tt, load_failed h w1 err)
    | (inr token, w1) =>
        if no_token token then (inr tt, loaded h w1 [])
        else
          match fetch (GetAddresses (interpolate token)) w1 with
          | (inl err, w2) => (inr tt, load_failed h w2 err)
          | (inr (NotOk _), w2) =>
              (inr tt, load_failed h w2 (ErrorObject "Failed to load addresses"))
          | (inr (Ok (inl err)), w2) => (inr tt, load_failed h w2 err)
          | (inr (Ok (inr data)), w2) =>
              (inr tt, loaded h w2 (match data with
                                    | Some list => list
                                    | None => []
                                    end))
          end
    end.
Proof.
  unfold fetchAddresses, try_finally, try_catch, bind, in_browser, ret,
    setLoading, setError, setAddresses, toast, throw, settled,
    load_failed, loaded.
  simpl.
  destruct (getItem (browser h)) as [[err | token] w1]; simpl; [reflexivity |].
  destruct (no_token token); simpl; [reflexivity |].
  destruct (fetch (GetAddresses (interpolate token)) w1)
    as [[err | [[err | data] | json]] w2]; reflexivity.
Qed.

Lemma createAddress_run (addressData : AddressData) (h : Hook W) :
  createAddress true true getItem fetch addressData h
  = let fallback := "Failed to create address" in
    match getItem (browser h) with
    | (inl err, w1) => (inl err, change_failed fallback h w1 err)
    | (inr token, w1) =>
        if no_token token then
          (inl (ErrorObject "Authentication token not found"),
           change_failed fallback h w1
                         (ErrorObject "Authentication token not found"))
        else
          match fetch (PostAddress (interpolate token) addressData) w1 with
          | (inl err, w2) => (inl err, change_failed fallback h w2 err)
          | (inr (NotOk (inl err)), w2) =>
              (inl err, change_failed fallback h w2 err)
          | (inr (NotOk (inr errorData)), w2) =>
              (inl (ErrorObject (or_default (error_text errorData) fallback)),
               change_failed fallback h w2
                 (ErrorObject (or_default (error_text errorData) fallback)))
          | (inr (Ok (inl err)), w2) =>
              (inl err, change_failed fallback h w2 err)
          | (inr (Ok (inr newAddress)), w2) =>
              (inr newAddress,
               changed "Address created successfully"
                       (snd (fetchAddresses true true getItem fetch
                                            (in_flight h w2))))
          end
    end.
Proof.
  unfold createAddress.
  unfold try_finally, try_catch, bind, in_browser, ret,
    setLoading, setError, toast, throw, settled, change_failed, changed, in_flight.
  simpl.
  destruct (getItem (browser h)) as [[err | token] w1]; simpl; [reflexivity |].
  destruct (no_token token); simpl; [reflexivity |].
  destruct (fetch (PostAddress (interpolate token) addressData) w1)
    as [[err | [[err | newAddress] | [err | errorData]]] w2]; simpl;
    try reflexivity.
  rewrite !fetchAddresses_run. cbn [browser].
  destruct (getItem w2) as [[err | token2] w3]; simpl; [reflexivity |].
  destruct (no_token token2); simpl; [reflexivity |].
  destruct (fetch (GetAddresses (interpolate token2)) w3)
    as [[err | [[err | data] | json]] w4]; reflexivity.
Qed.

Lemma updateAddress_run (id : string) (addressData : AddressPatch) (h : Hook W) :
  updateAddress true true getItem fetch id addressData h
  = let fallback := "Failed to update address" in
    match getItem (browser h) with
    | (inl err, w1) => (inl err, change_failed fallback h w1 err)
    | (inr token, w1) =>
        if no_token token then
          (inl (ErrorObject "Authentication token not found"),
           change_failed fallback h w1
                         (ErrorObject "Authentication token not found"))
        else
          match fetch (PutAddress (interpolate token) id addressData) w1 with
          | (inl err, w2) => (inl err, change_failed fallback h w2 err)
          | (inr (NotOk (inl err)), w2) =>
              (inl err, change_failed fallback h w2 err)
          | (inr (NotOk (inr errorData)), w2) =>
              (inl (ErrorObject (or_default (error_text errorData) fallback)),
               change_failed fallback h w2
                 (ErrorObject (or_default (error_text errorData) fallback)))
          | (inr (Ok (inl err)), w2) =>
              (inl err, change_failed fallback h w2 err)
          | (inr (Ok (inr updatedAddress)), w2) =>
              (inr updatedAddress,
               changed "Address updated successfully"
                       (snd (fetchAddresses true true getItem fetch
                                            (in_flight h w2))))
          end
    end.
Proof.
  unfold updateAddress.
  unfold try_finally, try_catch, bind, in_browser, ret,
    setLoading, setError, toast, throw, settled, change_failed, changed, in_flight.
  simpl.
  destruct (getItem (browser h)) as [[err | token] w1]; simpl; [reflexivity |].
  destruct (no_token token); simpl; [reflexivity |].
  destruct (fetch (PutAddress (interpolate token) id addressData) w1)
    as [[err | [[err | updatedAddress] | [err | errorData]]] w2]; simpl;
    try reflexivity.
  rewrite !fetchAddresses_run. cbn [browser].
  destruct (getItem w2) as [[err | token2] w3]; simpl; [reflexivity |].
  destruct (no_token token2); simpl; [reflexivity |].
  destruct (fetch (GetAddresses (interpolate token2)) w3)
    as [[err | [[err | data] | json]] w4]; reflexivity.
Qed.

Lemma deleteAddress_run (id : string) (h : Hook W) :
  deleteAddress true true getItem fetch id h
  = let fallback := "Failed to delete address" in
    match getItem (browser h) with
    | (inl err, w1) => (inl err, change_failed fallback h w1 err)
    | (inr token, w1) =>
        if no_token token then
          (inl (ErrorObject "Authentication token not found"),
           change_failed fallback h w1
                         (ErrorObject "Authentication token not found"))
        else
          match fetch (DeleteAddress (interpolate token) id) w1 with
          | (inl err, w2) => (inl err, change_failed fallback h w2 err)
          | (inr (NotOk (inl err)), w2) =>
              (inl err, change_failed fallback h w2 err)
          | (inr (NotOk (inr errorData)), w2) =>
              (inl (ErrorObject (or_default (error_text errorData) fallback)),
               change_failed fallback h w2
                 (ErrorObject (or_default (error_text errorData) fallback)))
          | (inr (Ok _), w2) =>
              (inr tt,
               changed "Address deleted successfully"
                       (snd (fetchAddresses true true getItem fetch
                                            (in_flight h w2))))
          end
    end.
Proof.
  unfold deleteAddress.
  unfold try_finally, try_catch, bind, in_browser, ret,
    setLoading, setError, toast, throw, settled, change_failed, changed, in_flight.
  simpl.
  destruct (getItem (browser h)) as [[err | token] w1]; simpl; [reflexivity |].
  destruct (no_token token); simpl; [reflexivity |].
  destruct (fetch (DeleteAddress (interpolate token) id) w1)
    as [[err | [json | [err | errorData]]] w2]; simpl;
    try reflexivity.
  rewrite !fetchAddresses_run. cbn [browser].
  destruct (getItem w2) as [[err | token2] w3]; simpl; [reflexivity |].
  destruct (no_token token2); simpl; [reflexivity |].
  destruct (fetch (GetAddresses (interpolate token2)) w3)
    as [[err | [[err | data] | json2]] w4]; reflexivity.
Qed.

End Runs.

End AddressesFacts.

(** [getDefaultAddress] answers [null] exactly for the empty list, which
    is exactly when [hasAddresses] is false. *)
Theorem getDefaultAddress_is_null_only_without_addresses
        (addresses : list Addresses.Address) :
  (Addresses.getDefaultAddress addresses = None <-> addresses = [])
  /\ (Addresses.hasAddresses addresses = false
      <-> Addresses.getDefaultAddress addresses = None).
Proof.
  unfold Addresses.getDefaultAddress, Addresses.hasAddresses.
  destruct addresses as [| first rest]; simpl.
  - split; split; auto.
  - destruct (Addresses.is_default first);
      [| destruct (find Addresses.is_default rest)];
      split; split; intros H; discriminate H.
Qed.

(** The address [getDefaultAddress] picks is one of the list: the first
    one flagged [is_default], with none flagged before it, or, when no
    address is flagged at all, the first of the list. *)
Theorem getDefaultAddress_picks_first_default_else_first
        (addresses : list Addresses.Address) (addr : Addresses.Address) :
  Addresses.getDefaultAddress addresses = Some addr ->
  In addr addresses
  /\ (Addresses.is_default addr = true ->
      exists before after,
        addresses = before ++ addr :: after
        /\ Forall (fun a => Addresses.is_default a = false) before)
  /\ (Addresses.is_default addr = false ->
      hd_error addresses = Some addr
      /\ Forall (fun a => Addresses.is_default a = false) addresses).
Proof.
  unfold Addresses.getDefaultAddress.
  assert (forall l a, find Addresses.is_default l = Some a ->
            Addresses.is_default a = true
            /\ exists before after,
                 l = before ++ a :: after
                 /\ Forall (fun x => Addresses.is_default x = false) before)
    as Hfound.
  { induction l as [| x l IH]; simpl; intros a H; [discriminate |].
    destruct (Addresses.is_default x) eqn:Ex.
    - injection H as <-. split; [exact Ex |]. exists [], l. auto.
    - destruct (IH a H) as (Ha & before & after & -> & Hbefore).
      split; [exact Ha |]. exists (x :: before), after. auto. }
  assert (forall l, find Addresses.is_default l = None ->
            Forall (fun x => Addresses.is_default x = false) l) as Hnone.
  { induction l as [| x l IH]; simpl; intros H; [constructor |].
    destruct (Addresses.is_default x) eqn:Ex; [discriminate |]. auto. }
  destruct (find Addresses.is_default addresses) as [found |] eqn:Efind.
  - intros H. injection H as <-.
    destruct (Hfound _ _ Efind) as (Hflag & before & after & -> & Hbefore).
    split; [apply in_elt |].
    split; [intros _; exists before, after; auto |].
    intros H. congruence.
  - destruct addresses as [| first rest]; [discriminate |].
    intros H. injection H as <-.
    split; [left; reflexivity |].
    pose proof (Hnone _ Efind) as Hall.
    split; [| intros _; auto].
    intros Hflag. inversion Hall; subst. congruence.
Qed.

(** [fetchAddresses] never throws.  Without a signed-in user or a ready
    token it empties the list and touches nothing else: no request goes
    out, and [loading], [error] and the toasts stay as they were.
    Otherwise it always ends with [loading] false. *)
Theorem fetchAddresses_never_throws_and_stops_loading
        {W : Type} (user tokenReady : bool)
        (getItem : M W (option string))
        (fetch : forall req : Addresses.Request, M W (Addresses.Response req))
        (h : Addresses.Hook W) :
  exists h' : Addresses.Hook W,
    Addresses.fetchAddresses user tokenReady getItem fetch h = (inr tt, h')
    /\ (user && tokenReady = true ->
        Addresses.loading (Addresses.cells h') = false)
    /\ (user && tokenReady = false ->
        h' = {| Addresses.browser := Addresses.browser h;
                Addresses.cells :=
                  {| Addresses.addresses := [];
                     Addresses.loading := Addresses.loading (Addresses.cells h);
                     Addresses.error := Addresses.error (Addresses.cells h) |};
                Addresses.toasts := Addresses.toasts h |}).
Proof.
  destruct user, tokenReady; simpl;
    try (eexists; split; [reflexivity |]; split; [discriminate | reflexivity]).
  rewrite AddressesFacts.fetchAddresses_run.
  destruct (getItem (Addresses.browser h)) as [[err | token] w1];
    [eexists; split; [reflexivity |]; split; [reflexivity | discriminate] |].
  destruct (Addresses.no_token token);
    [eexists; split; [reflexivity |]; split; [reflexivity | discriminate] |].
  destruct (fetch (Addresses.GetAddresses (Addresses.interpolate token)) w1)
    as [[err | [[err | data] | json]] w2];
    eexists; (split; [reflexivity |]); (split; [reflexivity | discriminate]).
Qed.

(** For a signed-in user a load ends in one of two ways.  Either it
    went through, or found no token: [error] is null, no toast was
    added (and without a token the list is empty).  Or it failed:
    the list is as it was, [error] holds a message and exactly one
    destructive toast with that message was added; the message is
    "Failed to load addresses" when the response was not ok. *)
Theorem fetchAddresses_fails_without_losing_the_list
        {W : Type} (getItem : M W (option string))
        (fetch : forall req : Addresses.Request, M W (Addresses.Response req))
        (h : Addresses.Hook W) :
  let h' := snd (Addresses.fetchAddresses true true getItem fetch h) in
  ((Addresses.error (Addresses.cells h') = None
    /\ Addresses.toasts h' = Addresses.toasts h)
   \/ (exists msg : string,
          Addresses.error (Addresses.cells h') = Some msg
          /\ Addresses.toasts h'
             = Addresses.toasts h ++ [Addresses.error_toast msg]
          /\ Addresses.addresses (Addresses.cells h')
             = Addresses.addresses (Addresses.cells h)))
  /\ (forall token w1,
         getItem (Addresses.browser h) = (inr token, w1) ->
         Addresses.no_token token = true ->
         h' = Addresses.loaded h w1 [])
  /\ (forall token w1 json w2,
         getItem (Addresses.browser h) = (inr token, w1) ->
         Addresses.no_token token = false ->
         fetch (Addresses.GetAddresses (Addresses.interpolate token)) w1
         = (inr (Addresses.NotOk json), w2) ->
         h' = Addresses.load_failed
                h w2 (ErrorObject "Failed to load addresses")).
Proof.
  intros h'. subst h'. rewrite AddressesFacts.fetchAddresses_run.
  split; [| split].
  - destruct (getItem (Addresses.browser h)) as [[err | token] w1];
      [right; eexists; simpl; auto |].
    destruct (Addresses.no_token token); [left; simpl; auto |].
    destruct (fetch (Addresses.GetAddresses (Addresses.interpolate token)) w1)
      as [[err | [[err | data] | json]] w2];
      solve [left; simpl; auto | right; eexists; simpl; auto].
  - intros token w1 Hget Hnone. rewrite Hget, Hnone. reflexivity.
  - intros token w1 json w2 Hget Hsome Hfetch.
    rewrite Hget, Hsome, Hfetch. reflexivity.
Qed.

Module ChangeFacts.
Import Addresses.

(** What a reload leaves, put after a request that went through. *)
Lemma reload_then_success {W A : Type} (getItem : M W (option string))
      (fetch : forall req : Request, M W (Response req))
      (fallback text : string) (h : Hook W) (w : W) (a : A) :
  change_settled fallback text h
    (inr a, changed text (snd (fetchAddresses true true getItem fetch
                                              (in_flight h w)))).
Proof.
  unfold change_settled. simpl fst. cbv iota. simpl snd.
  split; [reflexivity |].
  rewrite AddressesFacts.fetchAddresses_run. cbn [browser in_flight].
  assert (forall w' err,
             exists msg : string,
               error (cells (changed text (load_failed (in_flight h w) w' err)))
               = Some msg
               /\ toasts (changed text (load_failed (in_flight h w) w' err))
                  = toasts h ++ [error_toast msg; success_toast text]
               /\ addresses (cells (changed text
                                      (load_failed (in_flight h w) w' err)))
                  = addresses (cells h)) as Hfailed.
  { intros w' err. eexists. simpl. rewrite <- app_assoc. auto. }
  destruct (getItem w) as [[err | token] w1]; [right; apply Hfailed |].
  destruct (no_token token); [left; simpl; auto |].
  destruct (fetch (GetAddresses (interpolate token)) w1)
    as [[err | [[err | data] | json]] w2];
    solve [left; simpl; auto | right; apply Hfailed].
Qed.

End ChangeFacts.

(** Each of [createAddress], [updateAddress] and [deleteAddress], for a
    signed-in user and whatever the browser and the server do, ends
    with [loading] false.  When it throws, the message of what it throws
    (or its own fallback text) is in [error] and in one destructive
    toast, and the list is as it was.  When it returns, its success
    toast is the last one, after at most the error toast of a failed
    reload. *)
Theorem changes_settle_with_error_or_success
        {W : Type} (getItem : M W (option string))
        (fetch : forall req : Addresses.Request, M W (Addresses.Response req))
        (h : Addresses.Hook W) :
  (forall addressData,
      Addresses.change_settled
        "Failed to create address" "Address created successfully" h
        (Addresses.createAddress true true getItem fetch addressData h))
  /\ (forall id addressData,
         Addresses.change_settled
           "Failed to update address" "Address updated successfully" h
           (Addresses.updateAddress true true getItem fetch id addressData h))
  /\ (forall id,
         Addresses.change_settled
           "Failed to delete address" "Address deleted successfully" h
           (Addresses.deleteAddress true true getItem fetch id h)).
Proof.
  split; [| split].
  - intros addressData. rewrite AddressesFacts.createAddress_run. cbv zeta.
    destruct (getItem (Addresses.browser h)) as [[err | token] w1];
      [reflexivity |].
    destruct (Addresses.no_token token); [reflexivity |].
    destruct (fetch _ w1) as [[err | [[err | a] | [err | errorData]]] w2];
      try reflexivity.
    apply ChangeFacts.reload_then_success.
  - intros id addressData. rewrite AddressesFacts.updateAddress_run. cbv zeta.
    destruct (getItem (Addresses.browser h)) as [[err | token] w1];
      [reflexivity |].
    destruct (Addresses.no_token token); [reflexivity |].
    destruct (fetch _ w1) as [[err | [[err | a] | [err | errorData]]] w2];
      try reflexivity.
    apply ChangeFacts.reload_then_success.
  - intros id. rewrite AddressesFacts.deleteAddress_run. cbv zeta.
    destruct (getItem (Addresses.browser h)) as [[err | token] w1];
      [reflexivity |].
    destruct (Addresses.no_token token); [reflexivity |].
    destruct (fetch _ w1) as [[err | [json | [err | errorData]]] w2];
      try reflexivity.
    apply ChangeFacts.reload_then_success.
Qed.

(** Without a signed-in user or a ready token a change throws "User not
    authenticated" and leaves the hook exactly as it was.  Signed in but
    with no token stored (or an empty one) it throws "Authentication
    token not found" without sending a request: the browser is as the
    token lookup left it, and [error] and one toast carry that text. *)
Theorem changes_refuse_without_credentials
        {W : Type} (user tokenReady : bool) (getItem : M W (option string))
        (fetch : forall req : Addresses.Request, M W (Addresses.Response req))
        (h : Addresses.Hook W) :
  (user && tokenReady = false ->
   (forall addressData,
       Addresses.createAddress user tokenReady getItem fetch addressData h
       = (inl (ErrorObject "User not authenticated"), h))
   /\ (forall id addressData,
          Addresses.updateAddress user tokenReady getItem fetch id addressData h
          = (inl (ErrorObject "User not authenticated"), h))
   /\ (forall id,
          Addresses.deleteAddress user tokenReady getItem fetch id h
          = (inl (ErrorObject "User not authenticated"), h)))
  /\ (forall token w1,
         getItem (Addresses.browser h) = (inr token, w1) ->
         Addresses.no_token token = true ->
         let missing := ErrorObject "Authentication token not found" in
         (forall addressData,
             Addresses.createAddress true true getItem fetch addressData h
             = (inl missing,
                Addresses.change_failed "Failed to create address" h w1 missing))
         /\ (forall id addressData,
                Addresses.updateAddress true true getItem fetch id addressData h
                = (inl missing,
                   Addresses.change_failed "Failed to update address" h w1 missing))
         /\ (forall id,
                Addresses.deleteAddress true true getItem fetch id h
                = (inl missing,
                   Addresses.change_failed "Failed to delete address" h w1 missing))).
Proof.
  split.
  - intros Hauth.
    unfold Addresses.createAddress, Addresses.updateAddress,
      Addresses.deleteAddress.
    replace (negb user || negb tokenReady) with true
      by (destruct user, tokenReady; simpl in *; congruence).
    repeat split.
  - intros token w1 Hget Hnone missing.
    split; [| split]; intros.
    + rewrite AddressesFacts.createAddress_run, Hget, Hnone. reflexivity.
    + rewrite AddressesFacts.updateAddress_run, Hget, Hnone. reflexivity.
    + rewrite AddressesFacts.deleteAddress_run, Hget, Hnone. reflexivity.
Qed.

(** When the server turns a change down with a JSON body, the change
    throws an [Error] whose message is the body's [error] text, or its
    own fallback text when the body has none or an empty one, and that
    message is what [error] and the toast show. *)
Theorem rejected_change_throws_the_server_error_text
        {W : Type} (getItem : M W (option string))
        (fetch : forall req : Addresses.Request, M W (Addresses.Response req))
        (h : Addresses.Hook W) (token : option string) (w1 w2 : W)
        (errorData : Addresses.ErrorBody) :
  getItem (Addresses.browser h) = (inr token, w1) ->
  Addresses.no_token token = false ->
  let thrown fallback :=
    ErrorObject (Addresses.or_default (Addresses.error_text errorData) fallback) in
  (forall addressData,
      fetch (Addresses.PostAddress (Addresses.interpolate token) addressData) w1
      = (inr (Addresses.NotOk (inr errorData)), w2) ->
      Addresses.createAddress true true getItem fetch addressData h
      = (inl (thrown "Failed to create address"),
         Addresses.change_failed "Failed to create address" h w2
                                 (thrown "Failed to create address")))
  /\ (forall id addressData,
         fetch (Addresses.PutAddress (Addresses.interpolate token) id addressData) w1
         = (inr (Addresses.NotOk (inr errorData)), w2) ->
         Addresses.updateAddress true true getItem fetch id addressData h
         = (inl (thrown "Failed to update address"),
            Addresses.change_failed "Failed to update address" h w2
                                    (thrown "Failed to update address")))
  /\ (forall id,
         fetch (Addresses.DeleteAddress (Addresses.interpolate token) id) w1
         = (inr (Addresses.NotOk (inr errorData)), w2) ->
         Addresses.deleteAddress true true getItem fetch id h
         = (inl (thrown "Failed to delete address"),
            Addresses.change_failed "Failed to delete address" h w2
                                    (thrown "Failed to delete address")))
  /\ (forall (text fallback : string),
         Addresses.error_text errorData = Some text -> text <> "" ->
         thrown fallback = ErrorObject text)
  /\ (forall fallback : string,
         Addresses.error_text errorData = None
         \/ Addresses.error_text errorData = Some "" ->
         thrown fallback = ErrorObject fallback).
Proof.
  intros Hget Hsome thrown.
  split; [| split; [| split; [| split]]].
  - intros addressData Hfetch.
    rewrite AddressesFacts.createAddress_run, Hget, Hsome, Hfetch. reflexivity.
  - intros id addressData Hfetch.
    rewrite AddressesFacts.updateAddress_run, Hget, Hsome, Hfetch. reflexivity.
  - intros id Hfetch.
    rewrite AddressesFacts.deleteAddress_run, Hget, Hsome, Hfetch. reflexivity.
  - intros text fallback Htext Hne. unfold thrown. rewrite Htext. simpl.
    apply String.eqb_neq in Hne. rewrite Hne. reflexivity.
  - intros fallback [Htext | Htext]; unfold thrown; rewrite Htext; reflexivity.
Qed.

(** When the server accepts a change, the change returns what the server
    sent (for a deletion, nothing), whatever the reload that follows
    does: the hook ends as the reload leaves it, run from a hook that is
    loading with no error, with [loading] false again and the success
    toast added.  So when the reload is turned down, the change still
    returns, the list is the old one, [error] reads "Failed to load
    addresses", and the error toast is followed by the success toast. *)
Theorem accepted_change_returns_even_if_the_reload_fails
        {W : Type} (getItem : M W (option string))
        (fetch : forall req : Addresses.Request, M W (Addresses.Response req))
        (h : Addresses.Hook W) (token : option string) (w1 w2 : W) :
  getItem (Addresses.browser h) = (inr token, w1) ->
  Addresses.no_token token = false ->
  let reloaded :=
    snd (Addresses.fetchAddresses true true getItem fetch
                                  (Addresses.in_flight h w2)) in
  (forall addressData newAddress,
      fetch (Addresses.PostAddress (Addresses.interpolate token) addressData) w1
      = (inr (Addresses.Ok (inr newAddress)), w2) ->
      Addresses.createAddress true true getItem fetch addressData h
      = (inr newAddress,
         Addresses.changed "Address created successfully" reloaded))
  /\ (forall id addressData updatedAddress,
         fetch (Addresses.PutAddress (Addresses.interpolate token) id addressData) w1
         = (inr (Addresses.Ok (inr updatedAddress)), w2) ->
         Addresses.updateAddress true true getItem fetch id addressData h
         = (inr updatedAddress,
            Addresses.changed "Address updated successfully" reloaded))
  /\ (forall id json,
         fetch (Addresses.DeleteAddress (Addresses.interpolate token) id) w1
         = (inr (Addresses.Ok json), w2) ->
         Addresses.deleteAddress true true getItem fetch id h
         = (inr tt, Addresses.changed "Address deleted successfully" reloaded))
  /\ (forall token2 w3 json w4 text,
         getItem w2 = (inr token2, w3) ->
         Addresses.no_token token2 = false ->
         fetch (Addresses.GetAddresses (Addresses.interpolate token2)) w3
         = (inr (Addresses.NotOk json), w4) ->
         Addresses.changed text reloaded
         = {| Addresses.browser := w4;
              Addresses.cells :=
                {| Addresses.addresses := Addresses.addresses (Addresses.cells h);
                   Addresses.loading := false;
                   Addresses.error := Some "Failed to load addresses" |};
              Addresses.toasts :=
                Addresses.toasts h
                  ++ [Addresses.error_toast "Failed to load addresses";
                      Addresses.success_toast text] |}).
Proof.
  intros Hget Hsome reloaded.
  split; [| split; [| split]]; [| | |
    intros token2 w3 json w4 text Hget2 Hsome2 Hfetch2; subst reloaded;
    rewrite AddressesFacts.fetchAddresses_run; cbn [Addresses.browser Addresses.in_flight];
    rewrite Hget2, Hsome2, Hfetch2;
    unfold Addresses.changed, Addresses.load_failed; simpl;
    rewrite <- app_assoc; reflexivity].
  - intros addressData newAddress Hfetch.
    rewrite AddressesFacts.createAddress_run, Hget, Hsome, Hfetch. reflexivity.
  - intros id addressData updatedAddress Hfetch.
    rewrite AddressesFacts.updateAddress_run, Hget, Hsome, Hfetch. reflexivity.
  - intros id json Hfetch.
    rewrite AddressesFacts.deleteAddress_run, Hget, Hsome, Hfetch. reflexivity.
Qed.

(** ** Facts about the schema import script *)

Module ImportFacts.
Import ImportScript.

Lemma split_not_nil (s : Text) : split s <> [].
Proof.
  destruct s as [| c rest]; simpl; [discriminate |].
  destruct (c =? 59)%N; [discriminate |].
  destruct (split rest); discriminate.
Qed.

Lemma split_no_semicolon (s : Text) :
  Forall (fun piece => ~ In 59%N piece) (split s).
Proof.
  induction s as [| c rest IH]; simpl.
  - constructor; [intros [] | constructor].
  - destruct (c =? 59)%N eqn:E.
    + constructor; [intros [] | exact IH].
    + destruct (split rest) as [| piece pieces]; [repeat constructor |].
      * intros [H | []]. apply N.eqb_neq in E. congruence.
      * inversion IH; subst. constructor; [| assumption].
        intros [H | H]; [apply N.eqb_neq in E; congruence | auto].
Qed.

Lemma split_app (a b : Text) :
  split (a ++ 59%N :: b) = split a ++ split b.
Proof.
  induction a as [| c rest IH]; simpl; [reflexivity |].
  destruct (c =? 59)%N; [rewrite IH; reflexivity |].
  rewrite IH.
  pose proof (split_not_nil rest) as Hne.
  destruct (split rest); [contradiction | reflexivity].
Qed.

Lemma replace_crlf_two (c c' : N) (rest : Text) :
  replace_crlf (c :: c' :: rest)
  = if ((c =? 13) && (c' =? 10))%N then 10%N :: replace_crlf rest
    else c :: replace_crlf (c' :: rest).
Proof. reflexivity. Qed.

Lemma strip_code_two (c c' : N) (rest : Text) :
  strip_line_comments false (c :: c' :: rest)
  = if ((c =? 45) && (c' =? 45))%N then strip_line_comments true rest
    else c :: strip_line_comments false (c' :: rest).
Proof. reflexivity. Qed.

Lemma strip_comment_one (c : N) (rest : Text) :
  strip_line_comments true (c :: rest)
  = if is_line_terminator c then c :: strip_line_comments false rest
    else strip_line_comments true rest.
Proof. reflexivity. Qed.

Lemma has_double_hyphen_two (c c' : N) (rest : Text) :
  has_double_hyphen (c :: c' :: rest)
  = ((c =? 45) && (c' =? 45))%N || has_double_hyphen (c' :: rest).
Proof. reflexivity. Qed.

Lemma replace_crlf_app (a b : Text) :
  replace_crlf (a ++ 59%N :: b) = replace_crlf a ++ 59%N :: replace_crlf b.
Proof.
  assert (forall n a, (List.length a <= n)%nat ->
            replace_crlf (a ++ 59%N :: b)
            = replace_crlf a ++ 59%N :: replace_crlf b) as H.
  { induction n as [| n IH]; intros a0 Hlen.
    - destruct a0; [| simpl in Hlen; lia].
      destruct b as [| c' b']; reflexivity.
    - destruct a0 as [| c [| c' rest]].
      + destruct b as [| c' b']; reflexivity.
      + change ([c] ++ 59%N :: b) with (c :: 59%N :: b).
        rewrite replace_crlf_two, andb_false_r.
        destruct b as [| c' b']; reflexivity.
      + change ((c :: c' :: rest) ++ 59%N :: b)
          with (c :: c' :: (rest ++ 59%N :: b)).
        rewrite !replace_crlf_two.
        destruct ((c =? 13) && (c' =? 10))%N.
        * rewrite IH by (simpl in *; lia). reflexivity.
        * change (c' :: rest ++ 59%N :: b) with ((c' :: rest) ++ 59%N :: b).
          rewrite IH by (simpl in *; lia). reflexivity. }
  apply (H (List.length a)). lia.
Qed.

(** Stripping comments keeps what it keeps in place and adds nothing. *)
Lemma strip_line_comments_In (s : Text) :
  forall (in_comment : bool) (c : N),
    In c (strip_line_comments in_comment s) -> In c s.
Proof.
  assert (forall n s, (List.length s <= n)%nat ->
            forall in_comment c,
              In c (strip_line_comments in_comment s) -> In c s) as H.
  { induction n as [| n IH]; intros s0 Hlen in_comment c.
    - destruct s0; [intros [] | simpl in Hlen; lia].
    - destruct s0 as [| x rest]; [intros [] |].
      simpl in Hlen. destruct in_comment.
      + rewrite strip_comment_one.
        destruct (is_line_terminator x).
        * intros [-> | Hin]; [left; reflexivity |].
          right. apply (IH rest) in Hin; [assumption | lia].
        * intros Hin. right. apply (IH rest) in Hin; [assumption | lia].
      + destruct rest as [| x' rest']; [auto |].
        rewrite strip_code_two.
        destruct ((x =? 45) && (x' =? 45))%N.
        * intros Hin. right. right.
          apply (IH rest') in Hin; [assumption | simpl in Hlen; lia].
        * intros [-> | Hin]; [left; reflexivity |].
          right. apply (IH (x' :: rest')) in Hin; [assumption | lia]. }
  intros in_comment c. apply (H (List.length s)). lia.
Qed.

Lemma has_double_hyphen_cons (c : N) (s : Text) :
  c <> 45%N -> has_double_hyphen (c :: s) = has_double_hyphen s.
Proof.
  intros Hc. simpl. destruct s as [| c' rest]; [reflexivity |].
  apply N.eqb_neq in Hc. rewrite Hc. reflexivity.
Qed.

Lemma line_terminator_not_hyphen (c : N) :
  is_line_terminator c = true -> c <> 45%N.
Proof. intros H ->. discriminate H. Qed.

(** After stripping, no two hyphens are left in a row. *)
Lemma strip_line_comments_no_double_hyphen (s : Text) :
  forall in_comment : bool,
    has_double_hyphen (strip_line_comments in_comment s) = false.
Proof.
  assert (forall n s, (List.length s <= n)%nat ->
            forall in_comment,
              has_double_hyphen (strip_line_comments in_comment s) = false) as H.
  { induction n as [| n IH]; intros s0 Hlen in_comment.
    - destruct s0; [destruct in_comment; reflexivity | simpl in Hlen; lia].
    - destruct s0 as [| x rest]; [destruct in_comment; reflexivity |].
      simpl in Hlen. destruct in_comment.
      + rewrite strip_comment_one.
        destruct (is_line_terminator x) eqn:Ex.
        * rewrite has_double_hyphen_cons
            by (apply line_terminator_not_hyphen; exact Ex).
          apply IH. lia.
        * apply IH. lia.
      + destruct rest as [| x' rest']; [reflexivity |].
        rewrite strip_code_two.
        destruct ((x =? 45) && (x' =? 45))%N eqn:Edd.
        * apply IH. simpl in Hlen. lia.
        * pose proof (IH (x' :: rest') ltac:(simpl in *; lia) false) as Hrest.
          destruct rest' as [| x'' rest''].
          -- simpl. rewrite Edd. reflexivity.
          -- rewrite strip_code_two in Hrest |- *.
             destruct ((x' =? 45) && (x'' =? 45))%N eqn:Edd'.
             ++ (* the next two open a comment: [x'] is a hyphen, so [x]
                   is not *)
                apply andb_prop in Edd' as [Ex' _].
                rewrite Ex', andb_true_r in Edd.
                apply N.eqb_neq in Edd.
                rewrite has_double_hyphen_cons by exact Edd. exact Hrest.
             ++ rewrite has_double_hyphen_two, Edd. exact Hrest. }
  intros in_comment. apply (H (List.length s)). lia.
Qed.

Lemma trim_start_suffix (s : Text) :
  exists blanks : Text, s = blanks ++ trim_start s.
Proof.
  induction s as [| c rest [blanks IH]]; simpl.
  - exists []. reflexivity.
  - destruct (is_blank c).
    + exists (c :: blanks). simpl. rewrite <- IH. reflexivity.
    + exists []. reflexivity.
Qed.

Lemma trim_start_head (s : Text) (c : N) :
  hd_error (trim_start s) = Some c -> is_blank c = false.
Proof.
  induction s as [| x rest IH]; simpl; [discriminate |].
  destruct (is_blank x) eqn:Ex; [exact IH |].
  simpl. intros H. injection H as <-. exact Ex.
Qed.

(** [trim] cuts blanks off both ends and nothing else. *)
Lemma trim_middle (s : Text) :
  exists before after : Text, s = before ++ trim s ++ after.
Proof.
  unfold trim.
  destruct (trim_start_suffix s) as [before Hs].
  destruct (trim_start_suffix (rev (trim_start s))) as [after Hr].
  exists before, (rev after).
  rewrite Hs at 1. f_equal.
  rewrite <- rev_app_distr, <- Hr, rev_involutive. reflexivity.
Qed.

Lemma has_double_hyphen_app (a b : Text) :
  has_double_hyphen (a ++ b) = false ->
  has_double_hyphen a = false /\ has_double_hyphen b = false.
Proof.
  induction a as [| c rest IH]; [simpl; auto |].
  destruct rest as [| c' rest'].
  - simpl. destruct b as [| c' b']; [auto |].
    intros H. apply orb_false_elim in H as [_ H]. auto.
  - change ((c :: c' :: rest') ++ b) with (c :: c' :: (rest' ++ b)).
    rewrite !has_double_hyphen_two.
    change (c' :: rest' ++ b) with ((c' :: rest') ++ b).
    intros H. apply orb_false_elim in H as [H1 H2].
    destruct (IH H2) as [Ha Hb]. rewrite H1, Ha. auto.
Qed.

Lemma trim_ends (s : Text) :
  (forall c, hd_error (trim s) = Some c -> is_blank c = false)
  /\ (forall c, hd_error (rev (trim s)) = Some c -> is_blank c = false).
Proof.
  unfold trim. split.
  - intros c H.
    destruct (trim_start_suffix (rev (trim_start s))) as [blanks Hr].
    set (u := trim_start (rev (trim_start s))) in *.
    (* the head of [rev u] is the last of [u], which is the last of
       [rev (trim_start s)], the head of [trim_start s] *)
    assert (hd_error (trim_start s) = Some c) as Hhead.
    { apply (f_equal (@rev N)) in Hr. rewrite rev_involutive, rev_app_distr in Hr.
      rewrite Hr. destruct (rev u); [discriminate |].
      simpl in H |- *. exact H. }
    apply (trim_start_head s). exact Hhead.
  - intros c H. rewrite rev_involutive in H.
    apply (trim_start_head (rev (trim_start s))). exact H.
Qed.

End ImportFacts.

(** Every setting of the import script's configuration comes from its
    [MYSQL_*] variable when that is set and not empty, else from its
    [DB_*] variable when that is set and not empty, else from the
    default.  So the host, user and database name, and the text given to
    [parseInt] for the port, are never empty.  SSL is on exactly when
    [MYSQL_SSL] or [DB_SSL] is the text [true]. *)
Theorem cfg_prefers_MYSQL_then_DB_then_default
        {Port : Type} (parseInt : string -> Port) (env : string -> option string) :
  let c := ImportScript.cfg parseInt env in
  ImportScript.resolved (env "MYSQL_HOST") (env "DB_HOST") "localhost"
                        (ImportScript.host c)
  /\ ImportScript.resolved (env "MYSQL_USER") (env "DB_USER") "root"
                           (ImportScript.user c)
  /\ ImportScript.resolved (env "MYSQL_PASSWORD") (env "DB_PASSWORD") ""
                           (ImportScript.password c)
  /\ ImportScript.resolved (env "MYSQL_DATABASE") (env "DB_NAME") "gkicks"
                           (ImportScript.database c)
  /\ (exists text,
         ImportScript.port c = parseInt text
         /\ ImportScript.resolved (env "MYSQL_PORT") (env "DB_PORT") "3306" text
         /\ text <> "")
  /\ ImportScript.host c <> ""
  /\ ImportScript.user c <> ""
  /\ ImportScript.database c <> ""
  /\ (ImportScript.sslEnabled c = true
      <-> env "MYSQL_SSL" = Some "true" \/ env "DB_SSL" = Some "true").
Proof.
  assert (forall a b fallback,
             ImportScript.resolved
               a b fallback
               (ImportScript.or_env a (ImportScript.or_env b fallback)))
    as Hresolved.
  { intros a b fallback. unfold ImportScript.resolved, ImportScript.or_env.
    split; [| split].
    - intros v -> Hv. apply String.eqb_neq in Hv. rewrite Hv. reflexivity.
    - intros [-> | ->] v -> Hv; apply String.eqb_neq in Hv; simpl;
        rewrite Hv; reflexivity.
    - intros [-> | ->] [-> | ->]; reflexivity. }
  assert (forall a b fallback,
             fallback <> "" ->
             ImportScript.or_env a (ImportScript.or_env b fallback) <> "")
    as Hfull.
  { intros a b fallback Hf. unfold ImportScript.or_env.
    destruct a as [s |]; [destruct (s =? "")%string eqn:Es |];
      try (apply String.eqb_neq; exact Es);
      (destruct b as [t |]; [destruct (t =? "")%string eqn:Et |]);
      try (apply String.eqb_neq; exact Et); exact Hf. }
  assert (forall x, ImportScript.is_true x = true <-> x = Some "true") as Htrue.
  { intros [s |]; simpl; [| split; discriminate].
    rewrite String.eqb_eq. split; congruence. }
  intros c. subst c. unfold ImportScript.cfg. simpl.
  repeat (split; [apply Hresolved |]).
  split.
  { exists (ImportScript.port_text env). split; [reflexivity |].
    split; [apply Hresolved | apply Hfull; discriminate]. }
  repeat (split; [apply Hfull; discriminate |]).
  rewrite orb_true_iff, !Htrue. reflexivity.
Qed.

(** Every statement the script will send is a piece of the text between
    two semicolons with its line comments and the blanks at its ends
    removed: it is not empty, starts and ends with a unit that is not
    blank, and holds no semicolon and no two hyphens in a row. *)
Theorem statements_are_trimmed_and_free_of_comments
        (raw stmt : ImportScript.Text) :
  In stmt (ImportScript.statements raw) ->
  stmt <> []
  /\ (forall c, hd_error stmt = Some c -> ImportScript.is_blank c = false)
  /\ (forall c, hd_error (rev stmt) = Some c -> ImportScript.is_blank c = false)
  /\ ~ In ImportScript.SEMICOLON stmt
  /\ ImportScript.has_double_hyphen stmt = false.
Proof.
  unfold ImportScript.statements. intros Hin.
  apply filter_In in Hin as [Hin Hne].
  apply in_map_iff in Hin as (piece & <- & Hpiece).
  destruct (ImportFacts.trim_ends
              (ImportScript.strip_line_comments false piece)) as [Hhead Hlast].
  destruct (ImportFacts.trim_middle
              (ImportScript.strip_line_comments false piece))
    as (before & after & Hmiddle).
  split; [intros E; rewrite E in Hne; discriminate |].
  split; [exact Hhead |]. split; [exact Hlast |]. split.
  - intros Hsemi.
    pose proof (ImportFacts.split_no_semicolon (ImportScript.replace_crlf raw))
      as Hall.
    rewrite Forall_forall in Hall. apply (Hall piece Hpiece).
    apply (ImportFacts.strip_line_comments_In piece false).
    rewrite Hmiddle. apply in_or_app. right. apply in_or_app. left. exact Hsemi.
  - pose proof (ImportFacts.strip_line_comments_no_double_hyphen piece false)
      as Hnone.
    rewrite Hmiddle in Hnone.
    apply ImportFacts.has_double_hyphen_app in Hnone as [_ Hnone].
    apply ImportFacts.has_double_hyphen_app in Hnone as [Hnone _].
    exact Hnone.
Qed.

(** The text is cut at every semicolon, wherever it stands: the
    statements of a text are those of what is before any one semicolon
    followed by those of what is after it.  So a semicolon inside a
    quoted value or inside a comment cuts as well. *)
Theorem statements_are_cut_at_every_semicolon (before after : ImportScript.Text) :
  ImportScript.statements (before ++ ImportScript.SEMICOLON :: after)
  = ImportScript.statements before ++ ImportScript.statements after.
Proof.
  unfold ImportScript.statements, ImportScript.SEMICOLON.
  rewrite ImportFacts.replace_crlf_app, ImportFacts.split_app.
  rewrite map_app, filter_app. reflexivity.
Qed.

Module ImportRunFacts.
Import ImportScript.

Section Runs.

Context {Port W : Type}.
Variable c : Config Port.
Variable io : Io Port W.

Lemma recorded_io_call (op : Op Port) (w : W) (journal : list (IoEvent Port)) :
  recorded_io io op (w, journal)
  = (fst (io op w), (snd (io op w), journal ++ [Did op (fst (io op w))])).
Proof. unfold recorded_io. destruct (io op w); reflexivity. Qed.

Lemma run_statement_run {V : Type} (io' : Io Port V) (stmt : Text) (v : V)
      (l : ScriptLocals) :
  run_statement io' stmt (v, l)
  = (match fst (io' (ConnectionQuery stmt) v) with
     | inl err => inl err
     | inr _ => inr tt
     end, (snd (io' (ConnectionQuery stmt) v), l)).
Proof.
  unfold run_statement, try_catch, bind, lift, ret, throw.
  destruct (io' (ConnectionQuery stmt) v) as [[err | u] v1]; reflexivity.
Qed.

(** The loop either sends every statement, or stops at the first one
    that fails. *)
Lemma for_of_run_statement (stmts : list Text) :
  forall (w : W) (journal : list (IoEvent Port)) (l : ScriptLocals),
    (exists w' : W,
        for_of stmts (run_statement (recorded_io io)) ((w, journal), l)
        = (inr tt, ((w', journal ++ map sent stmts), l))
        /\ for_of stmts (run_statement io) (w, l) = (inr tt, (w', l)))
    \/ (exists (done : list Text) (stmt : Text) (rest : list Text)
               (err : Thrown) (w' : W),
           stmts = done ++ stmt :: rest
           /\ for_of stmts (run_statement (recorded_io io)) ((w, journal), l)
              = (inl err,
                 ((w', journal ++ map sent done
                                ++ [Did (ConnectionQuery stmt) (inl err)]), l))
           /\ for_of stmts (run_statement io) (w, l) = (inl err, (w', l))).
Proof.
  induction stmts as [| stmt rest IH]; intros w journal l.
  - left. exists w. simpl. unfold ret. rewrite app_nil_r. auto.
  - simpl for_of. unfold bind.
    rewrite !run_statement_run, recorded_io_call. cbn [fst snd].
    destruct (io (ConnectionQuery stmt) w) as [[err | u] w1]; cbn [fst snd].
    + right. exists [], stmt, rest, err, w1. auto.
    + destruct u.
      destruct (IH w1 (journal ++ [Did (ConnectionQuery stmt) (inr tt)]) l)
        as [(w' & Hrec & Hplain)
           | (done & stmt' & rest' & err & w' & Hsplit & Hrec & Hplain)].
      * left. exists w'.
        split; [etransitivity; [exact Hrec |] | exact Hplain].
        simpl. rewrite <- app_assoc. reflexivity.
      * right. exists (stmt :: done), stmt', rest', err, w'.
        split; [rewrite Hsplit; reflexivity |].
        split; [etransitivity; [exact Hrec |] | exact Hplain].
        simpl. rewrite <- !app_assoc. reflexivity.
Qed.

(** Every run of the script is one of [import_run], and runs the same
    without the journal. *)
(** Rewrites the loop of the goal with what [H] says it returns. *)
Ltac use_loop H :=
  lazymatch type of H with
  | for_of _ ?body _ = ?rhs =>
      lazymatch goal with
      | |- context [for_of ?stmts body ?s] =>
          replace (for_of stmts body s) with rhs by (symmetry; exact H)
      end
  end.

Lemma main_journal (w : W) :
  exists (out : Thrown + Z) (w' : W) (journal : list (IoEvent Port)),
    main c (recorded_io io) (w, []) = (out, (w', journal))
    /\ main c io w = (out, w')
    /\ import_run c journal out.
Proof.
  unfold main, with_locals, import_schema, try_finally, try_catch.
  unfold bind, lift, modify, ret.
  rewrite ?recorded_io_call; cbn [fst snd app connection exitCode].
  destruct (io SchemaFileExists w) as [[err | [|]] w1];
    cbn [fst snd app connection exitCode];
    rewrite ?recorded_io_call; cbn [fst snd app connection exitCode].
  - do 3 eexists. repeat split. constructor.
  - destruct (io (CreateConnection (connection_options c)) w1)
      as [[err | u] w2];
      cbn [fst snd app connection exitCode];
      rewrite ?recorded_io_call; cbn [fst snd app connection exitCode].
    + do 3 eexists. repeat split. constructor.
    + destruct u.
      destruct (io ReadSchemaFile w2) as [[err | raw] w3];
        cbn [fst snd app connection exitCode];
        rewrite ?recorded_io_call; cbn [fst snd app connection exitCode].
      * destruct (io ConnectionEnd w3) as [[err' | u] w4]; cbn [fst snd];
          [| destruct u]; do 3 eexists; repeat split;
          apply (run_read_failed c err).
      * destruct (for_of_run_statement
                    (statements raw) w3
                    [Did SchemaFileExists (inr true);
                     Did (CreateConnection (connection_options c)) (inr tt);
                     Did ReadSchemaFile (inr raw)]
                    {| connection := true; exitCode := None |})
          as [(w4 & Hrec & Hplain)
             | (done & stmt & rest & err & w4 & Hsplit & Hrec & Hplain)];
          use_loop Hrec; use_loop Hplain;
          cbn [fst snd app connection exitCode];
          rewrite ?recorded_io_call; cbn [fst snd app connection exitCode].
        -- destruct (io ConnectionEnd w4) as [[err' | u] w5]; cbn [fst snd];
             [| destruct u]; do 3 eexists; repeat split;
             apply (run_imported c raw).
        -- destruct (io ConnectionEnd w4) as [[err' | u] w5]; cbn [fst snd];
             [| destruct u]; do 3 eexists; repeat split.
           ++ rewrite <- app_assoc.
              exact (run_stopped c raw done stmt rest err (inl err') Hsplit).
           ++ rewrite <- app_assoc.
              exact (run_stopped c raw done stmt rest err (inr tt) Hsplit).
  - do 3 eexists. repeat split. constructor.
Qed.

End Runs.

End ImportRunFacts.

Module JournalFacts.
Import ImportScript.

Lemma queries_sent {Port : Type} (stmts : list Text) :
  queries (map (@sent Port) stmts) = map (fun s => (s, inr tt)) stmts.
Proof.
  unfold queries. induction stmts as [| s rest IH]; simpl; [reflexivity |].
  rewrite IH. reflexivity.
Qed.

Lemma text_read_sent {Port : Type} (stmts : list Text) :
  flat_map text_read (map (@sent Port) stmts) = [].
Proof. induction stmts as [| s rest IH]; simpl; auto. Qed.

Lemma succeeded_sent {Port : Type} (stmts : list Text) :
  forallb succeeded (map (@sent Port) stmts) = true.
Proof. induction stmts as [| s rest IH]; simpl; auto. Qed.

Lemma is_end_sent {Port : Type} (stmts : list Text) :
  existsb is_end (map (@sent Port) stmts) = false.
Proof. induction stmts as [| s rest IH]; simpl; auto. Qed.

Lemma connect_sent {Port : Type} (stmts : list Text) :
  existsb (fun ev => is_connect ev && succeeded ev) (map (@sent Port) stmts)
  = false.
Proof. induction stmts as [| s rest IH]; simpl; auto. Qed.

Lemma all_but_last_sent (stmts : list Text) (last : Text * (Thrown + unit)) :
  forall (k : nat) (q : Text * (Thrown + unit)),
    nth_error (map (fun s => (s, inr tt)) stmts ++ [last]) k = Some q ->
    (S k < List.length (map (fun s : Text => (s, @inr Thrown unit tt)) stmts
                          ++ [last]))%nat ->
    snd q = inr tt.
Proof.
  intros k q Hq Hk. rewrite length_app, length_map in Hk. simpl in Hk.
  rewrite nth_error_app1 in Hq by (rewrite length_map; lia).
  rewrite nth_error_map in Hq.
  destruct (nth_error stmts k); simpl in Hq; [| discriminate].
  injection Hq as <-. reflexivity.
Qed.

End JournalFacts.

(** A run of the script that same run without a journal, and of one of
    the shapes of [import_run]. *)
Lemma main_runs_as_import_run
      {Port W : Type} (c : ImportScript.Config Port) (io : ImportScript.Io Port W)
      (w w' : W) (out : Thrown + Z)
      (journal : list (ImportScript.IoEvent Port)) :
  ImportScript.main c (ImportScript.recorded_io io) (w, [])
  = (out, (w', journal)) ->
  ImportScript.main c io w = (out, w')
  /\ ImportScript.import_run c journal out.
Proof.
  intros Hrun.
  destruct (ImportRunFacts.main_journal c io w)
    as (out0 & w0 & journal0 & Hrec & Hplain & Hshape).
  rewrite Hrun in Hrec. injection Hrec as <- <- <-. auto.
Qed.

(** The script sends the statements of the schema text in their order
    and stops at the first one that fails: the statements it sent are
    the first ones of the text's, every query before the last one sent
    succeeded, and when all of them succeeded none was left out. *)
Theorem import_sends_statements_in_order_until_one_fails
        {Port W : Type} (c : ImportScript.Config Port) (io : ImportScript.Io Port W)
        (w w' : W) (out : Thrown + Z)
        (journal : list (ImportScript.IoEvent Port)) (raw : ImportScript.Text) :
  ImportScript.main c (ImportScript.recorded_io io) (w, [])
  = (out, (w', journal)) ->
  ImportScript.schema_text journal = Some raw ->
  exists rest : list ImportScript.Text,
    map fst (ImportScript.queries journal) ++ rest = ImportScript.statements raw
    /\ (forall k q,
           nth_error (ImportScript.queries journal) k = Some q ->
           (S k < List.length (ImportScript.queries journal))%nat ->
           snd q = inr tt)
    /\ (Forall (fun q => snd q = inr tt) (ImportScript.queries journal) ->
        rest = []).
Proof.
  intros Hrun Hread.
  destruct (main_runs_as_import_run c io w w' out journal Hrun) as [_ Hshape].
  unfold ImportScript.schema_text, ImportScript.queries in *.
  destruct Hshape as [err | | err | err r | raw0 r
                      | raw0 done stmt rest err r Hsplit];
    try discriminate Hread.
  - rewrite !flat_map_app in Hread |- *. simpl in Hread.
    injection Hread as ->.
    fold (ImportScript.queries (map (@ImportScript.sent Port)
                                    (ImportScript.statements raw))).
    rewrite JournalFacts.queries_sent. simpl. rewrite app_nil_r.
    exists []. rewrite app_nil_r, map_map, map_id.
    split; [reflexivity |]. split; [| reflexivity].
    intros k q Hq _. rewrite nth_error_map in Hq.
    destruct (nth_error (ImportScript.statements raw) k); simpl in Hq;
      [| discriminate].
    injection Hq as <-. reflexivity.
  - rewrite !flat_map_app in Hread |- *. simpl in Hread.
    injection Hread as ->.
    fold (ImportScript.queries (map (@ImportScript.sent Port) done)).
    rewrite JournalFacts.queries_sent. simpl.
    exists rest. split; [| split].
    + rewrite map_app, map_map, map_id, Hsplit, <- app_assoc. reflexivity.
    + apply JournalFacts.all_but_last_sent.
    + intros Hall. rewrite Forall_app in Hall. destruct Hall as [_ Hlast].
      inversion Hlast as [| ? ? Hbad _]; subst. discriminate Hbad.
Qed.

(** The script closes the connection exactly when it opened one, once,
    and as the last thing it does; when no connection was opened (the
    schema file is missing, or connecting failed) it closes none. *)
Theorem import_closes_the_connection_it_opened
        {Port W : Type} (c : ImportScript.Config Port) (io : ImportScript.Io Port W)
        (w w' : W) (out : Thrown + Z)
        (journal : list (ImportScript.IoEvent Port)) :
  ImportScript.main c (ImportScript.recorded_io io) (w, [])
  = (out, (w', journal)) ->
  (ImportScript.connected journal = true ->
   exists before r,
     journal = before ++ [ImportScript.Did ImportScript.ConnectionEnd r]
     /\ existsb ImportScript.is_end before = false)
  /\ (ImportScript.connected journal = false ->
      existsb ImportScript.is_end journal = false).
Proof.
  intros Hrun.
  destruct (main_runs_as_import_run c io w w' out journal Hrun) as [_ Hshape].
  unfold ImportScript.connected.
  destruct Hshape as [err | | err | err r | raw r
                      | raw done stmt rest err r Hsplit].
  - split; [discriminate | reflexivity].
  - split; [discriminate | reflexivity].
  - split; [discriminate | reflexivity].
  - split; [| discriminate]. intros _.
    exists [ImportScript.Did ImportScript.SchemaFileExists (inr true);
            ImportScript.Did (ImportScript.CreateConnection
                                (ImportScript.connection_options c)) (inr tt);
            ImportScript.Did ImportScript.ReadSchemaFile (inl err)], r.
    split; reflexivity.
  - split; [| discriminate]. intros _.
    exists ([ImportScript.Did ImportScript.SchemaFileExists (inr true);
             ImportScript.Did (ImportScript.CreateConnection
                                 (ImportScript.connection_options c)) (inr tt);
             ImportScript.Did ImportScript.ReadSchemaFile (inr raw)]
              ++ map ImportScript.sent (ImportScript.statements raw)), r.
    split; [rewrite <- app_assoc; reflexivity |].
    rewrite existsb_app, JournalFacts.is_end_sent. reflexivity.
  - split; [| discriminate]. intros _.
    exists ([ImportScript.Did ImportScript.SchemaFileExists (inr true);
             ImportScript.Did (ImportScript.CreateConnection
                                 (ImportScript.connection_options c)) (inr tt);
             ImportScript.Did ImportScript.ReadSchemaFile (inr raw)]
              ++ map ImportScript.sent done
              ++ [ImportScript.Did (ImportScript.ConnectionQuery stmt) (inl err)]),
      r.
    split; [rewrite <- !app_assoc; reflexivity |].
    rewrite !existsb_app, JournalFacts.is_end_sent. reflexivity.
Qed.

(** The script's exit code is 0 exactly when it opened a connection and
    nothing it asked for threw; otherwise it is 1.  The script itself
    throws only what the check for the schema file or the closing of the
    connection threw, and that is then the last thing in its journal. *)
Theorem import_exits_with_zero_only_after_a_clean_run
        {Port W : Type} (c : ImportScript.Config Port) (io : ImportScript.Io Port W)
        (w w' : W) (out : Thrown + Z)
        (journal : list (ImportScript.IoEvent Port)) :
  ImportScript.main c (ImportScript.recorded_io io) (w, [])
  = (out, (w', journal)) ->
  (out = inr 0
   <-> forallb ImportScript.succeeded journal = true
       /\ ImportScript.connected journal = true)
  /\ (forall code, out = inr code -> code = 0 \/ code = 1)
  /\ (forall err,
         out = inl err ->
         exists before op,
           journal = before ++ [ImportScript.Did op (inl err)]
           /\ (ImportScript.is_end (ImportScript.Did op (inl err)) = true
               \/ before = [])).
Proof.
  intros Hrun.
  destruct (main_runs_as_import_run c io w w' out journal Hrun) as [_ Hshape].
  unfold ImportScript.connected.
  destruct Hshape as [err | | err | err r | raw r
                      | raw done stmt rest err r Hsplit].
  - split; [split; [discriminate | intros [H _]; discriminate H] |].
    split; [discriminate |].
    intros err0 H. injection H as <-.
    exists [], ImportScript.SchemaFileExists. auto.
  - split; [split; [discriminate | intros [_ H]; discriminate H] |].
    split; [intros code H; injection H as <-; auto | discriminate].
  - split; [split; [discriminate | intros [H _]; discriminate H] |].
    split; [intros code H; injection H as <-; auto | discriminate].
  - split; [split; [destruct r; discriminate | intros [H _]; discriminate H] |].
    split; [destruct r; [discriminate |];
            intros code H; injection H as <-; auto |].
    intros err0 H. destruct r as [err' | u]; [| discriminate].
    injection H as <-.
    exists [ImportScript.Did ImportScript.SchemaFileExists (inr true);
            ImportScript.Did (ImportScript.CreateConnection
                                (ImportScript.connection_options c)) (inr tt);
            ImportScript.Did ImportScript.ReadSchemaFile (inl err)],
      ImportScript.ConnectionEnd.
    auto.
  - rewrite !forallb_app, !existsb_app, JournalFacts.succeeded_sent.
    split; [| split].
    + destruct r as [err' | u]; simpl; split; try discriminate; auto.
      intros [H _]. discriminate H.
    + destruct r; [discriminate |]. intros code H. injection H as <-. auto.
    + intros err0 H. destruct r as [err' | u]; [| discriminate].
      injection H as <-.
      exists ([ImportScript.Did ImportScript.SchemaFileExists (inr true);
               ImportScript.Did (ImportScript.CreateConnection
                                   (ImportScript.connection_options c)) (inr tt);
               ImportScript.Did ImportScript.ReadSchemaFile (inr raw)]
                ++ map ImportScript.sent (ImportScript.statements raw)),
        ImportScript.ConnectionEnd.
      split; [rewrite <- app_assoc; reflexivity | auto].
  - rewrite !forallb_app, !existsb_app, JournalFacts.succeeded_sent.
    split; [| split].
    + destruct r as [err' | u]; simpl; split; try discriminate;
        intros [H _]; discriminate H.
    + destruct r; [discriminate |]. intros code H. injection H as <-. auto.
    + intros err0 H. destruct r as [err' | u]; [| discriminate].
      injection H as <-.
      exists ([ImportScript.Did ImportScript.SchemaFileExists (inr true);
               ImportScript.Did (ImportScript.CreateConnection
                                   (ImportScript.connection_options c)) (inr tt);
               ImportScript.Did ImportScript.ReadSchemaFile (inr raw)]
                ++ map ImportScript.sent done
                ++ [ImportScript.Did (ImportScript.ConnectionQuery stmt)
                                     (inl err)]),
        ImportScript.ConnectionEnd.
      split; [rewrite <- !app_assoc; reflexivity | auto].
Qed.

(** ** The theorems at work *)

Lemma sweep_delivers_exactly_the_eligible_orders_witness :
  NoDup (map (fun o => id (MySQL.row o)) (MySQL.orders Scenario.shop))
  /\ exists (r : SweepResult) (db' : MySQL.Database),
       checkAndMarkDeliveredOrders MySQL.executeQuery Scenario.shop = (inr r, db')
       /\ processedOrders r = map order_number (MySQL.select_eligible Scenario.shop)
       /\ processedCount r
          = Z.of_nat (List.length (MySQL.select_eligible Scenario.shop))
       /\ errors r = []
       /\ MySQL.orders db'
          = map (fun o => if MySQL.eligible (MySQL.now Scenario.shop) o
                          then MySQL.set_delivered (MySQL.now Scenario.shop) o
                          else o)
                (MySQL.orders Scenario.shop).
Proof.
  assert (NoDup (map (fun o => id (MySQL.row o)) (MySQL.orders Scenario.shop)))
    as Hnodup.
  { simpl. repeat (constructor; [simpl; intuition discriminate |]). constructor. }
  split; [exact Hnodup |].
  exact (sweep_delivers_exactly_the_eligible_orders Scenario.shop eq_refl Hnodup).
Defined.

Lemma sweep_leaves_one_audit_entry_per_processed_order_witness :
  MySQL.auto_delivery_logs Scenario.shop = Some []
  /\ exists (r : SweepResult) (db' : MySQL.Database)
            (entries : list MySQL.LogEntry),
       checkAndMarkDeliveredOrders MySQL.executeQuery Scenario.shop = (inr r, db')
       /\ errors r = []
       /\ MySQL.auto_delivery_logs db' = Some ([] ++ entries)
       /\ map MySQL.log_order_number entries = processedOrders r
       /\ Forall (fun e =>
                    MySQL.processed_at e = MySQL.now Scenario.shop
                    /\ exists row, In row (MySQL.select_eligible Scenario.shop)
                                   /\ MySQL.log_order_id e = id row
                                   /\ MySQL.log_order_number e = order_number row
                                   /\ MySQL.log_customer_email e = customer_email row)
                 entries
       /\ getStats MySQL.executeQuery db'
          = (inr {| totalProcessed := Z.of_nat (List.length (@nil MySQL.LogEntry))
                                      + processedCount r;
                    lastProcessed := MySQL.max_processed_at ([] ++ entries);
                    errorCount := 0 |}, db').
Proof.
  split; [reflexivity |].
  exact (sweep_leaves_one_audit_entry_per_processed_order
           Scenario.shop [] eq_refl eq_refl).
Defined.

Lemma setupAutoDeliveryLogsTable_is_safe_to_repeat_witness :
  (let db' := snd (setupAutoDeliveryLogsTable MySQL.executeQuery
                                              Scenario.shop_without_logs) in
   MySQL.auto_delivery_logs db' = Some []
   /\ MySQL.orders db' = MySQL.orders Scenario.shop_without_logs
   /\ snd (setupAutoDeliveryLogsTable MySQL.executeQuery db') = db')
  /\ snd (setupAutoDeliveryLogsTable MySQL.executeQuery Scenario.shop_offline)
     = Scenario.shop_offline.
Proof.
  destruct setupAutoDeliveryLogsTable_is_safe_to_repeat as (_ & Hon & Hoff).
  split.
  - exact (Hon Scenario.shop_without_logs eq_refl).
  - exact (Hoff Scenario.shop_offline eq_refl).
Defined.

Lemma update_of_several_rows_is_not_reported_witness :
  let twin := MySQL.row (Scenario.order 8 "ORD-0008" "shipped"
                                        (Some (86 * Scenario.day))) in
  let nothing := {| l_processedOrders := []; l_errors := [] |} in
  MySQL.executeQuery (UpdateDelivered 8) Cases.twins
  = (inr {| affectedRows := 2 |}, MySQL.update_delivered 8 Cases.twins)
  /\ process_order (recorded MySQL.executeQuery) twin ((Cases.twins, []), nothing)
     = (inr tt,
        ((MySQL.update_delivered 8 Cases.twins,
          [Called (UpdateDelivered 8) (inr {| affectedRows := 2 |})]),
         nothing))
  /\ process_order MySQL.executeQuery twin (Cases.twins, nothing)
     = (inr tt, (MySQL.update_delivered 8 Cases.twins, nothing))
  /\ In (MySQL.set_delivered
           (MySQL.now Cases.twins)
           (Scenario.order 8 "ORD-0008-B" "shipped" (Some (86 * Scenario.day))))
        (MySQL.orders (MySQL.update_delivered 8 Cases.twins)).
Proof.
  intros twin nothing.
  destruct update_of_several_rows_is_not_reported as [Hany Hdb].
  split; [reflexivity |]. split.
  - refine (Hany _ MySQL.executeQuery twin Cases.twins
                 (MySQL.update_delivered 8 Cases.twins) [] nothing
                 {| affectedRows := 2 |} eq_refl _).
    simpl. discriminate.
  - destruct (Hdb Cases.twins twin nothing eq_refl) as [Hrun Hrows].
    + simpl. lia.
    + split; [exact Hrun |].
      apply Hrows; [right; left; reflexivity | reflexivity].
Defined.

Lemma getDefaultAddress_picks_first_default_else_first_witness :
  Addresses.getDefaultAddress [Cases.office; Cases.home] = Some Cases.home
  /\ In Cases.home [Cases.office; Cases.home]
  /\ (exists before after,
         [Cases.office; Cases.home] = before ++ Cases.home :: after
         /\ Forall (fun a => Addresses.is_default a = false) before)
  /\ Addresses.getDefaultAddress [Cases.office] = Some Cases.office
  /\ hd_error [Cases.office] = Some Cases.office.
Proof.
  destruct (getDefaultAddress_picks_first_default_else_first
              [Cases.office; Cases.home] Cases.home eq_refl)
    as (Hin & Hflagged & _).
  destruct (getDefaultAddress_picks_first_default_else_first
              [Cases.office] Cases.office eq_refl)
    as (_ & _ & Hplain).
  split; [reflexivity |]. split; [exact Hin |].
  split; [exact (Hflagged eq_refl) |].
  split; [reflexivity |].
  exact (proj1 (Hplain eq_refl)).
Defined.

Lemma fetchAddresses_never_throws_and_stops_loading_witness :
  (exists h',
      Addresses.fetchAddresses true true Cases.signed_in Cases.accepting
                               Cases.showing_office = (inr tt, h')
      /\ Addresses.loading (Addresses.cells h') = false)
  /\ (exists h',
         Addresses.fetchAddresses false true Cases.signed_in Cases.accepting
                                  Cases.showing_office = (inr tt, h')
         /\ h' = {| Addresses.browser := 0%nat;
                    Addresses.cells := {| Addresses.addresses := [];
                                          Addresses.loading := false;
                                          Addresses.error := None |};
                    Addresses.toasts := [] |}).
Proof.
  split.
  - destruct (fetchAddresses_never_throws_and_stops_loading
                true true Cases.signed_in Cases.accepting Cases.showing_office)
      as (h' & Hrun & Hloading & _).
    exists h'. split; [exact Hrun | exact (Hloading eq_refl)].
  - destruct (fetchAddresses_never_throws_and_stops_loading
                false true Cases.signed_in Cases.accepting Cases.showing_office)
      as (h' & Hrun & _ & Hidle).
    exists h'. split; [exact Hrun | exact (Hidle eq_refl)].
Defined.

Lemma fetchAddresses_fails_without_losing_the_list_witness :
  snd (Addresses.fetchAddresses true true Cases.signed_out Cases.accepting
                                Cases.showing_office)
  = Addresses.loaded Cases.showing_office 0%nat []
  /\ snd (Addresses.fetchAddresses true true Cases.signed_in Cases.rejecting
                                   Cases.showing_office)
     = Addresses.load_failed Cases.showing_office 1%nat
                             (ErrorObject "Failed to load addresses").
Proof.
  split.
  - destruct (fetchAddresses_fails_without_losing_the_list
                Cases.signed_out Cases.accepting Cases.showing_office)
      as (_ & Hnone & _).
    exact (Hnone None 0%nat eq_refl eq_refl).
  - destruct (fetchAddresses_fails_without_losing_the_list
                Cases.signed_in Cases.rejecting Cases.showing_office)
      as (_ & _ & Hdown).
    exact (Hdown (Some "t0k3n") 0%nat _ 1%nat eq_refl eq_refl eq_refl).
Defined.

Lemma changes_refuse_without_credentials_witness :
  Addresses.createAddress false true Cases.signed_in Cases.accepting
                          Cases.new_home Cases.showing_office
  = (inl (ErrorObject "User not authenticated"), Cases.showing_office)
  /\ Addresses.deleteAddress true true Cases.signed_out Cases.accepting "a1"
                             Cases.showing_office
     = (inl (ErrorObject "Authentication token not found"),
        Addresses.change_failed
          "Failed to delete address" Cases.showing_office 0%nat
          (ErrorObject "Authentication token not found")).
Proof.
  split.
  - destruct (changes_refuse_without_credentials
                false true Cases.signed_in Cases.accepting Cases.showing_office)
      as [Hout _].
    destruct (Hout eq_refl) as (Hcreate & _ & _).
    exact (Hcreate Cases.new_home).
  - destruct (changes_refuse_without_credentials
                true true Cases.signed_out Cases.accepting Cases.showing_office)
      as [_ Htoken].
    destruct (Htoken None 0%nat eq_refl eq_refl) as (_ & _ & Hdelete).
    exact (Hdelete "a1").
Defined.

Lemma rejected_change_throws_the_server_error_text_witness :
  Addresses.createAddress true true Cases.signed_in Cases.rejecting
                          Cases.new_home Cases.showing_office
  = (inl (ErrorObject "Postal code is required"),
     Addresses.change_failed "Failed to create address" Cases.showing_office
                             1%nat (ErrorObject "Postal code is required"))
  /\ ErrorObject (Addresses.or_default None "Failed to update address")
     = ErrorObject "Failed to update address".
Proof.
  split.
  - destruct (rejected_change_throws_the_server_error_text
                Cases.signed_in Cases.rejecting Cases.showing_office
                (Some "t0k3n") 0%nat 1%nat
                {| Addresses.error_text := Some "Postal code is required" |}
                eq_refl eq_refl) as (Hcreate & _).
    exact (Hcreate Cases.new_home eq_refl).
  - destruct (rejected_change_throws_the_server_error_text
                Cases.signed_in Cases.rejecting Cases.showing_office
                (Some "t0k3n") 0%nat 1%nat
                {| Addresses.error_text := None |}
                eq_refl eq_refl) as (_ & _ & _ & _ & Hfallback).
    exact (Hfallback "Failed to update address" (or_introl eq_refl)).
Defined.

Lemma accepted_change_returns_even_if_the_reload_fails_witness :
  Addresses.createAddress true true Cases.signed_in Cases.list_down
                          Cases.new_home Cases.showing_office
  = (inr Cases.home,
     Addresses.changed
       "Address created successfully"
       (snd (Addresses.fetchAddresses
               true true Cases.signed_in Cases.list_down
               (Addresses.in_flight Cases.showing_office 1%nat))))
  /\ Addresses.changed
       "Address created successfully"
       (snd (Addresses.fetchAddresses
               true true Cases.signed_in Cases.list_down
               (Addresses.in_flight Cases.showing_office 1%nat)))
     = {| Addresses.browser := 2%nat;
          Addresses.cells :=
            {| Addresses.addresses := [Cases.office];
               Addresses.loading := false;
               Addresses.error := Some "Failed to load addresses" |};
          Addresses.toasts :=
            [Addresses.error_toast "Failed to load addresses";
             Addresses.success_toast "Address created successfully"] |}.
Proof.
  destruct (accepted_change_returns_even_if_the_reload_fails
              Cases.signed_in Cases.list_down Cases.showing_office
              (Some "t0k3n") 0%nat 1%nat eq_refl eq_refl)
    as (Hcreate & _ & _ & Hreload).
  split.
  - exact (Hcreate Cases.new_home Cases.home eq_refl).
  - exact (Hreload (Some "t0k3n") 1%nat _ 2%nat
                   "Address created successfully" eq_refl eq_refl eq_refl).
Defined.

Lemma statements_are_trimmed_and_free_of_comments_witness :
  let stmt := ImportScript.text "DROP TABLE b" in
  In stmt (ImportScript.statements Cases.schema)
  /\ stmt <> []
  /\ (forall c, hd_error stmt = Some c -> ImportScript.is_blank c = false)
  /\ (forall c, hd_error (rev stmt) = Some c -> ImportScript.is_blank c = false)
  /\ ~ In ImportScript.SEMICOLON stmt
  /\ ImportScript.has_double_hyphen stmt = false.
Proof.
  intros stmt.
  assert (In stmt (ImportScript.statements Cases.schema)) as Hin
      by (right; right; right; left; reflexivity).
  split; [exact Hin |].
  exact (statements_are_trimmed_and_free_of_comments Cases.schema stmt Hin).
Defined.

Lemma import_sends_statements_in_order_until_one_fails_witness :
  exists (out : Thrown + Z) (journal : list (ImportScript.IoEvent Z))
         (rest : list ImportScript.Text),
    ImportScript.main Cases.local_config
                      (ImportScript.recorded_io
                         (Cases.disk true (ImportScript.text "BAD") true))
                      (tt, [])
    = (out, (tt, journal))
    /\ ImportScript.schema_text journal = Some Cases.schema
    /\ map fst (ImportScript.queries journal)
       = [ImportScript.text "CREATE TABLE a (x INT)";
          ImportScript.text "INSERT INTO a VALUES (1)";
          ImportScript.text "BAD"]
    /\ map fst (ImportScript.queries journal) ++ rest
       = ImportScript.statements Cases.schema.
Proof.
  destruct (import_sends_statements_in_order_until_one_fails
              Cases.local_config
              (Cases.disk true (ImportScript.text "BAD") true)
              tt tt _ _ Cases.schema eq_refl eq_refl)
    as (rest & Hprefix & _).
  do 2 eexists. exists rest.
  split; [reflexivity |]. split; [reflexivity |].
  split; [reflexivity | exact Hprefix].
Defined.

Lemma import_closes_the_connection_it_opened_witness :
  (exists (out : Thrown + Z) (journal before : list (ImportScript.IoEvent Z))
          (r : Thrown + unit),
      ImportScript.main Cases.local_config
                        (ImportScript.recorded_io
                           (Cases.disk true (ImportScript.text "BAD") true))
                        (tt, [])
      = (out, (tt, journal))
      /\ ImportScript.connected journal = true
      /\ journal = before ++ [ImportScript.Did ImportScript.ConnectionEnd r]
      /\ existsb ImportScript.is_end before = false)
  /\ (exists (out : Thrown + Z) (journal : list (ImportScript.IoEvent Z)),
         ImportScript.main Cases.local_config
                           (ImportScript.recorded_io
                              (Cases.disk false (ImportScript.text "BAD") true))
                           (tt, [])
         = (out, (tt, journal))
         /\ ImportScript.connected journal = false
         /\ existsb ImportScript.is_end journal = false).
Proof.
  split.
  - destruct (import_closes_the_connection_it_opened
                Cases.local_config
                (Cases.disk true (ImportScript.text "BAD") true)
                tt tt _ _ eq_refl) as [Hopen _].
    destruct (Hopen eq_refl) as (before & r & Hlast & Hnone).
    do 2 eexists. exists before, r.
    split; [reflexivity |]. split; [reflexivity |].
    split; [exact Hlast | exact Hnone].
  - destruct (import_closes_the_connection_it_opened
                Cases.local_config
                (Cases.disk false (ImportScript.text "BAD") true)
                tt tt _ _ eq_refl) as [_ Hshut].
    do 2 eexists.
    split; [reflexivity |]. split; [reflexivity |].
    exact (Hshut eq_refl).
Defined.

Lemma import_exits_with_zero_only_after_a_clean_run_witness :
  (1 = 0 \/ 1 = 1)
  /\ (exists before op,
         snd (snd (ImportScript.main
                     Cases.local_config
                     (ImportScript.recorded_io
                        (Cases.disk true (ImportScript.text "NONE") false))
                     (tt, [])))
         = before ++ [ImportScript.Did op (inl (ErrorObject "read ECONNRESET"))]
         /\ (ImportScript.is_end
               (ImportScript.Did op (inl (ErrorObject "read ECONNRESET"))) = true
             \/ before = [])).
Proof.
  split.
  - destruct (import_exits_with_zero_only_after_a_clean_run
                Cases.local_config
                (Cases.disk true (ImportScript.text "BAD") true)
                tt tt _ _ eq_refl) as (_ & Hcode & _).
    exact (Hcode 1 eq_refl).
  - destruct (import_exits_with_zero_only_after_a_clean_run
                Cases.local_config
                (Cases.disk true (ImportScript.text "NONE") false)
                tt tt _ _ eq_refl) as (_ & _ & Hthrown).
    exact (Hthrown (ErrorObject "read ECONNRESET") eq_refl).
Defined.


